(** * UmTRX host streaming engine: flow control, status reception, channel binding

    A shallow embedding of [umtrx/host/io_impl.cpp]:
    - [flow_control_monitor]: the per-channel transmit window tracker;
    - [io_impl]: the send-buffer gate [get_send_buff] and the body of
      [recv_pirate_loop];
    - [get_rx_stream] / [get_tx_stream]: streamer creation and the loop that
      binds logical channels to boards and DSP slots;
    - [update_rates] and the rate updates it sets off.

    Conventions.  A [boost::uint32_t] is a [Z] in [0, 2^32); arithmetic on it
    wraps through [seq_type].  A [size_t] used as a container index or a
    channel count is a [nat] (channel totals are far below [SIZE_MAX]).
    [std::vector] indexing is list lookup; an index outside the vector is
    undefined behaviour in the source and is reported as [Undefined]. *)

From stdpp Require Import base list strings.
From Stdlib Require Import ZArith Lia.

(** ** Outcomes of fallible code *)

Inductive exception : Type :=
  | value_error (what : string)
  | thread_interrupted.

(** [uhd::value_error] derives from [std::exception];
    [boost::thread_interrupted] does not, so [catch(const std::exception &)]
    lets it pass. *)
Definition is_std_exception (e : exception) : bool :=
  match e with
  | value_error _ => true
  | thread_interrupted => false
  end.

Inductive outcome (A : Type) : Type :=
  | Ok (a : A)
  | Throw (e : exception)
  | Undefined.

Arguments Ok {A} a.
Arguments Throw {A} e.
Arguments Undefined {A}.

#[global] Instance outcome_ret : MRet outcome := λ A a, Ok a.

#[global] Instance outcome_bind : MBind outcome := λ A B k m,
  match m with
  | Ok a => k a
  | Throw e => Throw e
  | Undefined => Undefined
  end.

(** [vec !! i] for a [std::vector] access [vec[i]]. *)
Definition at_index {A} (vec : list A) (i : nat) : outcome A :=
  match vec !! i with
  | Some a => Ok a
  | None => Undefined
  end.

(** ** 32-bit sequence numbers *)

Definition seq_modulus : Z := (2 ^ 32)%Z.

(** The conversion [seq_type(x)] to [boost::uint32_t]. *)
Definition seq_type (x : Z) : Z := (x mod seq_modulus)%Z.

Definition is_seq (x : Z) : Prop := (0 ≤ x < seq_modulus)%Z.

(** ** Flow control monitor for a single tx channel *)

Module flow_control_monitor.

Local Open Scope Z_scope.

Record t : Type := mk {
  _last_seq_out : Z;
  _last_seq_ack : Z;
  _max_seqs_out : Z
}.

(** [clear()]: both counters back to zero. *)
Definition clear (m : t) : t :=
  {| _last_seq_out := 0; _last_seq_ack := 0;
     _max_seqs_out := _max_seqs_out m |}.

(** The constructor: stores the window and calls [clear()]. *)
Definition make (max_seqs_out : Z) : t :=
  clear {| _last_seq_out := 0; _last_seq_ack := 0;
           _max_seqs_out := max_seqs_out |}.

(** [get_curr_seq_out()]: [return _last_seq_out++;] on a 32-bit counter. *)
Definition get_curr_seq_out (m : t) : Z * t :=
  (_last_seq_out m,
   {| _last_seq_out := seq_type (_last_seq_out m + 1);
      _last_seq_ack := _last_seq_ack m;
      _max_seqs_out := _max_seqs_out m |}).

(** [update_fc_condition(seq)]: [_last_seq_ack = seq;] then one waiter is
    notified. *)
Definition update_fc_condition (seq : Z) (m : t) : t :=
  {| _last_seq_out := _last_seq_out m;
     _last_seq_ack := seq;
     _max_seqs_out := _max_seqs_out m |}.

(** [ready()]: [seq_type(_last_seq_out - _last_seq_ack) < _max_seqs_out]. *)
Definition ready (m : t) : bool :=
  seq_type (_last_seq_out m - _last_seq_ack m) <? _max_seqs_out m.

(** What can happen while [check_fc_condition] is blocked in
    [timed_wait], before its deadline.  The monitor's mutex serialises
    these with the waiter. *)
Inductive wait_event : Type :=
  (* the pirate thread ran update_fc_condition(seq) and notified *)
  | ack_arrives (seq : Z)
  (* the condition variable woke the waiter for no reason *)
  | spurious_wake
  (* another thread called interrupt() on the waiter *)
  | interrupt_requested.

(** [boost::condition::timed_wait(lock, duration, pred)]:
    [while (!pred()) { if (!timed_wait(lock, deadline)) return pred(); }
     return true;]
    The events are those that fall before the deadline; when none is left
    the inner wait times out.  An interruption request makes the inner wait
    throw [thread_interrupted] only while interruption is enabled for the
    waiting thread.  The unconsumed events are returned with the result. *)
Fixpoint timed_wait (interruption_enabled : bool)
    (events : list wait_event) (m : t) {struct events}
    : outcome bool * t * list wait_event :=
  if ready m then (Ok true, m, events)
  else
    match events with
    | [] => (Ok (ready m), m, [])
    | ack_arrives seq :: rest =>
        timed_wait interruption_enabled rest (update_fc_condition seq m)
    | spurious_wake :: rest =>
        timed_wait interruption_enabled rest m
    | interrupt_requested :: rest =>
        if interruption_enabled then (Throw thread_interrupted, m, rest)
        else timed_wait interruption_enabled rest m
    end.

(** [check_fc_condition(timeout)]: the early return when [ready()] holds,
    otherwise [disable_interruption di;] and the timed wait on the
    predicate.  [events] is what happens within [timeout] of the call. *)
Definition check_fc_condition (events : list wait_event) (m : t)
    : outcome bool * t * list wait_event :=
  if ready m then (Ok true, m, events)
  else timed_wait false events m.

(** The monitor after the given events: only acknowledgements touch it. *)
Definition after_event (m : t) (e : wait_event) : t :=
  match e with
  | ack_arrives seq => update_fc_condition seq m
  | spurious_wake | interrupt_requested => m
  end.

Definition after_events (events : list wait_event) (m : t) : t :=
  foldl after_event m events.

Definition is_interrupt (e : wait_event) : bool :=
  match e with interrupt_requested => true | _ => false end.

(** A sequence of calls made on one monitor. *)
Inductive call : Type :=
  | call_get_curr_seq_out
  | call_update_fc_condition (seq : Z).

Definition do_call (m : t) (c : call) : t :=
  match c with
  | call_get_curr_seq_out => snd (get_curr_seq_out m)
  | call_update_fc_condition seq => update_fc_condition seq m
  end.

Definition run (calls : list call) (m : t) : t := foldl do_call m calls.

(** How many sequence numbers a call sequence takes. *)
Definition seqs_taken (calls : list call) : Z :=
  foldl (λ n c, match c with
                | call_get_curr_seq_out => n + 1
                | call_update_fc_condition _ => n
                end) 0 calls.

(** The last acknowledged value of a call sequence, [ack0] if none. *)
Definition last_acked (ack0 : Z) (calls : list call) : Z :=
  foldl (λ a c, match c with
                | call_get_curr_seq_out => a
                | call_update_fc_condition seq => seq
                end) ack0 calls.

End flow_control_monitor.

(** ** Bounded buffer ([uhd/transport/bounded_buffer.hpp]) *)

Module bounded_buffer.

(** The elements are kept oldest first. *)
Record t (A : Type) : Type := mk {
  capacity : nat;
  elems : list A
}.

Arguments mk {A} capacity elems.
Arguments capacity {A} _.
Arguments elems {A} _.

(** [bounded_buffer(capacity)]: an empty buffer of fixed capacity. *)
Definition make {A} (capacity : nat) : t A :=
  {| capacity := capacity; elems := [] |}.

Definition size {A} (b : t A) : nat := length (elems b).

Definition full {A} (b : t A) : bool := (size b =? capacity b)%nat.

(** Modelled from the spec: [push_with_pop_on_full], defined in the
    bounded buffer header and not in [io_impl.cpp].  The push "always
    succeeds; if full, removes the single oldest entry first"; ordering is
    insertion order. *)
Definition push_with_pop_on_full {A} (elem : A) (b : t A) : t A :=
  if full b
  then {| capacity := capacity b; elems := tail (elems b) ++ [elem] |}
  else {| capacity := capacity b; elems := elems b ++ [elem] |}.

End bounded_buffer.

(** ** VRT packet information and async metadata *)

(** Modelled from the spec: the packet type enumeration of the VRT header
    ("data vs. status/control"), declared outside [io_impl.cpp]; the code
    only compares against [PACKET_TYPE_DATA]. *)
Inductive packet_type_t : Type :=
  | PACKET_TYPE_DATA
  | PACKET_TYPE_CONTEXT.

#[global] Instance packet_type_eq_dec : EqDecision packet_type_t.
Proof. solve_decision. Defined.

(** The fields of [vrt::if_packet_info_t] that this file reads or writes. *)
Record if_packet_info_t : Type := {
  packet_type : packet_type_t;
  num_header_words32 : nat;
  num_packet_words32 : nat;
  sid : Z;
  has_tsi : bool;
  tsi : Z;
  has_tsf : bool;
  tsf : Z
}.

(** A transport buffer seen through [cast<boost::uint32_t *>()]: its 32-bit
    words in memory order; [size()/sizeof(boost::uint32_t)] is its length. *)
Definition buffer_words : Type := list Z.

(** A zero-copy transport, as far as this file asks it: its frame sizes in
    bytes. *)
Record zero_copy_if : Type := {
  get_send_frame_size : nat;
  get_recv_frame_size : nat
}.

(** Helpers, constants and types that [io_impl.cpp] takes from other
    headers: the VRT header codec, byte order, the async event codes, the
    sample converter table, and the tick rate that the property tree holds
    for a board.  Values of C++ type [double] are only stored and passed
    on, so the type is left open. *)
Class externals : Type := {
  double : Type;
  (* vrt::if_hdr_unpack_be(vrt_hdr, if_packet_info), given num_packet_words32 *)
  if_hdr_unpack_be : buffer_words → nat → outcome if_packet_info_t;
  (* sph::get_context_code(vrt_hdr, if_packet_info) *)
  get_context_code : buffer_words → if_packet_info_t → Z;
  USRP2_TX_ASYNC_SID_BASE : Z;
  ntohx : Z → Z;
  htonx : Z → Z;
  EVENT_CODE_UNDERFLOW : Z;
  EVENT_CODE_UNDERFLOW_IN_PACKET : Z;
  EVENT_CODE_SEQ_ERROR : Z;
  EVENT_CODE_SEQ_ERROR_IN_BURST : Z;
  EVENT_CODE_TIME_ERROR : Z;
  (* vrt::max_if_hdr_words32, sizeof(if_packet_info_t().tlr), sizeof(...cid) *)
  max_if_hdr_words32 : Z;
  sizeof_tlr : Z;
  sizeof_cid : Z;
  (* convert::get_bytes_per_item(format) *)
  get_bytes_per_item : string → Z;
  (* unsigned(args.cast<double>("scalar", 0x400)) *)
  sc8_scalar_of : list (string * string) → Z;
  (* size_t(50e6/recv_frame_size) *)
  packets_per_sock_buff_of : nat → Z;
  (* _tree->access<double>("/mboards/" + mb + "/tick_rate").get() *)
  tree_tick_rate : string → double
}.

Section io_impl.

Context `{!externals}.

(** [time_spec_t(full_secs, tick_count, tick_rate)], kept as its
    constructor arguments. *)
Record time_spec_t : Type := {
  full_secs : Z;
  tick_count : Z;
  tick_rate_of : double
}.

Record async_metadata_t : Type := {
  channel : nat;
  has_time_spec : bool;
  time_spec : time_spec_t;
  event_code : Z
}.

Record io_impl : Type := {
  tx_xports : list zero_copy_if;
  fc_mons : list flow_control_monitor.t;
  async_msg_fifo : bounded_buffer.t async_metadata_t;
  tick_rate : double
}.

(** The constructor [io_impl(void)]: the fifo is 100 messages deep, the
    vectors start empty; [tick_rate] has no initialiser. *)
Definition io_impl_ctor (tick_rate0 : double) : io_impl :=
  {| tx_xports := [];
     fc_mons := [];
     async_msg_fifo := bounded_buffer.make 100;
     tick_rate := tick_rate0 |}.

Definition set_fc_mon (chan : nat) (m : flow_control_monitor.t)
    (io : io_impl) : io_impl :=
  {| tx_xports := tx_xports io;
     fc_mons := <[chan := m]> (fc_mons io);
     async_msg_fifo := async_msg_fifo io;
     tick_rate := tick_rate io |}.

Definition set_async_msg_fifo (q : bounded_buffer.t async_metadata_t)
    (io : io_impl) : io_impl :=
  {| tx_xports := tx_xports io;
     fc_mons := fc_mons io;
     async_msg_fifo := q;
     tick_rate := tick_rate io |}.

(** [get_send_buff(chan, timeout)].  [events] is what reaches the channel's
    monitor within [timeout] while the caller waits on flow control;
    [xport_buff] is what the transport's [get_send_buff(timeout)] hands
    out if it is asked ([None]: the null pointer).  The flow control word
    goes into word 0 of the buffer. *)
Definition get_send_buff (chan : nat)
    (events : list flow_control_monitor.wait_event)
    (xport_buff : option buffer_words) (io : io_impl)
    : outcome (option buffer_words * io_impl) :=
  fc_mon ← at_index (fc_mons io) chan;
  let '(checked, fc_mon1, _) :=
    flow_control_monitor.check_fc_condition events fc_mon in
  let io1 := set_fc_mon chan fc_mon1 io in
  is_ready ← checked;
  if negb is_ready then Ok (None, io1)
  else
    _ ← at_index (tx_xports io1) chan;
    match xport_buff with
    | None => Ok (None, io1)
    | Some buff =>
        let '(seq, fc_mon2) :=
          flow_control_monitor.get_curr_seq_out fc_mon1 in
        match buff with
        | [] => Undefined
        | _ :: payload =>
            Ok (Some (htonx seq :: payload), set_fc_mon chan fc_mon2 io1)
        end
    end.

(** The calls and messages one turn of the pirate loop makes, in order. *)
Inductive pirate_effect : Type :=
  | did_update_fc_condition (index : nat) (seq : Z)
  | did_push_with_pop_on_full (metadata : async_metadata_t)
  | did_msg_fastpath (text : string)
  | did_msg_error.


Definition has_bits (code mask : Z) : bool := negb (Z.land code mask =? 0)%Z.

(** The fastpath letter chosen by the [if]/[else if] chain after a push. *)
Definition fastpath_msg (code : Z) : list pirate_effect :=
  if has_bits code
       (Z.lor EVENT_CODE_UNDERFLOW EVENT_CODE_UNDERFLOW_IN_PACKET)
  then [did_msg_fastpath "U"]
  else if has_bits code
       (Z.lor EVENT_CODE_SEQ_ERROR EVENT_CODE_SEQ_ERROR_IN_BURST)
  then [did_msg_fastpath "S"]
  else if has_bits code EVENT_CODE_TIME_ERROR
  then [did_msg_fastpath "L"]
  else [].

(** What the [try] block does with a buffer that was received. *)
Definition recv_pirate_try (index : nat) (buff : buffer_words)
    (fc_mon : flow_control_monitor.t) (io : io_impl)
    : outcome (io_impl * list pirate_effect) :=
  if_packet_info ← if_hdr_unpack_be buff (length buff);
  if (bool_decide (sid if_packet_info = USRP2_TX_ASYNC_SID_BASE + 0)%Z
      || bool_decide (sid if_packet_info = USRP2_TX_ASYNC_SID_BASE + 1)%Z)
     && bool_decide (packet_type if_packet_info ≠ PACKET_TYPE_DATA)
  then
    let metadata :=
      {| channel := index;
         has_time_spec := has_tsi if_packet_info && has_tsf if_packet_info;
         time_spec := {| full_secs := tsi if_packet_info;
                         tick_count := tsf if_packet_info;
                         tick_rate_of := tick_rate io |};
         event_code := get_context_code buff if_packet_info |} in
    if (event_code metadata =? 0)%Z then
      fc_word32 ← at_index buff (num_header_words32 if_packet_info + 1);
      Ok (set_fc_mon index
            (flow_control_monitor.update_fc_condition (ntohx fc_word32) fc_mon)
            io,
          [did_update_fc_condition index (ntohx fc_word32)])
    else
      Ok (set_async_msg_fifo
            (bounded_buffer.push_with_pop_on_full metadata (async_msg_fifo io))
            io,
          did_push_with_pop_on_full metadata
            :: fastpath_msg (event_code metadata))
  else Ok (io, []).

(** One turn of the [while] loop of [recv_pirate_loop(err_xport, index)]
    on what [get_recv_buff()] returned ([None]: the null pointer, the turn
    is skipped).  [fc_mon] is the monitor behind the reference taken
    before the loop.  A thrown [std::exception] is caught and logged; any
    other exception leaves the loop. *)
Definition recv_pirate_turn (index : nat) (received : option buffer_words)
    (io : io_impl) : outcome (io_impl * list pirate_effect) :=
  fc_mon ← at_index (fc_mons io) index;
  match received with
  | None => Ok (io, [])
  | Some buff =>
      match recv_pirate_try index buff fc_mon io with
      | Throw e =>
          if is_std_exception e then Ok (io, [did_msg_error]) else Throw e
      | other => other
      end
  end.

Fixpoint recv_pirate_turns (index : nat)
    (receptions : list (option buffer_words)) (io : io_impl)
    : outcome (io_impl * list pirate_effect) :=
  match receptions with
  | [] => Ok (io, [])
  | received :: rest =>
      '(io1, effects1) ← recv_pirate_turn index received io;
      '(io2, effects2) ← recv_pirate_turns index rest io1;
      Ok (io2, effects1 ++ effects2)
  end.

(** [recv_pirate_loop(err_xport, index)] over the buffers received until
    interruption is requested. *)
Definition recv_pirate_loop (index : nat)
    (receptions : list (option buffer_words)) (io : io_impl)
    : outcome (io_impl * list pirate_effect) :=
  _ ← at_index (fc_mons io) index;
  recv_pirate_turns index receptions io.

End io_impl.

(** ** Streamer creation and channel binding *)

(** Arithmetic in [size_t] wraps; the host is taken to be 64-bit. *)
Definition size_t (x : Z) : Z := (x mod 2 ^ 64)%Z.

Definition vrt_send_header_offset_words32 : Z := 1.

(** [uhd::dict<std::string, std::string>] as used for [args.args]: entries
    in insertion order. *)
Definition has_key (d : list (string * string)) (key : string) : bool :=
  bool_decide (key ∈ d.*1).

Fixpoint dict_get (d : list (string * string)) (key : string)
    : outcome string :=
  match d with
  | [] => Undefined
  | (k, v) :: rest => if decide (k = key) then Ok v else dict_get rest key
  end.

Record stream_args_t : Type := {
  cpu_format : string;
  otw_format : string;
  args : list (string * string);
  channels : list nat
}.

Record convert_id_type : Type := {
  input_format : string;
  num_inputs : nat;
  output_format : string;
  num_outputs : nat
}.

(** The DSP cores and the packet streamers belong to other files.  Each is
    kept as the calls this file has made on it, oldest first; the calls are
    taken to return normally. *)
Inductive rx_dsp_call : Type :=
  | rx_dsp_set_nsamps_per_packet (spp : Z)
  | rx_dsp_clear
  | rx_dsp_set_format (otw : string) (scalar : Z).

Inductive tx_dsp_call : Type :=
  | tx_dsp_clear
  | tx_dsp_set_underflow_policy (policy : string).

Inductive rx_streamer_call : Type :=
  | rx_resize (size : nat)
  | rx_set_vrt_unpacker
  | rx_set_converter (id : convert_id_type)
  (* get_buff of channel chan_i is rx_dsp_xports[dsp] of board mb *)
  | rx_set_xport_chan_get_buff (chan_i : nat) (mb : string) (dsp : nat)
      (flush : bool)
  | rx_set_alignment_failure_threshold (threshold : Z)
  (* set_tick_rate(rate), with the tick rate of board of_mb *)
  | rx_set_tick_rate (of_mb : string)
  (* set_samp_rate(rate), with the host rate of rx DSP dsp of board mb *)
  | rx_set_samp_rate (mb : string) (dsp : nat)
  (* set_scale_factor(adj), with the scaling adjustment of that DSP *)
  | rx_set_scale_factor (mb : string) (dsp : nat).

Inductive tx_streamer_call : Type :=
  | tx_resize (size : nat)
  | tx_set_vrt_packer (header_offset_words32 : Z)
  | tx_set_converter (id : convert_id_type)
  (* get_buff of channel chan_i is io_impl::get_send_buff(fc_index, _1) *)
  | tx_set_xport_chan_get_buff (chan_i : nat) (fc_index : nat)
  (* set_tick_rate(rate), with the tick rate of board of_mb *)
  | tx_set_tick_rate (of_mb : string)
  (* set_samp_rate(rate), with the host rate of tx DSP dsp of board mb *)
  | tx_set_samp_rate (mb : string) (dsp : nat).

(** A streamer made by [boost::make_shared]: [streamer_id] tells the
    allocations apart, so that a weak pointer can name the one it refers
    to. *)
Record recv_packet_streamer : Type := {
  rx_streamer_id : nat;
  rx_samps_per_packet : Z;
  rx_calls : list rx_streamer_call
}.

Record send_packet_streamer : Type := {
  tx_streamer_id : nat;
  tx_samps_per_packet : Z;
  tx_calls : list tx_streamer_call
}.

(** One motherboard's entry of [_mbc].  A weak streamer pointer is the id
    of the streamer it was assigned from, or [None] while empty. *)
Record mb_container : Type := {
  rx_dsp_xports : list zero_copy_if;
  tx_dsp_xports : list zero_copy_if;
  rx_dsps : list (list rx_dsp_call);
  tx_dsps : list (list tx_dsp_call);
  rx_streamers : list (option nat);
  tx_streamers : list (option nat);
  rx_chan_occ : nat;
  tx_chan_occ : nat
}.

(** [rx_dsps[dsp]->call(...)] and [rx_streamers[dsp] = my_streamer], and
    their transmit twins. *)
Definition rx_dsp_do (dsp : nat) (call : rx_dsp_call) (c : mb_container)
    : outcome mb_container :=
  core ← at_index (rx_dsps c) dsp;
  Ok {| rx_dsp_xports := rx_dsp_xports c;
        tx_dsp_xports := tx_dsp_xports c;
        rx_dsps := <[dsp := core ++ [call]]> (rx_dsps c);
        tx_dsps := tx_dsps c;
        rx_streamers := rx_streamers c;
        tx_streamers := tx_streamers c;
        rx_chan_occ := rx_chan_occ c;
        tx_chan_occ := tx_chan_occ c |}.

Definition tx_dsp_do (dsp : nat) (call : tx_dsp_call) (c : mb_container)
    : outcome mb_container :=
  core ← at_index (tx_dsps c) dsp;
  Ok {| rx_dsp_xports := rx_dsp_xports c;
        tx_dsp_xports := tx_dsp_xports c;
        rx_dsps := rx_dsps c;
        tx_dsps := <[dsp := core ++ [call]]> (tx_dsps c);
        rx_streamers := rx_streamers c;
        tx_streamers := tx_streamers c;
        rx_chan_occ := rx_chan_occ c;
        tx_chan_occ := tx_chan_occ c |}.

Definition set_rx_streamer (dsp streamer : nat) (c : mb_container)
    : outcome mb_container :=
  _ ← at_index (rx_streamers c) dsp;
  Ok {| rx_dsp_xports := rx_dsp_xports c;
        tx_dsp_xports := tx_dsp_xports c;
        rx_dsps := rx_dsps c;
        tx_dsps := tx_dsps c;
        rx_streamers := <[dsp := Some streamer]> (rx_streamers c);
        tx_streamers := tx_streamers c;
        rx_chan_occ := rx_chan_occ c;
        tx_chan_occ := tx_chan_occ c |}.

Definition set_tx_streamer (dsp streamer : nat) (c : mb_container)
    : outcome mb_container :=
  _ ← at_index (tx_streamers c) dsp;
  Ok {| rx_dsp_xports := rx_dsp_xports c;
        tx_dsp_xports := tx_dsp_xports c;
        rx_dsps := rx_dsps c;
        tx_dsps := tx_dsps c;
        rx_streamers := rx_streamers c;
        tx_streamers := <[dsp := Some streamer]> (tx_streamers c);
        rx_chan_occ := rx_chan_occ c;
        tx_chan_occ := tx_chan_occ c |}.

(** The number of logical channels the boards expose, in each direction. *)
Definition rx_chans (mbs : list (string * mb_container)) : nat :=
  sum_list (map (λ entry, rx_chan_occ entry.2) mbs).

Definition tx_chans (mbs : list (string * mb_container)) : nat :=
  sum_list (map (λ entry, tx_chan_occ entry.2) mbs).

(** The board entry left by [get_rx_stream] once slot [dsp], whose core had
    received [core] so far, is bound to [streamer]. *)
Definition rx_bound (stream_args : stream_args_t) (spp sc8_scalar : Z)
    (streamer dsp : nat) (core : list rx_dsp_call) (c : mb_container)
    : mb_container :=
  {| rx_dsp_xports := rx_dsp_xports c;
     tx_dsp_xports := tx_dsp_xports c;
     rx_dsps :=
       <[dsp := core
                ++ [rx_dsp_set_nsamps_per_packet spp]
                ++ (if has_key (args stream_args) "noclear"
                    then [] else [rx_dsp_clear])
                ++ [rx_dsp_set_format (otw_format stream_args) sc8_scalar]]>
         (rx_dsps c);
     tx_dsps := tx_dsps c;
     rx_streamers := <[dsp := Some streamer]> (rx_streamers c);
     tx_streamers := tx_streamers c;
     rx_chan_occ := rx_chan_occ c;
     tx_chan_occ := tx_chan_occ c |}.

Section streams.

Context `{!externals}.

(** The device object: [_mbc] in key (registration) order, the io
    implementation, and how many streamers have been allocated. *)
Record umtrx_impl : Type := {
  _mbc : list (string * mb_container);
  _io_impl : io_impl;
  streamers_made : nat
}.

Definition set_fc_mons (fcs : list flow_control_monitor.t) (io : io_impl)
    : io_impl :=
  {| tx_xports := tx_xports io;
     fc_mons := fcs;
     async_msg_fifo := async_msg_fifo io;
     tick_rate := tick_rate io |}.

Definition set_tick_rate (rate : double) (io : io_impl) : io_impl :=
  {| tx_xports := tx_xports io;
     fc_mons := fc_mons io;
     async_msg_fifo := async_msg_fifo io;
     tick_rate := rate |}.

(** *** Rate updates

    The streamers belong to whoever asked for them; the device only keeps
    weak pointers.  The functions below run on behalf of one streamer,
    [streamer], which its maker still holds, and give the calls that reach
    it, oldest first.  A weak pointer to any other streamer locks only
    while that streamer is still in use, and what it is then told lands on
    an object that is not part of the device: those calls are not kept. *)

(** One [for] loop of [update_tick_rate] over a table of weak pointers. *)
Definition tick_rate_calls {call : Type} (streamer : nat) (told : call)
    (table : list (option nat)) : list call :=
  table ≫= λ weak, if decide (weak = Some streamer) then [told] else [].

(** [update_tick_rate(rate)], where [rate] is the tick rate of board
    [of_mb]: the calls through the receive tables, the calls through the
    transmit tables, and the device with the new [tick_rate]. *)
Definition update_tick_rate (of_mb : string) (streamer : nat)
    (self : umtrx_impl)
    : list rx_streamer_call * list tx_streamer_call * umtrx_impl :=
  (_mbc self ≫= (λ entry, tick_rate_calls streamer (rx_set_tick_rate of_mb)
                            (rx_streamers entry.2)),
   _mbc self ≫= (λ entry, tick_rate_calls streamer (tx_set_tick_rate of_mb)
                            (tx_streamers entry.2)),
   {| _mbc := _mbc self;
      _io_impl := set_tick_rate (tree_tick_rate of_mb) (_io_impl self);
      streamers_made := streamers_made self |}).

(** [update_rx_samp_rate(mb, dsp, rate)] and [update_tx_samp_rate(mb, dsp,
    rate)], with [c] for [_mbc[mb]].  [get_scaling_adjustment()] asks the
    DSP core for a value and leaves the core as it is. *)
Definition update_rx_samp_rate (mb : string) (c : mb_container)
    (streamer dsp : nat) : outcome (list rx_streamer_call) :=
  weak ← at_index (rx_streamers c) dsp;
  if decide (weak = Some streamer) then
    _ ← at_index (rx_dsps c) dsp;
    Ok [rx_set_samp_rate mb dsp; rx_set_scale_factor mb dsp]
  else Ok [].

Definition update_tx_samp_rate (mb : string) (c : mb_container)
    (streamer dsp : nat) : outcome (list tx_streamer_call) :=
  weak ← at_index (tx_streamers c) dsp;
  if decide (weak = Some streamer) then Ok [tx_set_samp_rate mb dsp]
  else Ok [].

(** A [BOOST_FOREACH] over the rate properties of a board's DSPs. *)
Fixpoint for_each_dsp {call : Type} (update : nat → outcome (list call))
    (dsps : list nat) : outcome (list call) :=
  match dsps with
  | [] => Ok []
  | dsp :: more =>
      calls ← update dsp;
      calls_more ← for_each_dsp update more;
      Ok (calls ++ calls_more)
  end.

(** [update_rates()], from board [mbs] on.  The property tree and its
    wiring belong to the device constructor.  [update()] on a property
    hands the value of the property to its subscribers; as the callers of
    [update_rates] put it, this "sets all tick and samp rates": the tick
    rate of a board goes to [update_tick_rate], and the rate of each
    receive or transmit DSP of a board goes to [update_rx_samp_rate] or
    [update_tx_samp_rate] with the board and the index of the DSP.  A board
    has one rate property per DSP core, listed in index order.  The calls
    on the tree itself are taken to return normally. *)
Fixpoint update_rates_from (mbs : list (string * mb_container))
    (streamer : nat) (self : umtrx_impl)
    : outcome (list rx_streamer_call * list tx_streamer_call * umtrx_impl) :=
  match mbs with
  | [] => Ok ([], [], self)
  | (mb, c) :: rest =>
      let '(rx_tick, tx_tick, self1) := update_tick_rate mb streamer self in
      rx_rate ← for_each_dsp (update_rx_samp_rate mb c streamer)
                  (seq 0 (length (rx_dsps c)));
      tx_rate ← for_each_dsp (update_tx_samp_rate mb c streamer)
                  (seq 0 (length (tx_dsps c)));
      '(rx_more, tx_more, self2) ← update_rates_from rest streamer self1;
      Ok (rx_tick ++ rx_rate ++ rx_more, tx_tick ++ tx_rate ++ tx_more, self2)
  end.

Definition update_rates (streamer : nat) (self : umtrx_impl)
    : outcome (list rx_streamer_call * list tx_streamer_call * umtrx_impl) :=
  update_rates_from (_mbc self) streamer self.

(** [_mbc[_mbc.keys().front()]]: undefined on a device without boards. *)
Definition front_mb (self : umtrx_impl) : outcome mb_container :=
  match _mbc self with
  | [] => Undefined
  | (_, c) :: _ => Ok c
  end.

(** Integer division as the source writes it; a zero divisor is undefined
    behaviour. *)
Definition size_t_div (a b : Z) : outcome Z :=
  if (b =? 0)%Z then Undefined else Ok (a / b)%Z.

(** The [BOOST_FOREACH] over the boards inside [get_rx_stream], for the
    logical channel [chan] at position [chan_i] of the request. *)
Fixpoint rx_bind_chan (stream_args : stream_args_t) (spp sc8_scalar : Z)
    (streamer chan_i chan num_chan_so_far : nat)
    (mbs : list (string * mb_container)) (calls : list rx_streamer_call)
    : outcome (list (string * mb_container) * list rx_streamer_call) :=
  match mbs with
  | [] => Ok ([], calls)
  | (mb, c) :: rest =>
      let num_chan_so_far := (num_chan_so_far + rx_chan_occ c)%nat in
      if (chan <? num_chan_so_far)%nat then
        let dsp := (chan + rx_chan_occ c - num_chan_so_far)%nat in
        c1 ← rx_dsp_do dsp (rx_dsp_set_nsamps_per_packet spp) c;
        c2 ← (if negb (has_key (args stream_args) "noclear")
              then rx_dsp_do dsp rx_dsp_clear c1 else Ok c1);
        c3 ← rx_dsp_do dsp
               (rx_dsp_set_format (otw_format stream_args) sc8_scalar) c2;
        _ ← at_index (rx_dsp_xports c3) dsp;
        c4 ← set_rx_streamer dsp streamer c3;
        Ok ((mb, c4) :: rest,
            calls ++ [rx_set_xport_chan_get_buff chan_i mb dsp true])
      else
        '(rest1, calls1) ←
          rx_bind_chan stream_args spp sc8_scalar streamer chan_i chan
            num_chan_so_far rest calls;
        Ok ((mb, c) :: rest1, calls1)
  end.

(** The [for] loop over [args.channels] inside [get_rx_stream]. *)
Fixpoint rx_bind_chans (stream_args : stream_args_t) (spp sc8_scalar : Z)
    (streamer chan_i : nat) (chans : list nat)
    (mbs : list (string * mb_container)) (calls : list rx_streamer_call)
    : outcome (list (string * mb_container) * list rx_streamer_call) :=
  match chans with
  | [] => Ok (mbs, calls)
  | chan :: more =>
      '(mbs1, calls1) ←
        rx_bind_chan stream_args spp sc8_scalar streamer chan_i chan 0 mbs
          calls;
      rx_bind_chans stream_args spp sc8_scalar streamer (S chan_i) more mbs1
        calls1
  end.

Definition with_defaults (args_ : stream_args_t) : stream_args_t :=
  {| cpu_format := cpu_format args_;
     otw_format :=
       if decide (otw_format args_ = "") then "sc16" else otw_format args_;
     args := args args_;
     channels :=
       match channels args_ with [] => [0%nat] | chans => chans end |}.

Definition rx_hdr_size : Z :=
  size_t (0 + max_if_hdr_words32 * 4 + sizeof_tlr - sizeof_cid).

Definition tx_hdr_size : Z :=
  size_t (0 + max_if_hdr_words32 * 4
            + vrt_send_header_offset_words32 * 4 - sizeof_cid).

(** [get_rx_stream(args_)].  Of the closing [update_rates()] the new
    streamer records what reaches it through the receive tables. *)
Definition get_rx_stream (args_ : stream_args_t) (self : umtrx_impl)
    : outcome recv_packet_streamer * umtrx_impl :=
  let stream_args := with_defaults args_ in
  let sc8_scalar := sc8_scalar_of (args stream_args) in
  let made :=
    mb0 ← front_mb self;
    xport0 ← at_index (rx_dsp_xports mb0) 0;
    let bpp :=
      size_t (Z.of_nat (get_recv_frame_size xport0) - rx_hdr_size) in
    spp ← size_t_div bpp (get_bytes_per_item (otw_format stream_args));
    let streamer := streamers_made self in
    let calls :=
      [rx_resize (length (channels stream_args));
       rx_set_vrt_unpacker;
       rx_set_converter
         {| input_format := otw_format stream_args +:+ "_item32_be";
            num_inputs := 1;
            output_format := cpu_format stream_args;
            num_outputs := 1 |}] in
    '(mbs1, calls1) ←
      rx_bind_chans stream_args spp sc8_scalar streamer 0
        (channels stream_args) (_mbc self) calls;
    let packets_per_sock_buff :=
      packets_per_sock_buff_of (get_recv_frame_size xport0) in
    '(rx_rates, _, self1) ←
      update_rates streamer
        {| _mbc := mbs1;
           _io_impl := _io_impl self;
           streamers_made := S (streamers_made self) |};
    Ok ({| rx_streamer_id := streamer;
           rx_samps_per_packet := spp;
           rx_calls :=
             calls1
             ++ [rx_set_alignment_failure_threshold packets_per_sock_buff]
             ++ rx_rates |},
        self1) in
  match made with
  | Ok (my_streamer, self1) => (Ok my_streamer, self1)
  | Throw e => (Throw e, self)
  | Undefined => (Undefined, self)
  end.

(** The [BOOST_FOREACH] over the boards inside [get_tx_stream]; [abs]
    advances by two per board passed ("assume 2 tx dsp"). *)
Fixpoint tx_bind_chan (stream_args : stream_args_t)
    (streamer chan_i chan num_chan_so_far abs : nat)
    (mbs : list (string * mb_container))
    (fcs : list flow_control_monitor.t) (calls : list tx_streamer_call)
    : outcome (list (string * mb_container)
               * list flow_control_monitor.t * list tx_streamer_call) :=
  match mbs with
  | [] => Ok ([], fcs, calls)
  | (mb, c) :: rest =>
      let num_chan_so_far := (num_chan_so_far + tx_chan_occ c)%nat in
      if (chan <? num_chan_so_far)%nat then
        let dsp := (chan + tx_chan_occ c - num_chan_so_far)%nat in
        '(c1, fcs1) ←
          (if negb (has_key (args stream_args) "noclear") then
             c1 ← tx_dsp_do dsp tx_dsp_clear c;
             fc_mon ← at_index fcs (abs + dsp);
             Ok (c1,
                 <[(abs + dsp)%nat := flow_control_monitor.clear fc_mon]> fcs)
           else Ok (c, fcs));
        c2 ←
          (if has_key (args stream_args) "underflow_policy" then
             policy ← dict_get (args stream_args) "underflow_policy";
             tx_dsp_do dsp (tx_dsp_set_underflow_policy policy) c1
           else Ok c1);
        c3 ← set_tx_streamer dsp streamer c2;
        Ok ((mb, c3) :: rest, fcs1,
            calls ++ [tx_set_xport_chan_get_buff chan_i (abs + dsp)])
      else
        '(rest1, fcs1, calls1) ←
          tx_bind_chan stream_args streamer chan_i chan num_chan_so_far
            (abs + 2) rest fcs calls;
        Ok ((mb, c) :: rest1, fcs1, calls1)
  end.

(** The [for] loop over [args.channels] inside [get_tx_stream]. *)
Fixpoint tx_bind_chans (stream_args : stream_args_t) (streamer chan_i : nat)
    (chans : list nat) (mbs : list (string * mb_container))
    (fcs : list flow_control_monitor.t) (calls : list tx_streamer_call)
    : outcome (list (string * mb_container)
               * list flow_control_monitor.t * list tx_streamer_call) :=
  match chans with
  | [] => Ok (mbs, fcs, calls)
  | chan :: more =>
      '(mbs1, fcs1, calls1) ←
        tx_bind_chan stream_args streamer chan_i chan 0 0 mbs fcs calls;
      tx_bind_chans stream_args streamer (S chan_i) more mbs1 fcs1 calls1
  end.

(** [get_tx_stream(args_)].  Of the closing [update_rates()] the new
    streamer records what reaches it through the transmit tables. *)
Definition get_tx_stream (args_ : stream_args_t) (self : umtrx_impl)
    : outcome send_packet_streamer * umtrx_impl :=
  let stream_args := with_defaults args_ in
  if bool_decide (otw_format stream_args ≠ "sc16") then
    (Throw (value_error
              ("USRP TX cannot handle requested wire format: "
               +:+ otw_format stream_args)),
     self)
  else
    let made :=
      mb0 ← front_mb self;
      xport0 ← at_index (tx_dsp_xports mb0) 0;
      let bpp :=
        size_t (Z.of_nat (get_send_frame_size xport0) - tx_hdr_size) in
      spp ← size_t_div bpp (get_bytes_per_item (otw_format stream_args));
      let streamer := streamers_made self in
      let calls :=
        [tx_resize (length (channels stream_args));
         tx_set_vrt_packer vrt_send_header_offset_words32;
         tx_set_converter
           {| input_format := cpu_format stream_args;
              num_inputs := 1;
              output_format := otw_format stream_args +:+ "_item32_be";
              num_outputs := 1 |}] in
      '(mbs1, fcs1, calls1) ←
        tx_bind_chans stream_args streamer 0 (channels stream_args) (_mbc self)
          (fc_mons (_io_impl self)) calls;
      '(_, tx_rates, self1) ←
        update_rates streamer
          {| _mbc := mbs1;
             _io_impl := set_fc_mons fcs1 (_io_impl self);
             streamers_made := S (streamers_made self) |};
      Ok ({| tx_streamer_id := streamer;
             tx_samps_per_packet := spp;
             tx_calls := calls1 ++ tx_rates |},
          self1) in
    match made with
    | Ok (my_streamer, self1) => (Ok my_streamer, self1)
    | Throw e => (Throw e, self)
    | Undefined => (Undefined, self)
    end.

End streams.

(** ** A concrete host, for the worked examples

    A little-endian host, the async event codes of the metadata header, and a
    two-word VRT header (header word, stream id) followed by the context
    word and the payload. *)

Definition byteswap32 (x : Z) : Z :=
  Z.lor (Z.shiftl (Z.land x 255) 24)
    (Z.lor (Z.shiftl (Z.land (Z.shiftr x 8) 255) 16)
       (Z.lor (Z.shiftl (Z.land (Z.shiftr x 16) 255) 8)
          (Z.land (Z.shiftr x 24) 255))).

Definition sample_unpack (buff : buffer_words) (num_packet_words32 : nat)
    : outcome if_packet_info_t :=
  match buff with
  | hdr :: stream_id :: _ =>
      if (Z.land (byteswap32 hdr) 65535 =? Z.of_nat num_packet_words32)%Z then
        Ok {| packet_type :=
                if (Z.shiftr (byteswap32 hdr) 29 =? 0)%Z
                then PACKET_TYPE_DATA else PACKET_TYPE_CONTEXT;
              num_header_words32 := 2;
              num_packet_words32 := num_packet_words32;
              sid := byteswap32 stream_id;
              has_tsi := false; tsi := 0;
              has_tsf := false; tsf := 0 |}
      else Throw (value_error "bad vrt header or packet fragment")
  | _ => Throw (value_error "bad vrt header or packet fragment")
  end.

Definition sample_context_code (buff : buffer_words)
    (info : if_packet_info_t) : Z :=
  let word0 := default 0%Z (buff !! num_header_words32 info) in
  Z.land (Z.lor word0 (byteswap32 word0)) 255.

Definition sample_host : externals := {|
  double := Z;
  if_hdr_unpack_be := sample_unpack;
  get_context_code := sample_context_code;
  USRP2_TX_ASYNC_SID_BASE := 2;
  ntohx := byteswap32;
  htonx := byteswap32;
  EVENT_CODE_UNDERFLOW := 2;
  EVENT_CODE_UNDERFLOW_IN_PACKET := 16;
  EVENT_CODE_SEQ_ERROR := 4;
  EVENT_CODE_SEQ_ERROR_IN_BURST := 32;
  EVENT_CODE_TIME_ERROR := 8;
  max_if_hdr_words32 := 7;
  sizeof_tlr := 4;
  sizeof_cid := 8;
  get_bytes_per_item :=
    λ format, if decide (format = "sc16") then 4%Z else 2%Z;
  sc8_scalar_of := λ _, 1024%Z;
  packets_per_sock_buff_of := λ frame_size, (50000000 / Z.of_nat frame_size)%Z;
  tree_tick_rate := λ _, 26000000%Z
|}.

(** A status frame on stream id 2 with the given context code and credit
    word, as it lies in the receive buffer. *)
Definition sample_status_frame (code credit : Z) : buffer_words :=
  [byteswap32 (Z.lor (Z.shiftl 2 29) 4); byteswap32 2;
   byteswap32 code; byteswap32 credit].

Definition sample_io (window : Z) : @io_impl sample_host :=
  {| tx_xports := [ {| get_send_frame_size := 1472;
                       get_recv_frame_size := 1472 |} ];
     fc_mons := [flow_control_monitor.make window];
     async_msg_fifo := bounded_buffer.make 100;
     tick_rate := (26000000%Z : @double sample_host) |}.

(** A board with two DSP slots in each direction, [occ] of them in use. *)
Definition sample_board (occ : nat) : mb_container :=
  {| rx_dsp_xports := replicate 2 {| get_send_frame_size := 1472;
                                     get_recv_frame_size := 1472 |};
     tx_dsp_xports := replicate 2 {| get_send_frame_size := 1472;
                                     get_recv_frame_size := 1472 |};
     rx_dsps := [[]; []];
     tx_dsps := [[]; []];
     rx_streamers := [None; None];
     tx_streamers := [None; None];
     rx_chan_occ := occ;
     tx_chan_occ := occ |}.

(** Boards "A" and "B", each exposing two channels, with one transport and
    one flow control monitor per transmit DSP slot. *)
Definition sample_device : @umtrx_impl sample_host :=
  {| _mbc := [("A", sample_board 2); ("B", sample_board 2)];
     _io_impl :=
       {| tx_xports := replicate 4 {| get_send_frame_size := 1472;
                                      get_recv_frame_size := 1472 |};
          fc_mons := replicate 4 (flow_control_monitor.make 712);
          async_msg_fifo := bounded_buffer.make 100;
          tick_rate := (26000000%Z : @double sample_host) |};
     streamers_made := 0 |}.

(** The same device before any tick rate has reached the io
    implementation. *)
Definition sample_device_untold : @umtrx_impl sample_host :=
  {| _mbc := _mbc sample_device;
     _io_impl := set_tick_rate (0%Z : @double sample_host)
                   (_io_impl sample_device);
     streamers_made := 0 |}.

(** ** Engine initialisation ([io_init]) *)

(** [std::vector::resize] on a table of weak streamer pointers: cut to
    [size], or padded with empty pointers. *)
Definition resize_weak (size : nat) (table : list (option nat))
    : list (option nat) :=
  take size table ++ replicate (size - length table) None.

(** The second loop of [io_init]: the streamer tables of a board get one
    entry per DSP. *)
Definition init_streamer_tables (c : mb_container) : mb_container :=
  {| rx_dsp_xports := rx_dsp_xports c;
     tx_dsp_xports := tx_dsp_xports c;
     rx_dsps := rx_dsps c;
     tx_dsps := tx_dsps c;
     rx_streamers := resize_weak (length (rx_dsps c)) (rx_streamers c);
     tx_streamers := resize_weak (length (tx_dsps c)) (tx_streamers c);
     rx_chan_occ := rx_chan_occ c;
     tx_chan_occ := tx_chan_occ c |}.

(** The third loop of [io_init]: one pirate task per transmit transport,
    each with the next index. *)
Fixpoint spawn_pirates (mbs : list (string * mb_container)) (index : nat)
    : outcome (list (zero_copy_if * nat)) :=
  match mbs with
  | [] => Ok []
  | (_, c) :: rest =>
      xport0 ← at_index (tx_dsp_xports c) 0;
      xport1 ← at_index (tx_dsp_xports c) 1;
      tasks ← spawn_pirates rest (S (S index));
      Ok ((xport0, index) :: (xport1, S index) :: tasks)
  end.

Section io_init.

Context `{!externals}.

(** [UMTRX_SRAM_BYTES], defined in the register header. *)
Variable UMTRX_SRAM_BYTES : Z.

(** The window of a channel: [UMTRX_SRAM_BYTES/get_send_frame_size()] in
    [size_t], handed to a [seq_type] parameter. *)
Definition fc_window (xport : zero_copy_if) : outcome Z :=
  frames ← size_t_div (size_t UMTRX_SRAM_BYTES)
              (Z.of_nat (get_send_frame_size xport));
  Ok (seq_type frames).

(** The first loop of [io_init]: two transports and two monitors per
    board. *)
Fixpoint init_tx_channels (mbs : list (string * mb_container))
    (io : io_impl) : outcome io_impl :=
  match mbs with
  | [] => Ok io
  | (_, c) :: rest =>
      xport0 ← at_index (tx_dsp_xports c) 0;
      xport1 ← at_index (tx_dsp_xports c) 1;
      window0 ← fc_window xport0;
      window1 ← fc_window xport1;
      init_tx_channels rest
        {| tx_xports := tx_xports io ++ [xport0; xport1];
           fc_mons := fc_mons io
                      ++ [flow_control_monitor.make window0;
                          flow_control_monitor.make window1];
           async_msg_fifo := async_msg_fifo io;
           tick_rate := tick_rate io |}
  end.

(** [io_init()]: a new io implementation, its transmit channels, the
    streamer tables, and the pirate tasks to start (transport and index).
    [tick_rate0] stands for the uninitialised [tick_rate]. *)
Definition io_init (tick_rate0 : double) (self : umtrx_impl)
    : outcome (umtrx_impl * list (zero_copy_if * nat)) :=
  io ← init_tx_channels (_mbc self) (io_impl_ctor tick_rate0);
  let mbs := prod_map id init_streamer_tables <$> _mbc self in
  tasks ← spawn_pirates mbs 0;
  Ok ({| _mbc := mbs;
         _io_impl := io;
         streamers_made := streamers_made self |},
      tasks).

(** A run of [get_send_buff] calls on one channel, each with the events of
    its flow control wait and what the transport has to give. *)
Fixpoint get_send_buffs (chan : nat)
    (calls : list (list flow_control_monitor.wait_event
                   * option buffer_words))
    (io : io_impl) : outcome (list (option buffer_words) * io_impl) :=
  match calls with
  | [] => Ok ([], io)
  | (events, xport_buff) :: rest =>
      '(buff, io1) ← get_send_buff chan events xport_buff io;
      '(buffs, io2) ← get_send_buffs chan rest io1;
      Ok (buff :: buffs, io2)
  end.

End io_init.

(** The board entry left by [get_tx_stream] once slot [dsp], whose core had
    received [core] so far, is bound to [streamer]. *)
Definition tx_policy_calls (stream_args : stream_args_t)
    : list tx_dsp_call :=
  if has_key (args stream_args) "underflow_policy" then
    match dict_get (args stream_args) "underflow_policy" with
    | Ok policy => [tx_dsp_set_underflow_policy policy]
    | _ => []
    end
  else [].

Definition tx_bound (stream_args : stream_args_t) (streamer dsp : nat)
    (core : list tx_dsp_call) (c : mb_container) : mb_container :=
  {| rx_dsp_xports := rx_dsp_xports c;
     tx_dsp_xports := tx_dsp_xports c;
     rx_dsps := rx_dsps c;
     tx_dsps :=
       <[dsp := core
                ++ (if has_key (args stream_args) "noclear"
                    then [] else [tx_dsp_clear])
                ++ tx_policy_calls stream_args]> (tx_dsps c);
     rx_streamers := rx_streamers c;
     tx_streamers := <[dsp := Some streamer]> (tx_streamers c);
     rx_chan_occ := rx_chan_occ c;
     tx_chan_occ := tx_chan_occ c |}.

(** What stream creation must find on a board: DSP cores, transports and
    streamer tables for every channel in use. *)
Definition board_tables_ok (c : mb_container) : Prop :=
  (rx_chan_occ c ≤ length (rx_dsps c))%nat
  ∧ (rx_chan_occ c ≤ length (rx_dsp_xports c))%nat
  ∧ (rx_chan_occ c ≤ length (rx_streamers c))%nat
  ∧ (tx_chan_occ c ≤ length (tx_dsps c))%nat
  ∧ (tx_chan_occ c ≤ length (tx_streamers c))%nat
  ∧ (tx_chan_occ c ≤ 2)%nat.

(** The board tables as far as binding can tell them apart: keys,
    occupancies and table sizes. *)
Definition board_shape (entry : string * mb_container)
    : string * (nat * nat) * (nat * nat * nat * nat * nat * nat) :=
  (entry.1, (rx_chan_occ entry.2, tx_chan_occ entry.2),
   (length (rx_dsps entry.2), length (tx_dsps entry.2),
    length (rx_dsp_xports entry.2), length (tx_dsp_xports entry.2),
    length (rx_streamers entry.2), length (tx_streamers entry.2))).

(** What the pirate loop on monitor [index] leaves alone: the transports,
    the tick rate, the number of monitors, every monitor's sequence counter
    and window and all of every other monitor, the fifo's capacity. *)
Definition pirate_keeps `{!externals} (index : nat) (io io' : io_impl)
    : Prop :=
  tx_xports io' = tx_xports io
  ∧ tick_rate io' = tick_rate io
  ∧ length (fc_mons io') = length (fc_mons io)
  ∧ (∀ i m, fc_mons io !! i = Some m →
       ∃ m', fc_mons io' !! i = Some m'
             ∧ flow_control_monitor._last_seq_out m'
               = flow_control_monitor._last_seq_out m
             ∧ flow_control_monitor._max_seqs_out m'
               = flow_control_monitor._max_seqs_out m
             ∧ (i ≠ index → m' = m))
  ∧ bounded_buffer.capacity (async_msg_fifo io')
    = bounded_buffer.capacity (async_msg_fifo io).

(** The async fifo holds no more than its capacity. *)
Definition fifo_bounded `{!externals} (io : io_impl) : Prop :=
  (bounded_buffer.size (async_msg_fifo io)
   ≤ bounded_buffer.capacity (async_msg_fifo io))%nat.

(** The two transmit transports [io_init] takes from each board, in board
    order. *)
Definition tx_pairs (mbs : list (string * mb_container))
    : list zero_copy_if :=
  mbs ≫= λ entry, take 2 (tx_dsp_xports entry.2).

(** A board [io_init] can serve: two transmit transports, neither with a
    frame size of zero. *)
Definition tx_pair_ok (c : mb_container) : Prop :=
  ∃ xport0 xport1,
    tx_dsp_xports c !! 0%nat = Some xport0
    ∧ tx_dsp_xports c !! 1%nat = Some xport1
    ∧ get_send_frame_size xport0 ≠ 0%nat
    ∧ get_send_frame_size xport1 ≠ 0%nat.

(** The window [io_init] gives the monitor of a transport. *)
Definition window_of (UMTRX_SRAM_BYTES : Z) (xport : zero_copy_if) : Z :=
  seq_type (size_t UMTRX_SRAM_BYTES / Z.of_nat (get_send_frame_size xport)).

(** Word 0 of each buffer that was handed out. *)
Definition first_words (buffs : list (option buffer_words)) : list Z :=
  omap (λ buff, buff ≫= head) buffs.

(** An acknowledgement frame that is too short to hold its credit word:
    the read of [(vrt_hdr + num_header_words32)[1]] leaves the buffer. *)
Definition truncated_ack `{!externals} (buff : buffer_words) : Prop :=
  ∃ info,
    if_hdr_unpack_be buff (length buff) = Ok info
    ∧ (sid info = (USRP2_TX_ASYNC_SID_BASE + 0)%Z
       ∨ sid info = (USRP2_TX_ASYNC_SID_BASE + 1)%Z)
    ∧ packet_type info ≠ PACKET_TYPE_DATA
    ∧ get_context_code buff info = 0%Z
    ∧ (length buff ≤ num_header_words32 info + 1)%nat.

(** The calls by which [update_rates] reaches a streamer. *)
Definition is_rx_rate_call (call : rx_streamer_call) : Prop :=
  match call with
  | rx_set_tick_rate _ | rx_set_samp_rate _ _ | rx_set_scale_factor _ _ =>
      True
  | _ => False
  end.

Definition is_tx_rate_call (call : tx_streamer_call) : Prop :=
  match call with
  | tx_set_tick_rate _ | tx_set_samp_rate _ _ => True
  | _ => False
  end.

(** What [update_rates] must find on a board: a weak pointer slot for every
    DSP core, as [io_init] sizes the tables. *)
Definition streamer_slots_ok (c : mb_container) : Prop :=
  (length (rx_dsps c) ≤ length (rx_streamers c))%nat
  ∧ (length (tx_dsps c) ≤ length (tx_streamers c))%nat.

(** The channel layout in the words of the specification: the channels of
    the first board occupy the lowest logical indices, those of the next
    board follow; a logical index resolves to the board it falls on and to
    its offset among that board's channels. *)
Fixpoint rx_resolve (mbs : list (string * mb_container)) (chan : nat)
    : option (string * nat) :=
  match mbs with
  | [] => None
  | (mb, c) :: rest =>
      if (chan <? rx_chan_occ c)%nat then Some (mb, chan)
      else rx_resolve rest (chan - rx_chan_occ c)
  end.

(** The binding that this layout asks for at position [chan_i] of a
    request, and for a list of requested channels from position [chan_i]
    on. *)
Definition rx_binding (mbs : list (string * mb_container))
    (chan_i chan : nat) : list rx_streamer_call :=
  match rx_resolve mbs chan with
  | Some (mb, dsp) => [rx_set_xport_chan_get_buff chan_i mb dsp true]
  | None => []
  end.

Fixpoint rx_bindings (mbs : list (string * mb_container))
    (chan_i : nat) (chans : list nat) : list rx_streamer_call :=
  match chans with
  | [] => []
  | chan :: more =>
      rx_binding mbs chan_i chan ++ rx_bindings mbs (S chan_i) more
  end.

(** A monitor with both counters at zero. *)
Definition cleared (m : flow_control_monitor.t) : Prop :=
  flow_control_monitor._last_seq_out m = 0%Z
  ∧ flow_control_monitor._last_seq_ack m = 0%Z.

(** ** Device bring-up helpers ([umtrx_impl.cpp]) *)

(** The conversion to [boost::uint16_t]. *)
Definition uint16 (x : Z) : Z := (x mod 2 ^ 16)%Z.

(** *** LMS register access over SPI *)

Inductive spi_edge_t : Type :=
  | EDGE_RISE
  | EDGE_FALL.

(** One call of [read_spi] ([readback]) or [write_spi] on a board's
    control interface. *)
Record spi_transaction : Type := {
  which_slave : Z;
  edge : spi_edge_t;
  data : Z;
  num_bits : nat;
  readback : bool
}.

(** A board's control interface as far as SPI goes: the transactions made
    so far, oldest first, and the device behind it, which answers a
    transaction knowing all that came before. *)
Record spi_iface : Type := {
  spi_log : list spi_transaction;
  spi_device : list spi_transaction → Z
}.

Definition transact_spi (t : spi_transaction) (iface : spi_iface)
    : Z * spi_iface :=
  (spi_device iface (spi_log iface ++ [t]),
   {| spi_log := spi_log iface ++ [t]; spi_device := spi_device iface |}).

(** The body of either [BOOST_FOREACH] of [read_addr]: it returns from the
    first board, if there is one. *)
Definition read_first_board (lms addr : Z) (config : spi_edge_t)
    (mbs : list (string * spi_iface))
    : option (Z * list (string * spi_iface)) :=
  match mbs with
  | [] => None
  | (mb, iface) :: rest =>
      let '(word, iface1) :=
        transact_spi {| which_slave := lms; edge := config;
                        data := Z.shiftl addr 8; num_bits := 16;
                        readback := true |} iface in
      Some (word, (mb, iface1) :: rest)
  end.

(** [read_addr(lms, addr, rise)], with [lms] and [addr] of type
    [uint8_t]. *)
Definition read_addr (lms addr : Z) (rise : bool)
    (mbs : list (string * spi_iface)) : Z * list (string * spi_iface) :=
  if (127 <? addr)%Z then (0%Z, mbs)
  else
    match (if rise then read_first_board lms addr EDGE_RISE mbs else None) with
    | Some result => result
    | None =>
        match read_first_board lms addr EDGE_FALL mbs with
        | Some result => result
        | None => (0%Z, mbs)
        end
    end.

(** The 16-bit command of [write_addr]:
    [(((uint16_t)0x80 | (uint16_t)addr) << 8) | (uint16_t)data]. *)
Definition write_command (addr data : Z) : Z :=
  uint16 (Z.lor (Z.shiftl (Z.lor 128 addr) 8) data).

(** [write_addr(lms, addr, data, rise)]. *)
Definition write_addr (lms addr data : Z) (rise : bool)
    (mbs : list (string * spi_iface)) : list (string * spi_iface) :=
  if (addr <? 128)%Z then
    let command := write_command addr data in
    (λ entry : string * spi_iface,
       (entry.1,
        (transact_spi {| which_slave := lms;
                         edge := if rise then EDGE_RISE else EDGE_FALL;
                         data := command; num_bits := 16;
                         readback := false |} entry.2).2)) <$> mbs
  else mbs.

(** [write_n_check(lms, addr, data, rise)]. *)
Definition write_n_check (lms addr data : Z) (rise : bool)
    (mbs : list (string * spi_iface)) : Z * list (string * spi_iface) :=
  read_addr lms addr rise (write_addr lms addr data rise mbs).

(** *** The FPGA compatibility check of the constructor *)

(** Major and minor number out of the 32-bit compatibility register; a
    zero upper half is the old scheme, with the number in the lower
    half. *)
Definition fpga_version (fpga_compat_num : Z) : Z * Z :=
  let fpga_major := uint16 (Z.shiftr fpga_compat_num 16) in
  let fpga_minor := uint16 (Z.land fpga_compat_num 65535) in
  if (fpga_major =? 0)%Z then (fpga_minor, 0%Z) else (fpga_major, fpga_minor).

(** The check either passes with the version to publish or throws
    [uhd::runtime_error] naming the expected and the found number. *)
Inductive fpga_check : Type :=
  | fpga_compatible (fpga_major fpga_minor : Z)
  | fpga_runtime_error (expected got : Z).

Definition check_fpga_compat (USRP2_FPGA_COMPAT_NUM fpga_compat_num : Z)
    : fpga_check :=
  let '(fpga_major, fpga_minor) := fpga_version fpga_compat_num in
  if bool_decide (fpga_major ≠ USRP2_FPGA_COMPAT_NUM)
  then fpga_runtime_error USRP2_FPGA_COMPAT_NUM fpga_major
  else fpga_compatible fpga_major fpga_minor.

(** *** Transport hints *)

(** [dict[key] = value] on a [uhd::dict]: the entry is overwritten in
    place, or appended when the key is new. *)
Fixpoint dict_set (key value : string) (d : list (string * string))
    : list (string * string) :=
  match d with
  | [] => [(key, value)]
  | (k, v) :: rest =>
      if decide (k = key) then (key, value) :: rest
      else (k, v) :: dict_set key value rest
  end.

(** The loop of [make_xport] that copies the hints whose key contains the
    filter word; [key.find(filter)] is [String.index 0 filter key]. *)
Fixpoint copy_hints (keys : list string) (hints : list (string * string))
    (filter : string) (filtered_hints : list (string * string))
    : outcome (list (string * string)) :=
  match keys with
  | [] => Ok filtered_hints
  | key :: rest =>
      match String.index 0 filter key with
      | None => copy_hints rest hints filter filtered_hints
      | Some _ =>
          value ← dict_get hints key;
          copy_hints rest hints filter (dict_set key value filtered_hints)
      end
  end.

Definition filter_hints (hints : list (string * string)) (filter : string)
    : outcome (list (string * string)) :=
  copy_hints hints.*1 hints filter [].

(** *** Frame size negotiation *)

Record mtu_result_t : Type := {
  recv_mtu : Z;
  send_mtu : Z
}.

(** [std::min] on both sizes, as in the body of the constructor's loop. *)
Definition mtu_min (mtu mtu_i : mtu_result_t) : mtu_result_t :=
  {| recv_mtu := Z.min (recv_mtu mtu) (recv_mtu mtu_i);
     send_mtu := Z.min (send_mtu mtu) (send_mtu mtu_i) |}.

(** The [try] block of the constructor: [determined] holds what
    [determine_mtu] finds for each device in order, [None] where it
    throws [uhd::not_implemented_error]; a throw ends the block and the
    frame sizes stay as they were ([None]).  [device_args[0]] without a
    device is undefined. *)
Definition negotiate_mtu (determined : list (option mtu_result_t))
    : outcome (option mtu_result_t) :=
  match determined with
  | [] => Undefined
  | first :: others =>
      Ok (mtu ← first;
          foldl (λ acc found, mtu ← acc; mtu_i ← found;
                                Some (mtu_min mtu mtu_i))
            (Some mtu) others)
  end.

(** The layout of the SPI words for one address and data byte, as a
    check that can be run. *)
Definition command_layout_ok (addr data : Z) : bool :=
  (write_command addr data =? 32768 + 256 * addr + data)%Z
  && Z.testbit (write_command addr data) 15
  && (Z.land (Z.shiftr (write_command addr data) 8) 127 =? addr)%Z
  && (Z.land (write_command addr data) 255 =? data)%Z
  && negb (Z.testbit (Z.shiftl addr 8) 15)
  && (Z.shiftr (Z.shiftl addr 8) 8 =? addr)%Z.

(** A control interface for the worked examples: nothing sent yet, and a
    device that answers each transaction with the number of transactions
    it has seen. *)
Definition sample_spi : spi_iface :=
  {| spi_log := []; spi_device := λ log, Z.of_nat (length log) |}.

(** A request for one sc16 channel, for the worked examples. *)
Definition sample_request (chan : nat) : stream_args_t :=
  {| cpu_format := "fc32"; otw_format := "sc16"; args := [];
     channels := [chan] |}.

(** * Properties *)

Section flow_control.

Import flow_control_monitor.
Local Open Scope Z_scope.

Lemma seq_type_succ x : seq_type (seq_type x + 1) = seq_type (x + 1).
Proof.
  unfold seq_type. rewrite Zplus_mod_idemp_l. reflexivity.
Qed.

Lemma seq_type_range x : is_seq (seq_type x).
Proof. unfold is_seq, seq_type. apply Z.mod_pos_bound. reflexivity. Qed.

Lemma run_snoc calls c m : run (calls ++ [c]) m = do_call (run calls m) c.
Proof. unfold run. apply foldl_snoc. Qed.

Lemma seqs_taken_snoc calls c :
  seqs_taken (calls ++ [c]) =
  match c with
  | call_get_curr_seq_out => seqs_taken calls + 1
  | call_update_fc_condition _ => seqs_taken calls
  end.
Proof. unfold seqs_taken. rewrite foldl_snoc. destruct c; reflexivity. Qed.

Lemma last_acked_snoc ack0 calls c :
  last_acked ack0 (calls ++ [c]) =
  match c with
  | call_get_curr_seq_out => last_acked ack0 calls
  | call_update_fc_condition seq => seq
  end.
Proof. unfold last_acked. rewrite foldl_snoc. destruct c; reflexivity. Qed.

(** The counters after a call sequence on a freshly made monitor. *)
Lemma run_counters max_seqs_out calls :
  _last_seq_out (run calls (make max_seqs_out)) = seq_type (seqs_taken calls)
  ∧ _last_seq_ack (run calls (make max_seqs_out)) = last_acked 0 calls
  ∧ _max_seqs_out (run calls (make max_seqs_out)) = max_seqs_out.
Proof.
  induction calls as [|c calls IH] using rev_ind.
  - repeat split.
  - destruct IH as (Hout & Hack & Hmax).
    rewrite run_snoc, seqs_taken_snoc, last_acked_snoc.
    destruct c as [|seq]; cbn; repeat split; try assumption.
    rewrite Hout. apply seq_type_succ.
Qed.

Lemma ready_spec m :
  ready m = true ↔
  seq_type (_last_seq_out m - _last_seq_ack m) < _max_seqs_out m.
Proof. unfold ready. apply Z.ltb_lt. Qed.

Lemma seq_type_minus_l a b : seq_type (seq_type a - b) = seq_type (a - b).
Proof. unfold seq_type. apply Zminus_mod_idemp_l. Qed.

(** C1.  After any sequence of [get_curr_seq_out()] (next_sequence) and
    [update_fc_condition(seq)] (acknowledge) calls on a monitor made with
    window [max_seqs_out], [ready()] is true exactly when the unsigned
    32-bit difference of the sequence counter and the stored
    acknowledgement is strictly below the window.  The counter is the
    number of sequence numbers taken, modulo 2^32, and the stored
    acknowledgement is the last one given, so the equivalence also reads
    on the call sequence itself, across the wrap at 2^32. *)
Theorem ready_iff_window (max_seqs_out : Z) (calls : list call) :
  let m := run calls (make max_seqs_out) in
  (ready m = true ↔
     (_last_seq_out m - _last_seq_ack m) mod 2 ^ 32 < max_seqs_out)
  ∧ (ready m = true ↔
     (seqs_taken calls - last_acked 0 calls) mod 2 ^ 32 < max_seqs_out).
Proof.
  intros m.
  destruct (run_counters max_seqs_out calls) as (Hout & Hack & Hmax).
  fold m in Hout, Hack, Hmax.
  pose proof (ready_spec m) as Hready. rewrite Hmax in Hready.
  split; [exact Hready|].
  rewrite Hready, Hout, Hack, seq_type_minus_l. reflexivity.
Qed.

(** The sequence counter stays a 32-bit value. *)
Lemma run_last_seq_out_range max_seqs_out calls :
  is_seq (_last_seq_out (run calls (make max_seqs_out))).
Proof.
  destruct (run_counters max_seqs_out calls) as (-> & _). apply seq_type_range.
Qed.

(** Across the wrap: with the counter at 2 and the acknowledgement at
    2^32 - 1 three sequence numbers are outstanding, which a window of 4
    admits and a window of 3 does not. *)
Example ready_across_wrap :
  ready {| _last_seq_out := 2; _last_seq_ack := 2 ^ 32 - 1;
           _max_seqs_out := 4 |} = true
  ∧ ready {| _last_seq_out := 2; _last_seq_ack := 2 ^ 32 - 1;
             _max_seqs_out := 3 |} = false
  ∧ ready {| _last_seq_out := 2 ^ 32 - 1; _last_seq_ack := 0;
             _max_seqs_out := 2 ^ 32 - 1 |} = false.
Proof. repeat split. Qed.

(** C5.  [update_fc_condition(seq)] (acknowledge) stores [seq] as the
    acknowledgement whatever the monitor held before, after any earlier
    calls, and leaves the other fields alone.  There is no guard on the
    order of values: a later call overwrites an earlier one even when its
    value is older, and [ready()] then follows the stale value. *)
Theorem acknowledge_last_value_wins (m : t) (seq stale : Z)
    (calls : list call) :
  _last_seq_ack (update_fc_condition seq m) = seq
  ∧ _last_seq_out (update_fc_condition seq m) = _last_seq_out m
  ∧ _max_seqs_out (update_fc_condition seq m) = _max_seqs_out m
  ∧ _last_seq_ack (run (calls ++ [call_update_fc_condition seq]) m) = seq
  ∧ _last_seq_ack (update_fc_condition stale (update_fc_condition seq m))
    = stale
  ∧ ready (update_fc_condition stale (update_fc_condition seq m))
    = (seq_type (_last_seq_out m - stale) <? _max_seqs_out m).
Proof.
  split; [reflexivity|]. split; [reflexivity|]. split; [reflexivity|].
  split; [rewrite run_snoc; reflexivity|].
  split; reflexivity.
Qed.

(** A stale acknowledgement closes a window that a newer one had opened. *)
Example stale_acknowledgement_blocks :
  let m := {| _last_seq_out := 5; _last_seq_ack := 0; _max_seqs_out := 4 |} in
  ready (update_fc_condition 4 m) = true
  ∧ ready (update_fc_condition 1 (update_fc_condition 4 m)) = false.
Proof. split; reflexivity. Qed.

(** The monitor of the window-4 scenario: four sequence numbers taken on
    a freshly made monitor, nothing acknowledged. *)
Lemma window4_state :
  run (replicate 4 call_get_curr_seq_out) (make 4)
  = {| _last_seq_out := 4; _last_seq_ack := 0; _max_seqs_out := 4 |}.
Proof. reflexivity. Qed.

(** C2, as stated, fails: after four sequence numbers on a window of 4 the
    wait does time out, but [update_fc_condition(0)] stores the value the
    cleared monitor already held, so the next wait times out as well. *)
Lemma window4_ack0_still_blocked :
  let m := run (replicate 4 call_get_curr_seq_out) (make 4) in
  ¬ ((check_fc_condition [] m).1.1 = Ok false
     ∧ (check_fc_condition [] (update_fc_condition 0 m)).1.1 = Ok true).
Proof. intros m [_ H]. vm_compute in H. discriminate H. Qed.

(** C2, amended.  Window 4, four sequence numbers taken, nothing
    acknowledged: the wait with no event before its deadline returns
    false.  After [update_fc_condition(seq)] the same wait returns true
    exactly when [(4 - seq) mod 2^32 < 4]: it still returns false for
    [seq = 0] and returns true for [seq = 1]. *)
Theorem window4_scenario :
  let m := run (replicate 4 call_get_curr_seq_out) (make 4) in
  (check_fc_condition [] m).1.1 = Ok false
  ∧ (∀ seq, (check_fc_condition [] (update_fc_condition seq m)).1.1
            = Ok (bool_decide ((4 - seq) mod 2 ^ 32 < 4)))
  ∧ (check_fc_condition [] (update_fc_condition 0 m)).1.1 = Ok false
  ∧ (check_fc_condition [] (update_fc_condition 1 m)).1.1 = Ok true.
Proof.
  intros m. subst m. rewrite window4_state.
  split; [reflexivity|]. split; [|split; reflexivity].
  intros seq.
  assert (Hready : ready (update_fc_condition seq
                     {| _last_seq_out := 4; _last_seq_ack := 0;
                        _max_seqs_out := 4 |})
                   = bool_decide ((4 - seq) mod 2 ^ 32 < 4)).
  { unfold ready, seq_type, seq_modulus. cbn [_last_seq_out _last_seq_ack
      _max_seqs_out update_fc_condition].
    destruct (Z.ltb_spec ((4 - seq) mod 2 ^ 32) 4).
    - rewrite bool_decide_eq_true_2 by assumption. reflexivity.
    - rewrite bool_decide_eq_false_2 by lia. reflexivity. }
  unfold check_fc_condition, timed_wait. rewrite Hready.
  destruct (bool_decide _); reflexivity.
Qed.

Lemma timed_wait_unfold enabled events m :
  timed_wait enabled events m =
  if ready m then (Ok true, m, events)
  else
    match events with
    | [] => (Ok (ready m), m, [])
    | ack_arrives seq :: rest =>
        timed_wait enabled rest (update_fc_condition seq m)
    | spurious_wake :: rest => timed_wait enabled rest m
    | interrupt_requested :: rest =>
        if enabled then (Throw thread_interrupted, m, rest)
        else timed_wait enabled rest m
    end.
Proof. destruct events; reflexivity. Qed.

Lemma timed_wait_disabled_step e events m :
  ready m = false →
  timed_wait false (e :: events) m
  = timed_wait false events (after_event m e).
Proof.
  intros Hm. rewrite timed_wait_unfold, Hm. destruct e; reflexivity.
Qed.

(** With interruption disabled the wait consumes events up to the first
    one after which the predicate holds, or all of them. *)
Lemma timed_wait_disabled_spec events : ∀ m,
  ∃ consumed rest,
    events = consumed ++ rest
    ∧ timed_wait false events m
      = (Ok (ready (after_events consumed m)), after_events consumed m, rest)
    ∧ (∀ k, (k < length consumed)%nat →
            ready (after_events (take k consumed) m) = false)
    ∧ (ready (after_events consumed m) = false → rest = []).
Proof.
  induction events as [|e events IH]; intros m.
  - exists [], []. rewrite timed_wait_unfold.
    destruct (ready m) eqn:Hm; cbn; rewrite ?Hm;
      repeat split; try reflexivity; intros; lia.
  - destruct (ready m) eqn:Hm.
    + exists [], (e :: events). rewrite timed_wait_unfold, Hm. cbn.
      rewrite Hm. repeat split; [intros; lia | discriminate].
    + destruct (IH (after_event m e))
        as (consumed & rest & -> & Hw & Hpre & Hto).
      exists (e :: consumed), rest.
      rewrite timed_wait_disabled_step by assumption.
      repeat split; [exact Hw | | exact Hto].
      intros [|k] Hk; [exact Hm|]. cbn in Hk. apply Hpre. lia.
Qed.

(** Interruption requests do not change what the wait returns. *)
Lemma timed_wait_disabled_ignores_interrupts events : ∀ m,
  (timed_wait false (filter (λ e, is_interrupt e = false) events) m).1
  = (timed_wait false events m).1.
Proof.
  induction events as [|e events IH]; intros m; [reflexivity|].
  destruct (ready m) eqn:Hm.
  - rewrite !timed_wait_unfold, Hm. reflexivity.
  - rewrite timed_wait_disabled_step by assumption.
    destruct e; cbn [after_event].
    + rewrite filter_cons_True by reflexivity.
      rewrite timed_wait_disabled_step by assumption. apply IH.
    + rewrite filter_cons_True by reflexivity.
      rewrite timed_wait_disabled_step by assumption. apply IH.
    + rewrite filter_cons_False by discriminate. apply IH.
Qed.

(** Were interruption left enabled, the same wait would throw. *)
Lemma timed_wait_enabled_throws events m :
  ready m = false →
  timed_wait true (interrupt_requested :: events) m
  = (Throw thread_interrupted, m, events).
Proof. intros Hm. rewrite timed_wait_unfold, Hm. reflexivity. Qed.

Lemma after_events_last_seq_out events : ∀ m,
  _last_seq_out (after_events events m) = _last_seq_out m
  ∧ _max_seqs_out (after_events events m) = _max_seqs_out m.
Proof.
  induction events as [|e events IH]; intros m; [split; reflexivity|].
  unfold after_events in *. cbn [foldl].
  destruct (IH (after_event m e)) as [-> ->]. destruct e; split; reflexivity.
Qed.

(** [check_fc_condition] always returns a boolean, the value of [ready()] on
    the monitor as the consumed events left it. *)
Lemma check_fc_condition_returns events m :
  ∃ consumed rest,
    check_fc_condition events m
    = (Ok (ready (after_events consumed m)), after_events consumed m, rest).
Proof.
  destruct (timed_wait_disabled_spec events m)
    as (consumed & rest & _ & Hw & _).
  exists consumed, rest. rewrite <- Hw.
  unfold check_fc_condition. rewrite (timed_wait_unfold _ events).
  destruct (ready m); reflexivity.
Qed.

(** C9, as stated, fails in its last part: a cancellation request that
    reaches a blocked waiter does not turn into a "not ready" return.
    Here the window of 4 is used up, the waiter is interrupted, and an
    acknowledgement arrives before the deadline: the call returns true. *)
Lemma interrupted_wait_still_returns_ready :
  let m := {| _last_seq_out := 4; _last_seq_ack := 0; _max_seqs_out := 4 |} in
  ready m = false
  ∧ (check_fc_condition [interrupt_requested; ack_arrives 1] m).1.1 = Ok true
  ∧ (check_fc_condition [interrupt_requested; ack_arrives 1] m).1.1
    ≠ Ok false.
Proof. cbn. repeat split. discriminate. Qed.

(** C9, amended.  [check_fc_condition] returns true at once, consuming no
    event, when [ready()] holds at the call.  Otherwise it waits for at
    most the events that fall within the timeout and always returns a
    boolean, never an exception: the predicate is evaluated again after
    every event, the call returns true at the first event after which it
    holds, and it returns false only when the timeout has elapsed with
    the predicate still false.  A cancellation request neither throws nor
    ends the wait: removing the requests from the events leaves the
    returned value and the monitor the same. *)
Theorem check_fc_condition_outcome (events : list wait_event) (m : t) :
  ∃ consumed rest,
    events = consumed ++ rest
    ∧ check_fc_condition events m
      = (Ok (ready (after_events consumed m)), after_events consumed m, rest)
    ∧ (ready m = true → consumed = [] ∧ rest = events)
    ∧ (∀ k, (k < length consumed)%nat →
            ready (after_events (take k consumed) m) = false)
    ∧ (ready (after_events consumed m) = false → rest = [])
    ∧ (check_fc_condition
         (filter (λ e, is_interrupt e = false) events) m).1
      = (Ok (ready (after_events consumed m)), after_events consumed m).
Proof.
  assert (Hcheck : ∀ evs, check_fc_condition evs m = timed_wait false evs m).
  { intros evs. unfold check_fc_condition. rewrite (timed_wait_unfold _ evs).
    destruct (ready m); reflexivity. }
  destruct (timed_wait_disabled_spec events m)
    as (consumed & rest & Hsplit & Hw & Hpre & Hto).
  exists consumed, rest. rewrite !Hcheck.
  rewrite timed_wait_disabled_ignores_interrupts, Hw.
  repeat split; try assumption.
  - destruct consumed as [|e consumed]; [reflexivity|].
    specialize (Hpre 0%nat ltac:(cbn; lia)). cbn in Hpre. congruence.
  - destruct consumed as [|e consumed]; [symmetry; exact Hsplit|].
    specialize (Hpre 0%nat ltac:(cbn; lia)). cbn in Hpre. congruence.
Qed.

End flow_control.

Section async_queue.

Import bounded_buffer.
Context `{!externals}.

Lemma push_elems {A} (elem : A) (b : t A) :
  elems (push_with_pop_on_full elem b)
  = (if full b then tail (elems b) else elems b) ++ [elem].
Proof. unfold push_with_pop_on_full. destruct (full b); reflexivity. Qed.

Lemma push_capacity {A} (elem : A) (b : t A) :
  capacity (push_with_pop_on_full elem b) = capacity b.
Proof. unfold push_with_pop_on_full. destruct (full b); reflexivity. Qed.

Lemma push_size {A} (elem : A) (b : t A) :
  (0 < capacity b)%nat →
  size (push_with_pop_on_full elem b)
  = if full b then size b else S (size b).
Proof.
  intros Hcap. unfold size. rewrite push_elems.
  destruct (full b) eqn:Hfull; rewrite length_app; cbn.
  - unfold full, size in Hfull. apply Nat.eqb_eq in Hfull.
    destruct (elems b); cbn in *; lia.
  - lia.
Qed.

Lemma push_keeps_bound {A} (elem : A) (b : t A) :
  (0 < capacity b)%nat → (size b ≤ capacity b)%nat →
  (size (push_with_pop_on_full elem b) ≤ capacity b)%nat.
Proof.
  intros Hcap Hsize. rewrite push_size by assumption.
  destruct (full b) eqn:Hfull; [assumption|].
  unfold full in Hfull. apply Nat.eqb_neq in Hfull. lia.
Qed.

Lemma pushes_keep_bound {A} (elems_in : list A) : ∀ b : t A,
  (0 < capacity b)%nat → (size b ≤ capacity b)%nat →
  let b' := foldl (λ q elem, push_with_pop_on_full elem q) b elems_in in
  capacity b' = capacity b ∧ (size b' ≤ capacity b)%nat.
Proof.
  induction elems_in as [|x xs IH]; intros b Hcap Hsize; cbn; [auto|].
  destruct (IH (push_with_pop_on_full x b)) as [Hc Hs].
  - rewrite push_capacity. assumption.
  - rewrite push_capacity. apply push_keeps_bound; assumption.
  - rewrite push_capacity in Hc, Hs. auto.
Qed.

(** C3.  The async message fifo is constructed empty with a capacity of
    100.  On a buffer of positive capacity holding at most that many
    entries, a push always stores the new entry as the newest, keeps the
    capacity, and keeps the size within it; when the buffer was full,
    exactly the oldest entry is gone and the others keep their order,
    otherwise nothing is dropped.  The bound survives any run of pushes.
    With capacity 2, pushing [x], [y], [z] leaves exactly [[y; z]]. *)
Theorem async_fifo_drops_oldest {A} (b : t A) (elem : A)
    (Hcap : (0 < capacity b)%nat) (Hsize : (size b ≤ capacity b)%nat) :
  (∀ rate0, async_msg_fifo (io_impl_ctor rate0)
            = {| capacity := 100; elems := [] |})
  ∧ capacity (push_with_pop_on_full elem b) = capacity b
  ∧ (size (push_with_pop_on_full elem b) ≤ capacity b)%nat
  ∧ last (elems (push_with_pop_on_full elem b)) = Some elem
  ∧ (size b = capacity b →
     elems (push_with_pop_on_full elem b) = tail (elems b) ++ [elem]
     ∧ size (push_with_pop_on_full elem b) = size b)
  ∧ ((size b < capacity b)%nat →
     elems (push_with_pop_on_full elem b) = elems b ++ [elem])
  ∧ (∀ more,
       (size (foldl (λ q x, push_with_pop_on_full x q) b more)
        ≤ capacity b)%nat)
  ∧ (∀ x y z : A,
       elems (push_with_pop_on_full z
                (push_with_pop_on_full y
                   (push_with_pop_on_full x (make 2))))
       = [y; z]).
Proof.
  split; [reflexivity|]. split; [apply push_capacity|].
  split; [apply push_keeps_bound; assumption|].
  split; [rewrite push_elems; apply last_snoc|].
  split; [|split; [|split]].
  - intros Hfull. rewrite push_elems, push_size by assumption.
    unfold full. rewrite (proj2 (Nat.eqb_eq _ _) Hfull). split; reflexivity.
  - intros Hroom. rewrite push_elems. unfold full.
    rewrite (proj2 (Nat.eqb_neq _ _)) by lia. reflexivity.
  - intros more. apply (pushes_keep_bound more b Hcap Hsize).
  - reflexivity.
Qed.

End async_queue.

Section reception.

Import flow_control_monitor.
Context `{!externals}.


Lemma at_index_Some {A} (vec : list A) i a :
  vec !! i = Some a → at_index vec i = Ok a.
Proof. unfold at_index. intros ->. reflexivity. Qed.


(** A frame that does not unpack is logged and dropped when what the codec
    threw is a [std::exception], and the loop state is untouched; anything
    else the codec threw leaves the turn. *)
Lemma recv_pirate_turn_on_bad_frame index buff io fc_mon e :
  fc_mons io !! index = Some fc_mon →
  if_hdr_unpack_be buff (length buff) = Throw e →
  recv_pirate_turn index (Some buff) io
  = if is_std_exception e then Ok (io, [did_msg_error]) else Throw e.
Proof.
  intros Hmon Hunpack. unfold recv_pirate_turn.
  rewrite (at_index_Some _ _ _ Hmon). cbn.
  unfold recv_pirate_try. rewrite Hunpack. reflexivity.
Qed.

(** C10.  [get_send_buff] on a channel that has its monitor and
    transport always returns.  When it returns the null pointer, because
    the flow control wait ended not ready or because the transport had
    no buffer, the channel's [_last_seq_out] is what it was.  When it
    returns a buffer, that is the transport's buffer with word 0 replaced
    by the old [_last_seq_out] in network order, and [_last_seq_out] has
    advanced by one modulo 2^32.  No other channel's monitor changes. *)
Theorem get_send_buff_takes_seq_only_with_buffer
    (chan : nat) (events : list wait_event)
    (xport_buff : option buffer_words) (io : io_impl) (fc_mon : t)
    (Hmon : fc_mons io !! chan = Some fc_mon)
    (Hxport : is_Some (tx_xports io !! chan))
    (Hwords : xport_buff ≠ Some []) :
  ∃ result io' fc_mon',
    get_send_buff chan events xport_buff io = Ok (result, io')
    ∧ fc_mons io' !! chan = Some fc_mon'
    ∧ (∀ other, other ≠ chan → fc_mons io' !! other = fc_mons io !! other)
    ∧ match result with
      | None =>
          _last_seq_out fc_mon' = _last_seq_out fc_mon
          ∧ ((check_fc_condition events fc_mon).1.1 = Ok false
             ∨ xport_buff = None)
      | Some buff =>
          (check_fc_condition events fc_mon).1.1 = Ok true
          ∧ (∃ word0 payload,
               xport_buff = Some (word0 :: payload)
               ∧ buff = htonx (_last_seq_out fc_mon) :: payload)
          ∧ _last_seq_out fc_mon' = seq_type (_last_seq_out fc_mon + 1)
      end.
Proof.
  destruct (check_fc_condition_returns events fc_mon)
    as (consumed & rest & Hcheck).
  destruct (after_events_last_seq_out consumed fc_mon) as [Hout _].
  set (fc_mon1 := after_events consumed fc_mon) in *.
  assert (Hlen : (chan < length (fc_mons io))%nat)
    by (apply lookup_lt_is_Some; eauto).
  destruct Hxport as [xport Hxport].
  unfold get_send_buff. rewrite (at_index_Some _ _ _ Hmon). cbn.
  rewrite Hcheck. cbn.
  destruct (ready fc_mon1) eqn:Hready; cbn.
  - rewrite (at_index_Some _ _ _ Hxport). cbn.
    destruct xport_buff as [[|word0 payload]|];
      [destruct (Hwords eq_refl)| |].
    + eexists _, _, _. split; [reflexivity|]. cbn.
      rewrite list_insert_insert_eq.
      split; [apply list_lookup_insert_eq; assumption|].
      split; [intros other Hne; apply list_lookup_insert_ne; congruence|].
      split; [reflexivity|]. split; [rewrite Hout; eauto|].
      cbn. rewrite Hout. reflexivity.
    + eexists _, _, _. split; [reflexivity|]. cbn.
      split; [apply list_lookup_insert_eq; assumption|].
      split; [intros other Hne; apply list_lookup_insert_ne; congruence|].
      split; [assumption|]. right. reflexivity.
  - eexists _, _, _. split; [reflexivity|]. cbn.
    split; [apply list_lookup_insert_eq; assumption|].
    split; [intros other Hne; apply list_lookup_insert_ne; congruence|].
    split; [assumption|]. left. reflexivity.
Qed.

End reception.

Section binding.

Context `{!externals}.

Lemma rx_chans_cons mb c mbs :
  rx_chans ((mb, c) :: mbs) = (rx_chan_occ c + rx_chans mbs)%nat.
Proof. reflexivity. Qed.

Lemma tx_chans_cons mb c mbs :
  tx_chans ((mb, c) :: mbs) = (tx_chan_occ c + tx_chans mbs)%nat.
Proof. reflexivity. Qed.

(** C6.  [get_tx_stream] with a wire format that is neither empty nor
    "sc16" throws [value_error] naming the format, and the device is as
    it was before the call: no streamer was made, no board or monitor
    was touched. *)
Theorem get_tx_stream_rejects_wire_format
    (args_ : stream_args_t) (self : umtrx_impl)
    (Hgiven : otw_format args_ ≠ "")
    (Hother : otw_format args_ ≠ "sc16") :
  get_tx_stream args_ self
  = (Throw (value_error
              ("USRP TX cannot handle requested wire format: "
               +:+ otw_format args_)),
     self).
Proof.
  unfold get_tx_stream, with_defaults. cbn [otw_format].
  destruct (decide (otw_format args_ = "")) as [Hempty|_]; [contradiction|].
  rewrite bool_decide_eq_true_2 by assumption. reflexivity.
Qed.

(** An empty wire format is read as "sc16" and passes the check. *)
Lemma get_tx_stream_default_format args_ :
  otw_format args_ = "" → otw_format (with_defaults args_) = "sc16".
Proof.
  intros Hempty. unfold with_defaults. cbn.
  destruct (decide _); [reflexivity|contradiction].
Qed.

Lemma rx_bind_chan_unresolved stream_args spp sc8_scalar streamer chan_i
    chan mbs : ∀ num_chan_so_far calls,
  (num_chan_so_far + rx_chans mbs ≤ chan)%nat →
  rx_bind_chan stream_args spp sc8_scalar streamer chan_i chan
    num_chan_so_far mbs calls
  = Ok (mbs, calls).
Proof.
  induction mbs as [|[mb c] mbs IH]; intros so_far calls Hle; [reflexivity|].
  rewrite rx_chans_cons in Hle. cbn [rx_bind_chan].
  rewrite (proj2 (Nat.ltb_ge _ _)) by lia.
  rewrite IH by lia. reflexivity.
Qed.

Lemma tx_bind_chan_unresolved stream_args streamer chan_i chan mbs :
  ∀ num_chan_so_far abs fcs calls,
  (num_chan_so_far + tx_chans mbs ≤ chan)%nat →
  tx_bind_chan stream_args streamer chan_i chan num_chan_so_far abs mbs
    fcs calls
  = Ok (mbs, fcs, calls).
Proof.
  induction mbs as [|[mb c] mbs IH]; intros so_far abs fcs calls Hle;
    [reflexivity|].
  rewrite tx_chans_cons in Hle. cbn [tx_bind_chan].
  rewrite (proj2 (Nat.ltb_ge _ _)) by lia.
  rewrite IH by lia. reflexivity.
Qed.

(** C7, amended.  A logical channel index at or beyond the number of
    channels the boards expose raises nothing: the walk over the boards
    ends without a match and leaves the boards, the flow control
    monitors and the streamer's calls exactly as they were, in
    [get_rx_stream] and in [get_tx_stream] alike, and the loop over the
    requested channels goes on. *)
Theorem unresolvable_channel_binds_nothing
    (stream_args : stream_args_t) (spp sc8_scalar : Z)
    (streamer chan_i rx_chan tx_chan : nat)
    (mbs : list (string * mb_container))
    (fcs : list flow_control_monitor.t)
    (rx_calls : list rx_streamer_call) (tx_calls : list tx_streamer_call)
    (Hrx : (rx_chans mbs ≤ rx_chan)%nat)
    (Htx : (tx_chans mbs ≤ tx_chan)%nat) :
  rx_bind_chan stream_args spp sc8_scalar streamer chan_i rx_chan 0 mbs
    rx_calls
  = Ok (mbs, rx_calls)
  ∧ tx_bind_chan stream_args streamer chan_i tx_chan 0 0 mbs fcs tx_calls
    = Ok (mbs, fcs, tx_calls)
  ∧ (∀ more,
       rx_bind_chans stream_args spp sc8_scalar streamer chan_i
         (rx_chan :: more) mbs rx_calls
       = rx_bind_chans stream_args spp sc8_scalar streamer (S chan_i)
           more mbs rx_calls)
  ∧ (∀ more,
       tx_bind_chans stream_args streamer chan_i (tx_chan :: more) mbs
         fcs tx_calls
       = tx_bind_chans stream_args streamer (S chan_i) more mbs fcs
           tx_calls).
Proof.
  assert (Hr := rx_bind_chan_unresolved stream_args spp sc8_scalar streamer
                  chan_i rx_chan mbs 0 rx_calls Hrx).
  assert (Ht := tx_bind_chan_unresolved stream_args streamer chan_i tx_chan
                  mbs 0 0 fcs tx_calls Htx).
  split; [exact Hr|]. split; [exact Ht|].
  split; intros more; cbn [rx_bind_chans tx_bind_chans].
  - rewrite Hr. reflexivity.
  - rewrite Ht. reflexivity.
Qed.


Lemma rx_bind_chan_skips stream_args spp sc8_scalar streamer chan_i chan
    pre : ∀ num_chan_so_far mbs calls,
  (num_chan_so_far + rx_chans pre ≤ chan)%nat →
  rx_bind_chan stream_args spp sc8_scalar streamer chan_i chan
    num_chan_so_far (pre ++ mbs) calls
  = '(mbs1, calls1) ←
      rx_bind_chan stream_args spp sc8_scalar streamer chan_i chan
        (num_chan_so_far + rx_chans pre) mbs calls;
    Ok (pre ++ mbs1, calls1).
Proof.
  induction pre as [|[mb c] pre IH]; intros so_far mbs calls Hle.
  - cbn. rewrite Nat.add_0_r.
    destruct (rx_bind_chan _ _ _ _ _ _ _ _ _) as [[? ?]| |]; reflexivity.
  - rewrite rx_chans_cons in Hle. cbn [rx_bind_chan app].
    rewrite (proj2 (Nat.ltb_ge _ _)) by lia.
    rewrite IH by lia. rewrite rx_chans_cons.
    replace (so_far + rx_chan_occ c + rx_chans pre)%nat
      with (so_far + (rx_chan_occ c + rx_chans pre))%nat by lia.
    destruct (rx_bind_chan _ _ _ _ _ _ _ _ _) as [[? ?]| |]; reflexivity.
Qed.

Lemma rx_dsp_do_Ok dsp call c core :
  rx_dsps c !! dsp = Some core →
  rx_dsp_do dsp call c
  = Ok {| rx_dsp_xports := rx_dsp_xports c;
          tx_dsp_xports := tx_dsp_xports c;
          rx_dsps := <[dsp := core ++ [call]]> (rx_dsps c);
          tx_dsps := tx_dsps c;
          rx_streamers := rx_streamers c;
          tx_streamers := tx_streamers c;
          rx_chan_occ := rx_chan_occ c;
          tx_chan_occ := tx_chan_occ c |}.
Proof.
  intros Hcore. unfold rx_dsp_do. rewrite (at_index_Some _ _ _ Hcore).
  reflexivity.
Qed.

Lemma at_index_lt {A} (vec : list A) i :
  (i < length vec)%nat → ∃ a, at_index vec i = Ok a.
Proof.
  intros Hlt. destruct (lookup_lt_is_Some_2 vec i Hlt) as [a Ha].
  exists a. apply at_index_Some. assumption.
Qed.

Lemma rx_bind_chan_here stream_args spp sc8_scalar streamer chan_i chan
    num_chan_so_far mb c post calls core :
  (num_chan_so_far ≤ chan)%nat →
  (chan < num_chan_so_far + rx_chan_occ c)%nat →
  rx_dsps c !! (chan - num_chan_so_far)%nat = Some core →
  (chan - num_chan_so_far < length (rx_dsp_xports c))%nat →
  (chan - num_chan_so_far < length (rx_streamers c))%nat →
  rx_bind_chan stream_args spp sc8_scalar streamer chan_i chan
    num_chan_so_far ((mb, c) :: post) calls
  = Ok ((mb, rx_bound stream_args spp sc8_scalar streamer
               (chan - num_chan_so_far) core c) :: post,
        calls ++ [rx_set_xport_chan_get_buff chan_i mb
                    (chan - num_chan_so_far) true]).
Proof.
  intros Hlo Hhi Hcore Hx Hs.
  assert (Hd : (chan - num_chan_so_far < length (rx_dsps c))%nat)
    by (apply lookup_lt_is_Some; eauto).
  cbn [rx_bind_chan].
  rewrite (proj2 (Nat.ltb_lt _ _)) by lia.
  replace (chan + rx_chan_occ c - (num_chan_so_far + rx_chan_occ c))%nat
    with (chan - num_chan_so_far)%nat by lia.
  set (dsp := (chan - num_chan_so_far)%nat) in *.
  rewrite (rx_dsp_do_Ok _ _ _ core Hcore). cbn [mbind outcome_bind].
  unfold rx_bound.
  destruct (has_key (args stream_args) "noclear"); cbn [negb].
  - cbn [mbind outcome_bind].
    erewrite rx_dsp_do_Ok
      by (cbn [rx_dsps]; apply list_lookup_insert_eq; assumption).
    cbn [mbind outcome_bind rx_dsp_xports rx_dsps rx_streamers].
    destruct (at_index_lt (rx_dsp_xports c) dsp Hx) as [x ->].
    cbn [mbind outcome_bind]. unfold set_rx_streamer.
    cbn [rx_streamers].
    destruct (at_index_lt (rx_streamers c) dsp Hs) as [w ->].
    cbn. rewrite list_insert_insert_eq, <- app_assoc. reflexivity.
  - erewrite rx_dsp_do_Ok
      by (cbn [rx_dsps]; apply list_lookup_insert_eq; assumption).
    cbn [mbind outcome_bind].
    erewrite rx_dsp_do_Ok
      by (cbn [rx_dsps]; apply list_lookup_insert_eq;
          rewrite length_insert; assumption).
    cbn [mbind outcome_bind rx_dsp_xports rx_dsps rx_streamers].
    destruct (at_index_lt (rx_dsp_xports c) dsp Hx) as [x ->].
    cbn [mbind outcome_bind]. unfold set_rx_streamer.
    cbn [rx_streamers].
    destruct (at_index_lt (rx_streamers c) dsp Hs) as [w ->].
    cbn. rewrite !list_insert_insert_eq, <- !app_assoc. reflexivity.
Qed.

(** One walk over the boards, in registration order.  Let [pre] be the
    boards registered before board [mb], exposing [rx_chans pre] channels
    together, and let [chan] fall within the next [rx_chan_occ c]
    indices.  Then the walk passes over [pre] untouched and binds
    position [chan_i] of the streamer to board [mb], DSP slot
    [chan + rx_chan_occ c - num_chan_so_far], where [num_chan_so_far]
    counts the channels up to and including board [mb]; this is the
    offset of [chan] within the board.  With two boards of two channels
    each, logical channel 2 lands on slot 0 of the second board. *)
Lemma rx_bind_chan_walk
    (stream_args : stream_args_t) (spp sc8_scalar : Z)
    (streamer chan_i chan : nat)
    (pre post : list (string * mb_container)) (mb : string)
    (c : mb_container) (calls : list rx_streamer_call)
    (core : list rx_dsp_call)
    (Hlo : (rx_chans pre ≤ chan)%nat)
    (Hhi : (chan < rx_chans pre + rx_chan_occ c)%nat)
    (Hcore : rx_dsps c !! (chan - rx_chans pre)%nat = Some core)
    (Hxport : (chan - rx_chans pre < length (rx_dsp_xports c))%nat)
    (Hweak : (chan - rx_chans pre < length (rx_streamers c))%nat) :
  let num_chan_so_far := (rx_chans pre + rx_chan_occ c)%nat in
  let dsp := (chan + rx_chan_occ c - num_chan_so_far)%nat in
  dsp = (chan - rx_chans pre)%nat
  ∧ (dsp < rx_chan_occ c)%nat
  ∧ rx_bind_chan stream_args spp sc8_scalar streamer chan_i chan 0
      (pre ++ (mb, c) :: post) calls
    = Ok (pre ++ (mb, rx_bound stream_args spp sc8_scalar streamer dsp
                        core c) :: post,
          calls ++ [rx_set_xport_chan_get_buff chan_i mb dsp true])
  ∧ rx_bind_chan stream_args spp sc8_scalar streamer chan_i 2 0
      [("A", sample_board 2); ("B", sample_board 2)] calls
    = Ok ([("A", sample_board 2);
           ("B", rx_bound stream_args spp sc8_scalar streamer 0 []
                   (sample_board 2))],
          calls ++ [rx_set_xport_chan_get_buff chan_i "B" 0 true]).
Proof.
  intros num_chan_so_far dsp.
  assert (Hdsp : dsp = (chan - rx_chans pre)%nat)
    by (subst dsp num_chan_so_far; lia).
  split; [exact Hdsp|]. split; [lia|]. split.
  - rewrite rx_bind_chan_skips by lia. rewrite Hdsp. cbn [Nat.add].
    rewrite (rx_bind_chan_here _ _ _ _ _ _ _ _ _ _ _ core)
      by (assumption || lia).
    reflexivity.
  - change [("A", sample_board 2); ("B", sample_board 2)]
      with ([("A", sample_board 2)] ++ [("B", sample_board 2)]).
    rewrite rx_bind_chan_skips by (cbn; lia).
    change (0 + rx_chans [("A", sample_board 2)])%nat with 2%nat.
    rewrite (rx_bind_chan_here _ _ _ _ _ _ _ _ _ _ _ [])
      by (reflexivity || (cbn; lia)).
    reflexivity.
Qed.

End binding.

(** * Worked examples on the concrete host *)

(** C3 at a full buffer of capacity 2 holding [[1; 2]]: pushing 3 drops 1. *)
Lemma async_fifo_drops_oldest_witness :
  let b := {| bounded_buffer.capacity := 2;
              bounded_buffer.elems := [1; 2]%nat |} in
  (0 < bounded_buffer.capacity b)%nat
  ∧ (bounded_buffer.size b ≤ bounded_buffer.capacity b)%nat
  ∧ bounded_buffer.elems (bounded_buffer.push_with_pop_on_full 3%nat b)
    = [2; 3]%nat.
Proof.
  intros b.
  assert (Hcap : (0 < bounded_buffer.capacity b)%nat) by (cbn; lia).
  assert (Hsize : (bounded_buffer.size b ≤ bounded_buffer.capacity b)%nat)
    by (cbn; lia).
  split; [exact Hcap|]. split; [exact Hsize|].
  destruct (async_fifo_drops_oldest (H := sample_host) b 3%nat Hcap Hsize)
    as (_ & _ & _ & _ & Hfull & _).
  exact (proj1 (Hfull eq_refl)).
Defined.


(** The second frame of the scenario: code "underflow" queues one event
    with that code and prints "U"; no monitor is touched. *)
Example recv_pirate_turn_on_underflow :
  let md := {| channel := 0; has_time_spec := false;
               time_spec := {| full_secs := 0; tick_count := 0;
                               tick_rate_of := tick_rate (sample_io 4) |};
               event_code := 2 |} in
  recv_pirate_turn 0 (Some (sample_status_frame 2 0)) (sample_io 4)
  = Ok (set_async_msg_fifo
          {| bounded_buffer.capacity := 100; bounded_buffer.elems := [md] |}
          (sample_io 4),
        [did_push_with_pop_on_full md; did_msg_fastpath "U"]).
Proof. reflexivity. Qed.

(** C6 on a request for the "sc8" wire format. *)
Lemma get_tx_stream_rejects_wire_format_witness :
  let request := {| cpu_format := "fc32"; otw_format := "sc8";
                    args := []; channels := [0%nat] |} in
  otw_format request ≠ ""
  ∧ otw_format request ≠ "sc16"
  ∧ get_tx_stream request sample_device
    = (Throw (value_error
                "USRP TX cannot handle requested wire format: sc8"),
       sample_device).
Proof.
  intros request.
  assert (Hgiven : otw_format request ≠ "") by discriminate.
  assert (Hother : otw_format request ≠ "sc16") by discriminate.
  split; [exact Hgiven|]. split; [exact Hother|].
  exact (get_tx_stream_rejects_wire_format request sample_device
           Hgiven Hother).
Defined.

(** C7, as stated, fails: with boards "A" and "B" of two channels each, a
    request for logical channel 4 is past the last channel, yet both
    [get_tx_stream] and [get_rx_stream] return a streamer.  Nothing is
    thrown, the streamer has no [set_xport_chan_get_buff] call for the
    channel, and the boards are as before. *)
Lemma out_of_range_channel_completes :
  let request := {| cpu_format := "fc32"; otw_format := "sc16";
                    args := []; channels := [4%nat] |} in
  (tx_chans (_mbc sample_device) ≤ 4)%nat
  ∧ (rx_chans (_mbc sample_device) ≤ 4)%nat
  ∧ get_tx_stream request sample_device
    = (Ok {| tx_streamer_id := 0;
             tx_samps_per_packet := 362;
             tx_calls :=
               [tx_resize 1; tx_set_vrt_packer 1;
                tx_set_converter
                  {| input_format := "fc32"; num_inputs := 1;
                     output_format := "sc16_item32_be";
                     num_outputs := 1 |}] |},
       {| _mbc := _mbc sample_device;
          _io_impl := _io_impl sample_device;
          streamers_made := 1 |})
  ∧ get_rx_stream request sample_device
    = (Ok {| rx_streamer_id := 0;
             rx_samps_per_packet := 362;
             rx_calls :=
               [rx_resize 1; rx_set_vrt_unpacker;
                rx_set_converter
                  {| input_format := "sc16_item32_be"; num_inputs := 1;
                     output_format := "fc32"; num_outputs := 1 |};
                rx_set_alignment_failure_threshold 33967] |},
       {| _mbc := _mbc sample_device;
          _io_impl := _io_impl sample_device;
          streamers_made := 1 |}).
Proof. cbn. repeat split; lia. Qed.

(** C7, amended, on the same boards. *)
Lemma unresolvable_channel_binds_nothing_witness :
  let request := {| cpu_format := "fc32"; otw_format := "sc16";
                    args := []; channels := [4%nat] |} in
  let mbs := _mbc sample_device in
  let fcs := fc_mons (_io_impl sample_device) in
  (rx_chans mbs ≤ 4)%nat
  ∧ (tx_chans mbs ≤ 4)%nat
  ∧ rx_bind_chan request 362 1024 0 0 4 0 mbs [rx_resize 1]
    = Ok (mbs, [rx_resize 1])
  ∧ tx_bind_chan request 0 0 4 0 0 mbs fcs [tx_resize 1]
    = Ok (mbs, fcs, [tx_resize 1]).
Proof.
  intros request mbs fcs.
  assert (Hrx : (rx_chans mbs ≤ 4)%nat) by (cbn; lia).
  assert (Htx : (tx_chans mbs ≤ 4)%nat) by (cbn; lia).
  split; [exact Hrx|]. split; [exact Htx|].
  destruct (unresolvable_channel_binds_nothing request 362 1024 0 0 4 4 mbs
              fcs [rx_resize 1] [tx_resize 1] Hrx Htx) as (Hr & Ht & _).
  split; [exact Hr|exact Ht].
Defined.

(** One walk on boards "A" and "B" of two channels each: logical channel 2
    is slot 0 of board "B". *)
Example rx_bind_chan_walk_second_board :
  let request := {| cpu_format := "fc32"; otw_format := "sc16";
                    args := []; channels := [2%nat] |} in
  let pre := [("A", sample_board 2)] in
  let c := sample_board 2 in
  (rx_chans pre ≤ 2)%nat
  ∧ (2 < rx_chans pre + rx_chan_occ c)%nat
  ∧ rx_dsps c !! (2 - rx_chans pre)%nat = Some []
  ∧ (2 - rx_chans pre < length (rx_dsp_xports c))%nat
  ∧ (2 - rx_chans pre < length (rx_streamers c))%nat
  ∧ rx_bind_chan request 362 1024 7 0 2 0 (pre ++ [("B", c)]) []
    = Ok (pre ++ [("B", rx_bound request 362 1024 7 0 [] c)],
          [rx_set_xport_chan_get_buff 0 "B" 0 true]).
Proof.
  intros request pre c.
  assert (Hlo : (rx_chans pre ≤ 2)%nat) by (cbn; lia).
  assert (Hhi : (2 < rx_chans pre + rx_chan_occ c)%nat) by (cbn; lia).
  assert (Hcore : rx_dsps c !! (2 - rx_chans pre)%nat = Some [])
    by reflexivity.
  assert (Hxport : (2 - rx_chans pre < length (rx_dsp_xports c))%nat)
    by (cbn; lia).
  assert (Hweak : (2 - rx_chans pre < length (rx_streamers c))%nat)
    by (cbn; lia).
  repeat (split; [assumption|]).
  destruct (rx_bind_chan_walk request 362 1024 7 0 2 pre [] "B" c [] []
              Hlo Hhi Hcore Hxport Hweak) as (_ & _ & Hbind & _).
  exact Hbind.
Qed.

(** The transmit side of the same request: channel 2 gets the send buffers
    of flow control monitor 2, the first slot of the second board, and the
    closing [update_rates] tells the streamer the tick rate of either board
    and the rate of its DSP. *)
Example get_tx_stream_second_board :
  let request := {| cpu_format := "fc32"; otw_format := "";
                    args := [("noclear", "1")]; channels := [2%nat] |} in
  (get_tx_stream request sample_device).1
  = Ok {| tx_streamer_id := 0;
          tx_samps_per_packet := 362;
          tx_calls :=
            [tx_resize 1; tx_set_vrt_packer 1;
             tx_set_converter
               {| input_format := "fc32"; num_inputs := 1;
                  output_format := "sc16_item32_be"; num_outputs := 1 |};
             tx_set_xport_chan_get_buff 0 2;
             tx_set_tick_rate "A"; tx_set_tick_rate "B";
             tx_set_samp_rate "B" 0] |}.
Proof. reflexivity. Qed.

(** C10 when the transport has no buffer to give: the null pointer comes
    back and the sequence counter stays at 0. *)
Lemma get_send_buff_takes_seq_only_with_buffer_witness :
  let io := sample_io 4 in
  fc_mons io !! 0%nat = Some (flow_control_monitor.make 4)
  ∧ is_Some (tx_xports io !! 0%nat)
  ∧ (None : option buffer_words) ≠ Some []
  ∧ ∃ io' fc_mon',
      get_send_buff 0 [] None io = Ok (None, io')
      ∧ fc_mons io' !! 0%nat = Some fc_mon'
      ∧ flow_control_monitor._last_seq_out fc_mon' = 0%Z.
Proof.
  intros io.
  assert (Hmon : fc_mons io !! 0%nat = Some (flow_control_monitor.make 4))
    by reflexivity.
  assert (Hxport : is_Some (tx_xports io !! 0%nat)) by (eexists; reflexivity).
  assert (Hwords : (None : option buffer_words) ≠ Some []) by discriminate.
  split; [exact Hmon|]. split; [exact Hxport|]. split; [exact Hwords|].
  destruct (get_send_buff_takes_seq_only_with_buffer 0 [] None io _
              Hmon Hxport Hwords)
    as (result & io' & fc_mon' & Hget & Hmon' & _ & Hres).
  destruct result as [buff|].
  - destruct Hres as (_ & (word0 & payload & Hsome & _) & _).
    discriminate Hsome.
  - exists io', fc_mon'. split; [exact Hget|]. split; [exact Hmon'|].
    exact (proj1 Hres).
Defined.

(** With a buffer from the transport the word goes in and the counter
    moves; with the window used up nothing is taken. *)
Example get_send_buff_scenarios :
  get_send_buff 0 [] (Some [99; 11; 22]%Z) (sample_io 4)
  = Ok (Some [0; 11; 22]%Z,
        set_fc_mon 0 {| flow_control_monitor._last_seq_out := 1;
                        flow_control_monitor._last_seq_ack := 0;
                        flow_control_monitor._max_seqs_out := 4 |}
          (sample_io 4))
  ∧ get_send_buff 0 [] (Some [99; 11; 22]%Z) (sample_io 0)
    = Ok (None, sample_io 0).
Proof. split; reflexivity. Qed.

(** * Further properties of the flow control monitor *)

Section window.

Import flow_control_monitor.
Local Open Scope Z_scope.

Lemma seq_type_plus_l a b : seq_type (seq_type a + b) = seq_type (a + b).
Proof. unfold seq_type. apply Zplus_mod_idemp_l. Qed.

Lemma seq_type_idemp x : seq_type (seq_type x) = seq_type x.
Proof. unfold seq_type. apply Z.mod_mod. discriminate. Qed.

(** The counters after a call sequence on any monitor. *)
Lemma run_counters_from calls : ∀ m,
  seq_type (_last_seq_out (run calls m))
  = seq_type (_last_seq_out m + seqs_taken calls)
  ∧ _last_seq_ack (run calls m) = last_acked (_last_seq_ack m) calls
  ∧ _max_seqs_out (run calls m) = _max_seqs_out m.
Proof.
  induction calls as [|c calls IH] using rev_ind; intros m.
  - cbn. rewrite Z.add_0_r. repeat split.
  - destruct (IH m) as (Hout & Hack & Hmax).
    rewrite run_snoc, seqs_taken_snoc, last_acked_snoc.
    destruct c as [|seq]; cbn; repeat split; try assumption.
    rewrite seq_type_idemp, <- seq_type_plus_l, Hout, seq_type_plus_l.
    f_equal. lia.
Qed.

Lemma seqs_taken_replicate n :
  seqs_taken (replicate n call_get_curr_seq_out) = Z.of_nat n.
Proof.
  induction n as [|n IH]; [reflexivity|].
  rewrite replicate_S_end, seqs_taken_snoc, IH. lia.
Qed.

Lemma last_acked_replicate n ack0 :
  last_acked ack0 (replicate n call_get_curr_seq_out) = ack0.
Proof.
  induction n as [|n IH]; [reflexivity|].
  rewrite replicate_S_end, last_acked_snoc. exact IH.
Qed.

(** X1.  On a monitor with nothing outstanding (just made, just cleared,
    or with everything sent acknowledged), [ready()] after [n] further
    sequence numbers and no acknowledgement is true exactly when [n] is
    below the window, for every [n] up to 2^32 - 1: the monitor admits
    exactly [_max_seqs_out] sends and blocks the next one. *)
Theorem window_admits_exactly (m : t) (n : nat)
    (Hidle : _last_seq_ack m = _last_seq_out m)
    (Hn : Z.of_nat n < 2 ^ 32) :
  ready (run (replicate n call_get_curr_seq_out) m)
  = bool_decide (Z.of_nat n < _max_seqs_out m).
Proof.
  destruct (run_counters_from (replicate n call_get_curr_seq_out) m)
    as (Hout & Hack & Hmax).
  rewrite seqs_taken_replicate in Hout. rewrite last_acked_replicate in Hack.
  unfold ready. rewrite Hack, Hmax, Hidle.
  rewrite <- seq_type_minus_l, Hout, seq_type_minus_l.
  replace (_last_seq_out m + Z.of_nat n - _last_seq_out m) with (Z.of_nat n)
    by lia.
  unfold seq_type, seq_modulus. rewrite Z.mod_small by lia.
  destruct (Z.ltb_spec (Z.of_nat n) (_max_seqs_out m)).
  - rewrite bool_decide_eq_true_2 by assumption. reflexivity.
  - rewrite bool_decide_eq_false_2 by lia. reflexivity.
Qed.

Lemma zero_window_never_ready m : _max_seqs_out m = 0 → ready m = false.
Proof.
  intros Hmax. unfold ready. rewrite Hmax. apply Z.ltb_ge.
  apply seq_type_range.
Qed.

(** A monitor whose window is 0 is never ready: whatever arrives during
    the wait, [check_fc_condition] sits out the whole timeout and returns
    false, and acknowledgements only change the stored value. *)
Lemma zero_window_always_times_out (events : list wait_event) (m : t)
    (Hmax : _max_seqs_out m = 0) :
  check_fc_condition events m = (Ok false, after_events events m, []).
Proof.
  unfold check_fc_condition. rewrite (zero_window_never_ready m Hmax).
  revert m Hmax. induction events as [|e events IH]; intros m Hmax.
  - cbn. rewrite (zero_window_never_ready m Hmax). reflexivity.
  - rewrite timed_wait_disabled_step
      by (apply zero_window_never_ready; assumption).
    unfold after_events. cbn [foldl]. apply IH.
    destruct e; assumption.
Qed.

End window.

(** * Further properties of the pirate loop *)

Section pirate_loop.

Import flow_control_monitor.
Context `{!externals}.

Lemma pirate_keeps_refl index io : pirate_keeps index io io.
Proof.
  repeat split. intros i m Hm. exists m. repeat split. assumption.
Qed.

Lemma pirate_keeps_trans index io1 io2 io3 :
  pirate_keeps index io1 io2 → pirate_keeps index io2 io3 →
  pirate_keeps index io1 io3.
Proof.
  intros (Hx & Ht & Hl & Hm & Hc) (Hx' & Ht' & Hl' & Hm' & Hc').
  split; [congruence|]. split; [congruence|]. split; [congruence|].
  split; [|congruence].
  intros i m Hi. destruct (Hm i m Hi) as (m1 & Hi1 & Ho1 & Hw1 & He1).
  destruct (Hm' i m1 Hi1) as (m2 & Hi2 & Ho2 & Hw2 & He2).
  exists m2. split; [assumption|]. split; [congruence|]. split; [congruence|].
  intros Hne. rewrite He2, He1 by assumption. reflexivity.
Qed.

Lemma pirate_keeps_ack index seq fc_mon io :
  fc_mons io !! index = Some fc_mon →
  pirate_keeps index io (set_fc_mon index (update_fc_condition seq fc_mon) io).
Proof.
  intros Hmon. split; [reflexivity|]. split; [reflexivity|].
  split; [apply length_insert|]. split; [|reflexivity].
  intros i m Hi. cbn. destruct (decide (i = index)) as [->|Hne].
  - eexists. split; [apply list_lookup_insert_eq, lookup_lt_is_Some; eauto|].
    assert (m = fc_mon) as -> by congruence.
    repeat split. intros []. reflexivity.
  - exists m. rewrite list_lookup_insert_ne by congruence. repeat split.
    assumption.
Qed.

Lemma pirate_keeps_push index metadata io :
  pirate_keeps index io
    (set_async_msg_fifo
       (bounded_buffer.push_with_pop_on_full metadata (async_msg_fifo io)) io).
Proof.
  split; [reflexivity|]. split; [reflexivity|]. split; [reflexivity|].
  split; [|apply push_capacity].
  intros i m Hi. exists m. repeat split. assumption.
Qed.

(** What one turn can come to.  It keeps what the loop keeps and keeps
    the fifo within its capacity; it passes on only what the codec threw
    that is no [std::exception]; it reads out of range only without a
    monitor, on a truncated acknowledgement, or where the codec does. *)
Lemma recv_pirate_turn_keeps index received io :
  (0 < bounded_buffer.capacity (async_msg_fifo io))%nat → fifo_bounded io →
  match recv_pirate_turn index received io with
  | Ok (io', _) => pirate_keeps index io io' ∧ fifo_bounded io'
  | Throw e =>
      is_std_exception e = false
      ∧ ∃ buff, received = Some buff
                ∧ if_hdr_unpack_be buff (length buff) = Throw e
  | Undefined =>
      fc_mons io !! index = None
      ∨ ∃ buff, received = Some buff
                ∧ (truncated_ack buff
                   ∨ if_hdr_unpack_be buff (length buff) = Undefined)
  end.
Proof.
  intros Hcap Hsize. unfold recv_pirate_turn, at_index.
  destruct (fc_mons io !! index) as [fc_mon|] eqn:Hmon; cbn; [|left; reflexivity].
  destruct received as [buff|];
    [|split; [apply pirate_keeps_refl|assumption]].
  unfold recv_pirate_try.
  destruct (if_hdr_unpack_be buff (length buff)) as [info|e|] eqn:Hunpack;
    cbn [mbind outcome_bind].
  - destruct ((bool_decide _ || bool_decide _) && bool_decide _) eqn:Hcond;
      [|split; [apply pirate_keeps_refl|assumption]].
    apply andb_prop in Hcond as [Hsid Htype].
    apply orb_prop in Hsid. apply bool_decide_eq_true_1 in Htype.
    cbn [event_code].
    destruct (get_context_code buff info =? 0)%Z eqn:Hcode.
    + unfold at_index.
      match goal with
      | |- context [@lookup ?K ?A ?M ?I ?i ?b] =>
          destruct (@lookup K A M I i b) as [word|] eqn:Hword
      end; cbn.
      * split; [apply pirate_keeps_ack; assumption|assumption].
      * right. exists buff. split; [reflexivity|]. left. exists info.
        split; [assumption|]. split.
        { destruct Hsid as [Hs|Hs]; apply bool_decide_eq_true_1 in Hs; auto. }
        split; [assumption|]. split; [apply Z.eqb_eq; assumption|].
        apply lookup_ge_None. assumption.
    + split; [apply pirate_keeps_push|].
      unfold fifo_bounded. cbn. rewrite push_capacity.
      apply push_keeps_bound; assumption.
  - destruct (is_std_exception e) eqn:Hstd.
    + split; [apply pirate_keeps_refl|assumption].
    + split; [assumption|]. exists buff. split; [reflexivity|assumption].
  - right. exists buff. split; [reflexivity|]. right. assumption.
Qed.

Lemma recv_pirate_turns_keeps index receptions : ∀ io,
  is_Some (fc_mons io !! index) →
  (0 < bounded_buffer.capacity (async_msg_fifo io))%nat → fifo_bounded io →
  match recv_pirate_turns index receptions io with
  | Ok (io', _) => pirate_keeps index io io' ∧ fifo_bounded io'
  | Throw e =>
      is_std_exception e = false
      ∧ ∃ buff, Some buff ∈ receptions
                ∧ if_hdr_unpack_be buff (length buff) = Throw e
  | Undefined =>
      ∃ buff, Some buff ∈ receptions
              ∧ (truncated_ack buff
                 ∨ if_hdr_unpack_be buff (length buff) = Undefined)
  end.
Proof.
  induction receptions as [|received rest IH]; intros io Hmon Hcap Hsize.
  - cbn. split; [apply pirate_keeps_refl|assumption].
  - cbn [recv_pirate_turns].
    pose proof (recv_pirate_turn_keeps index received io Hcap Hsize) as Hturn.
    destruct (recv_pirate_turn index received io) as [[io1 eff1]|e|];
      cbn [mbind outcome_bind].
    + destruct Hturn as [Hkeep1 Hsize1].
      assert (Hcap1 : (0 < bounded_buffer.capacity (async_msg_fifo io1))%nat).
      { destruct Hkeep1 as (_ & _ & _ & _ & ->). assumption. }
      assert (Hmon1 : is_Some (fc_mons io1 !! index)).
      { destruct Hmon as [m Hm].
        destruct Hkeep1 as (_ & _ & _ & Hmons & _).
        destruct (Hmons index m Hm) as (m' & Hm' & _). eauto. }
      specialize (IH io1 Hmon1 Hcap1 Hsize1).
      destruct (recv_pirate_turns index rest io1) as [[io2 eff2]|e|];
        cbn [mbind outcome_bind].
      * destruct IH as [Hkeep2 Hsize2].
        split; [eapply pirate_keeps_trans; eassumption|assumption].
      * destruct IH as (Hstd & buff & Hin & Hthrow).
        split; [assumption|]. exists buff.
        split; [apply list_elem_of_further; assumption|assumption].
      * destruct IH as (buff & Hin & Hwhy). exists buff.
        split; [apply list_elem_of_further; assumption|assumption].
    + destruct Hturn as (Hstd & buff & -> & Hthrow).
      split; [assumption|]. exists buff.
      split; [apply list_elem_of_here|assumption].
    + destruct Hturn as [Hnone|(buff & -> & Hwhy)].
      * destruct Hmon as [m Hm]. congruence.
      * exists buff. split; [apply list_elem_of_here|assumption].
Qed.

(** X2.  The pirate loop over any run of receptions.  When it comes back
    it has left the transports, the tick rate and the number of monitors as
    they were; no monitor's sequence counter or window has changed and no
    monitor other than its own has changed at all; the async fifo has its
    capacity and holds no more entries than that.  No [std::exception]
    leaves the loop: what leaves it was thrown by the header codec on one
    of the buffers and is no [std::exception].  The loop reads out of
    range only if it has no monitor at its index, if one of the buffers is
    an acknowledgement too short to hold its credit word, or where the
    codec itself does. *)
Theorem recv_pirate_loop_keeps (index : nat)
    (receptions : list (option buffer_words)) (io : io_impl)
    (Hcap : (0 < bounded_buffer.capacity (async_msg_fifo io))%nat)
    (Hsize : (bounded_buffer.size (async_msg_fifo io)
              ≤ bounded_buffer.capacity (async_msg_fifo io))%nat) :
  match recv_pirate_loop index receptions io with
  | Ok (io', _) =>
      pirate_keeps index io io'
      ∧ (bounded_buffer.size (async_msg_fifo io')
         ≤ bounded_buffer.capacity (async_msg_fifo io'))%nat
  | Throw e =>
      is_std_exception e = false
      ∧ ∃ buff, Some buff ∈ receptions
                ∧ if_hdr_unpack_be buff (length buff) = Throw e
  | Undefined =>
      fc_mons io !! index = None
      ∨ ∃ buff, Some buff ∈ receptions
                ∧ (truncated_ack buff
                   ∨ if_hdr_unpack_be buff (length buff) = Undefined)
  end.
Proof.
  unfold recv_pirate_loop, at_index.
  destruct (fc_mons io !! index) as [fc_mon|] eqn:Hmon; cbn [mbind outcome_bind];
    [|left; reflexivity].
  pose proof (recv_pirate_turns_keeps index receptions io
                ltac:(rewrite Hmon; eauto) Hcap Hsize) as Hturns.
  destruct (recv_pirate_turns index receptions io) as [[io' eff]|e|];
    [exact Hturns|exact Hturns|right; exact Hturns].
Qed.

(** X3.  A turn leaves the engine untouched and makes no call when there
    was no buffer, when the frame is on another stream id, or when it is a
    data packet. *)
Theorem recv_pirate_turn_drops_silently
    (index : nat) (buff : buffer_words) (io : io_impl)
    (fc_mon : t) (info : if_packet_info_t)
    (Hmon : fc_mons io !! index = Some fc_mon)
    (Hunpack : if_hdr_unpack_be buff (length buff) = Ok info)
    (Hother : (sid info ≠ (USRP2_TX_ASYNC_SID_BASE + 0)%Z
               ∧ sid info ≠ (USRP2_TX_ASYNC_SID_BASE + 1)%Z)
              ∨ packet_type info = PACKET_TYPE_DATA) :
  recv_pirate_turn index (Some buff) io = Ok (io, [])
  ∧ recv_pirate_turn index None io = Ok (io, []).
Proof.
  unfold recv_pirate_turn. rewrite (at_index_Some _ _ _ Hmon). cbn.
  split; [|reflexivity].
  unfold recv_pirate_try. rewrite Hunpack. cbn.
  destruct Hother as [[Hs0 Hs1]|Hdata].
  - rewrite (bool_decide_eq_false_2 _ Hs0), (bool_decide_eq_false_2 _ Hs1).
    reflexivity.
  - rewrite (bool_decide_eq_false_2 (packet_type info ≠ PACKET_TYPE_DATA))
      by (intros Hne; apply Hne; assumption).
    rewrite andb_false_r. reflexivity.
Qed.

(** X4.  A frame on which the header codec throws a [std::exception]
    costs one error message and nothing else: the loop goes on with the
    receptions that follow, on the engine as it was.  What the codec throws
    that is no [std::exception], such as [boost::thread_interrupted], is
    not caught: it ends the loop and leaves it. *)
Theorem recv_pirate_loop_survives_bad_frame
    (index : nat) (buff : buffer_words) (e : exception)
    (rest : list (option buffer_words)) (io : io_impl)
    (Hunpack : if_hdr_unpack_be buff (length buff) = Throw e) :
  (is_std_exception e = true →
   recv_pirate_loop index (Some buff :: rest) io
   = '(io', effects) ← recv_pirate_loop index rest io;
     Ok (io', did_msg_error :: effects))
  ∧ (is_std_exception e = false →
     is_Some (fc_mons io !! index) →
     recv_pirate_loop index (Some buff :: rest) io = Throw e).
Proof.
  unfold recv_pirate_loop, at_index. split.
  - intros Hstd.
    destruct (fc_mons io !! index) as [fc_mon|] eqn:Hmon; cbn; [|reflexivity].
    rewrite (recv_pirate_turn_on_bad_frame index buff io fc_mon e Hmon
               Hunpack), Hstd.
    cbn. destruct (recv_pirate_turns index rest io) as [[io' eff]| |];
      reflexivity.
  - intros Hstd [fc_mon Hmon]. rewrite Hmon. cbn.
    rewrite (recv_pirate_turn_on_bad_frame index buff io fc_mon e Hmon
               Hunpack), Hstd.
    reflexivity.
Qed.

End pirate_loop.

(** * Properties of [io_init] and of runs of [get_send_buff] *)

Section engine.

Import flow_control_monitor.
Context `{!externals}.

Lemma fc_window_ok sram xport :
  get_send_frame_size xport ≠ 0%nat →
  fc_window sram xport = Ok (window_of sram xport).
Proof.
  intros Hsize. unfold fc_window, size_t_div, window_of.
  rewrite (proj2 (Z.eqb_neq _ _)) by lia. reflexivity.
Qed.

Lemma tx_pairs_cons mb c xport0 xport1 mbs :
  tx_dsp_xports c !! 0%nat = Some xport0 →
  tx_dsp_xports c !! 1%nat = Some xport1 →
  tx_pairs ((mb, c) :: mbs) = xport0 :: xport1 :: tx_pairs mbs.
Proof.
  intros H0 H1. unfold tx_pairs. rewrite bind_cons. cbn [snd].
  destruct (tx_dsp_xports c) as [|a [|b l]]; try discriminate.
  injection H0 as ->. injection H1 as ->. reflexivity.
Qed.

Lemma init_tx_channels_ok sram mbs : ∀ io,
  Forall (λ entry, tx_pair_ok entry.2) mbs →
  init_tx_channels sram mbs io
  = Ok {| tx_xports := tx_xports io ++ tx_pairs mbs;
          fc_mons := fc_mons io
                     ++ ((λ xport, make (window_of sram xport))
                           <$> tx_pairs mbs);
          async_msg_fifo := async_msg_fifo io;
          tick_rate := tick_rate io |}.
Proof.
  induction mbs as [|[mb c] mbs IH]; intros io Hok.
  - cbn. rewrite !app_nil_r. destruct io; reflexivity.
  - apply Forall_cons in Hok as [(x0 & x1 & H0 & H1 & Hs0 & Hs1) Hok].
    cbn [snd] in H0, H1.
    rewrite (tx_pairs_cons mb c x0 x1 mbs H0 H1).
    cbn [init_tx_channels].
    rewrite (at_index_Some _ _ _ H0), (at_index_Some _ _ _ H1).
    cbn [mbind outcome_bind].
    rewrite (fc_window_ok sram x0 Hs0), (fc_window_ok sram x1 Hs1).
    cbn [mbind outcome_bind].
    rewrite IH by assumption.
    cbn [tx_xports fc_mons async_msg_fifo tick_rate].
    rewrite !fmap_cons, <- !app_assoc. reflexivity.
Qed.

Lemma spawn_pirates_ok mbs : ∀ index,
  Forall (λ entry, tx_pair_ok entry.2) mbs →
  spawn_pirates mbs index
  = Ok (zip (tx_pairs mbs) (seq index (length (tx_pairs mbs)))).
Proof.
  induction mbs as [|[mb c] mbs IH]; intros index Hok; [reflexivity|].
  apply Forall_cons in Hok as [(x0 & x1 & H0 & H1 & _) Hok].
  cbn [snd] in H0, H1.
  rewrite (tx_pairs_cons mb c x0 x1 mbs H0 H1).
  cbn [spawn_pirates].
  rewrite (at_index_Some _ _ _ H0), (at_index_Some _ _ _ H1).
  cbn [mbind outcome_bind].
  rewrite IH by assumption. reflexivity.
Qed.

Lemma tx_pairs_length mbs :
  Forall (λ entry, tx_pair_ok entry.2) mbs →
  length (tx_pairs mbs) = (2 * length mbs)%nat.
Proof.
  induction mbs as [|[mb c] mbs IH]; intros Hok; [reflexivity|].
  apply Forall_cons in Hok as [(x0 & x1 & H0 & H1 & _) Hok].
  cbn [snd] in H0, H1.
  rewrite (tx_pairs_cons mb c x0 x1 mbs H0 H1). cbn. rewrite IH by assumption.
  lia.
Qed.

Lemma tx_pairs_init_streamer_tables mbs :
  tx_pairs (prod_map id init_streamer_tables <$> mbs) = tx_pairs mbs.
Proof.
  unfold tx_pairs. induction mbs as [|[mb c] mbs IH]; [reflexivity|].
  cbn in *. rewrite IH. reflexivity.
Qed.

(** X5.  On a device whose boards each have two transmit transports of
    non-zero frame size, [io_init] succeeds and builds the engine from
    scratch.  There are two transmit channels per board, in board order;
    channel [i] has the [i]-th transport and a fresh monitor whose window
    is the SRAM size divided by that transport's frame size; pirate task
    [i] reads transport [i] with index [i], so every task finds its
    monitor; the async fifo is empty with capacity 100; each streamer
    table has one entry per DSP; and the streamers made so far are not
    counted anew. *)
Theorem io_init_builds_channels (sram : Z) (tick_rate0 : double)
    (self : umtrx_impl)
    (Hboards : Forall (λ entry, tx_pair_ok entry.2) (_mbc self)) :
  ∃ self' tasks,
    io_init sram tick_rate0 self = Ok (self', tasks)
    ∧ tx_xports (_io_impl self') = tx_pairs (_mbc self)
    ∧ fc_mons (_io_impl self')
      = (λ xport, make (window_of sram xport)) <$> tx_pairs (_mbc self)
    ∧ length (fc_mons (_io_impl self')) = (2 * length (_mbc self))%nat
    ∧ tasks = zip (tx_pairs (_mbc self))
                (seq 0 (length (fc_mons (_io_impl self'))))
    ∧ (∀ xport index, (xport, index) ∈ tasks →
         tx_xports (_io_impl self') !! index = Some xport
         ∧ fc_mons (_io_impl self') !! index
           = Some (make (window_of sram xport)))
    ∧ async_msg_fifo (_io_impl self') = bounded_buffer.make 100
    ∧ _mbc self' = (prod_map id init_streamer_tables <$> _mbc self)
    ∧ Forall (λ entry,
         length (rx_streamers entry.2) = length (rx_dsps entry.2)
         ∧ length (tx_streamers entry.2) = length (tx_dsps entry.2))
        (_mbc self')
    ∧ streamers_made self' = streamers_made self.
Proof.
  assert (Hboards' : Forall (λ entry, tx_pair_ok entry.2)
                       (prod_map id init_streamer_tables <$> _mbc self)).
  { apply Forall_fmap. eapply Forall_impl; [exact Hboards|].
    intros [mb c] Hc. exact Hc. }
  eexists _, _. split.
  { unfold io_init. rewrite init_tx_channels_ok by assumption. cbn.
    rewrite spawn_pirates_ok by assumption. cbn. reflexivity. }
  cbn. rewrite tx_pairs_init_streamer_tables, length_fmap.
  split; [reflexivity|]. split; [reflexivity|].
  split; [apply tx_pairs_length; assumption|]. split; [reflexivity|].
  split; [|split; [reflexivity|split; [reflexivity|split; [|reflexivity]]]].
  - intros xport index Hin.
    apply list_elem_of_lookup in Hin as [k Hk].
    apply lookup_zip_with_Some in Hk as (x & j & Heq & Hx & Hj).
    injection Heq as -> ->.
    apply lookup_seq in Hj as [-> _]. cbn.
    split; [assumption|]. rewrite list_lookup_fmap, Hx. reflexivity.
  - apply Forall_fmap, Forall_forall. intros [mb c] _. cbn.
    unfold resize_weak.
    split; rewrite length_app, length_take, length_replicate; lia.
Qed.

(** [get_send_buff] written out by the way the wait ends. *)
Lemma get_send_buff_cases chan events xport_buff io fc_mon :
  fc_mons io !! chan = Some fc_mon →
  ∃ fc_mon1,
    (check_fc_condition events fc_mon).1 = (Ok (ready fc_mon1), fc_mon1)
    ∧ _last_seq_out fc_mon1 = _last_seq_out fc_mon
    ∧ _max_seqs_out fc_mon1 = _max_seqs_out fc_mon
    ∧ get_send_buff chan events xport_buff io
      = if ready fc_mon1 then
          _ ← at_index (tx_xports io) chan;
          match xport_buff with
          | None => Ok (None, set_fc_mon chan fc_mon1 io)
          | Some [] => Undefined
          | Some (_ :: payload) =>
              Ok (Some (htonx (_last_seq_out fc_mon) :: payload),
                  set_fc_mon chan (get_curr_seq_out fc_mon1).2 io)
          end
        else Ok (None, set_fc_mon chan fc_mon1 io).
Proof.
  intros Hmon.
  destruct (check_fc_condition_returns events fc_mon)
    as (consumed & rest & Hcheck).
  destruct (after_events_last_seq_out consumed fc_mon) as [Hout Hmax].
  exists (after_events consumed fc_mon).
  split; [rewrite Hcheck; reflexivity|]. split; [exact Hout|].
  split; [exact Hmax|].
  unfold get_send_buff. rewrite (at_index_Some _ _ _ Hmon). cbn.
  rewrite Hcheck. cbn.
  destruct (ready (after_events consumed fc_mon)); cbn; [|reflexivity].
  destruct (at_index (tx_xports io) chan); cbn; try reflexivity.
  destruct xport_buff as [[|word0 payload]|]; try reflexivity.
  cbn. rewrite Hout. unfold set_fc_mon. cbn.
  rewrite list_insert_insert_eq. reflexivity.
Qed.

Lemma first_words_cons word0 payload buffs :
  first_words (Some (word0 :: payload) :: buffs) = word0 :: first_words buffs.
Proof. reflexivity. Qed.

(** X6.  Over any run of [get_send_buff] calls on a channel, with whatever
    waits and transport answers, the channel's sequence counter ends at
    its start plus the number of buffers handed out, modulo 2^32, and the
    buffers handed out carry in word 0 the consecutive sequence numbers
    from the start on, in network order: no number is skipped or used
    twice. *)
Theorem get_send_buffs_number_consecutively (chan : nat)
    (calls : list (list wait_event * option buffer_words)) (io : io_impl)
    (fc_mon : t)
    (Hmon : fc_mons io !! chan = Some fc_mon)
    (Hseq : is_seq (_last_seq_out fc_mon)) :
  match get_send_buffs chan calls io with
  | Ok (buffs, io') =>
      ∃ fc_mon',
        fc_mons io' !! chan = Some fc_mon'
        ∧ _last_seq_out fc_mon'
          = seq_type (_last_seq_out fc_mon
                      + Z.of_nat (length (first_words buffs)))
        ∧ first_words buffs
          = (λ k, htonx (seq_type (_last_seq_out fc_mon + Z.of_nat k)))
              <$> seq 0 (length (first_words buffs))
  | Throw _ => False
  | Undefined => True
  end.
Proof.
  revert io fc_mon Hmon Hseq.
  induction calls as [|[events xport_buff] calls IH];
    intros io fc_mon Hmon Hseq.
  - cbn. exists fc_mon. split; [assumption|]. split; [|reflexivity].
    rewrite Z.add_0_r. symmetry. unfold seq_type. apply Z.mod_small.
    exact Hseq.
  - assert (Hlen : (chan < length (fc_mons io))%nat)
      by (apply lookup_lt_is_Some; eauto).
    cbn [get_send_buffs].
    destruct (get_send_buff_cases chan events xport_buff io fc_mon Hmon)
      as (m1 & _ & Hout1 & _ & ->).
    assert (Hnone :
      match
        '(buffs, io2) ← get_send_buffs chan calls (set_fc_mon chan m1 io);
        Ok (None :: buffs, io2)
      with
      | Ok (buffs, io') =>
          ∃ fc_mon',
            fc_mons io' !! chan = Some fc_mon'
            ∧ _last_seq_out fc_mon'
              = seq_type (_last_seq_out fc_mon
                          + Z.of_nat (length (first_words buffs)))
            ∧ first_words buffs
              = (λ k, htonx (seq_type (_last_seq_out fc_mon + Z.of_nat k)))
                  <$> seq 0 (length (first_words buffs))
      | Throw _ => False
      | Undefined => True
      end).
    { specialize (IH (set_fc_mon chan m1 io) m1).
      destruct (get_send_buffs chan calls (set_fc_mon chan m1 io))
        as [[buffs io2]| |]; cbn.
      - rewrite <- Hout1. apply IH.
        + cbn. apply list_lookup_insert_eq. assumption.
        + rewrite Hout1. assumption.
      - apply IH.
        + cbn. apply list_lookup_insert_eq. assumption.
        + rewrite Hout1. assumption.
      - exact I. }
    destruct (ready m1); cbn [mbind outcome_bind]; [|exact Hnone].
    unfold at_index.
    destruct (tx_xports io !! chan); cbn [mbind outcome_bind]; [|exact I].
    destruct xport_buff as [[|word0 payload]|]; cbn [mbind outcome_bind];
      [exact I| |exact Hnone].
    set (m2 := (get_curr_seq_out m1).2).
    assert (Hm2 : _last_seq_out m2 = seq_type (_last_seq_out fc_mon + 1))
      by (subst m2; cbn; rewrite Hout1; reflexivity).
    assert (His2 : is_seq (_last_seq_out m2))
      by (rewrite Hm2; apply seq_type_range).
    assert (Hmon2 : fc_mons (set_fc_mon chan m2 io) !! chan = Some m2)
      by (cbn; apply list_lookup_insert_eq; assumption).
    generalize (IH (set_fc_mon chan m2 io) m2 Hmon2 His2).
    destruct (get_send_buffs chan calls (set_fc_mon chan m2 io))
      as [[buffs io2]| |]; cbn [mbind outcome_bind]; [|trivial|trivial].
    intros (m' & Hm' & Hout' & Hwords).
    exists m'. split; [assumption|].
    rewrite Hm2 in Hout', Hwords.
    rewrite first_words_cons. cbn [length]. split.
    + rewrite Hout', seq_type_plus_l. f_equal. lia.
    + cbn [seq fmap list_fmap]. f_equal.
      * rewrite Z.add_0_r. f_equal. symmetry. unfold seq_type.
        apply Z.mod_small. exact Hseq.
      * rewrite Hwords at 1. rewrite <- fmap_S_seq, <- list_fmap_compose.
        apply list_fmap_ext. intros _ k _. cbn.
        rewrite seq_type_plus_l. do 2 f_equal. lia.
Qed.

(** X7.  A transport frame larger than the SRAM gives its channel a window
    of 0, and [get_send_buff] on such a channel never hands out a buffer:
    it returns the null pointer after the whole timeout, whatever is
    acknowledged meanwhile and whatever the transport could give. *)
Theorem oversized_frame_blocks_channel (sram : Z) (xport : zero_copy_if)
    (chan : nat) (events : list wait_event)
    (xport_buff : option buffer_words) (io : io_impl)
    (Hsram : (0 ≤ sram < 2 ^ 64)%Z)
    (Hframe : (sram < Z.of_nat (get_send_frame_size xport))%Z)
    (Hmon : fc_mons io !! chan = Some (make (window_of sram xport))) :
  window_of sram xport = 0%Z
  ∧ get_send_buff chan events xport_buff io
    = Ok (None, set_fc_mon chan (after_events events (make 0)) io).
Proof.
  assert (Hzero : window_of sram xport = 0%Z).
  { unfold window_of, size_t. rewrite (Z.mod_small sram) by lia.
    rewrite Z.div_small by lia. reflexivity. }
  split; [exact Hzero|]. rewrite Hzero in Hmon.
  unfold get_send_buff. rewrite (at_index_Some _ _ _ Hmon). cbn.
  rewrite zero_window_always_times_out by reflexivity. reflexivity.
Qed.

End engine.

(** * Further properties of streamer creation *)

Section streamers.

Import flow_control_monitor.
Context `{!externals}.

Lemma bind_Ok_inv {A B} (m : outcome A) (k : A → outcome B) b :
  m ≫= k = Ok b → ∃ a, m = Ok a ∧ k a = Ok b.
Proof. destruct m as [a| |]; cbn; [eauto|discriminate|discriminate]. Qed.

Lemma at_index_Ok_inv {A} (vec : list A) i a :
  at_index vec i = Ok a → vec !! i = Some a.
Proof. unfold at_index. destruct (vec !! i); congruence. Qed.

Lemma rx_dsp_do_shape dsp call c c' mb :
  rx_dsp_do dsp call c = Ok c' → board_shape (mb, c') = board_shape (mb, c).
Proof.
  unfold rx_dsp_do. intros (core & _ & [= <-])%bind_Ok_inv.
  unfold board_shape. cbn. rewrite length_insert. reflexivity.
Qed.

Lemma tx_dsp_do_shape dsp call c c' mb :
  tx_dsp_do dsp call c = Ok c' → board_shape (mb, c') = board_shape (mb, c).
Proof.
  unfold tx_dsp_do. intros (core & _ & [= <-])%bind_Ok_inv.
  unfold board_shape. cbn. rewrite length_insert. reflexivity.
Qed.

Lemma set_rx_streamer_shape dsp streamer c c' mb :
  set_rx_streamer dsp streamer c = Ok c' →
  board_shape (mb, c') = board_shape (mb, c).
Proof.
  unfold set_rx_streamer. intros (w & _ & [= <-])%bind_Ok_inv.
  unfold board_shape. cbn. rewrite length_insert. reflexivity.
Qed.

Lemma set_tx_streamer_shape dsp streamer c c' mb :
  set_tx_streamer dsp streamer c = Ok c' →
  board_shape (mb, c') = board_shape (mb, c).
Proof.
  unfold set_tx_streamer. intros (w & _ & [= <-])%bind_Ok_inv.
  unfold board_shape. cbn. rewrite length_insert. reflexivity.
Qed.

(** What one walk over the boards can have done when it returns. *)
Lemma tx_bind_chan_outcome stream_args streamer chan_i chan mbs :
  ∀ num_chan_so_far abs fcs calls mbs' fcs' calls',
  tx_bind_chan stream_args streamer chan_i chan num_chan_so_far abs mbs
    fcs calls = Ok (mbs', fcs', calls') →
  board_shape <$> mbs' = board_shape <$> mbs
  ∧ ((mbs' = mbs ∧ fcs' = fcs ∧ calls' = calls)
     ∨ ∃ index,
         calls' = calls ++ [tx_set_xport_chan_get_buff chan_i index]
         ∧ if has_key (args stream_args) "noclear" then fcs' = fcs
           else ∃ fc_mon, fcs !! index = Some fc_mon
                          ∧ fcs' = <[index := clear fc_mon]> fcs).
Proof.
  induction mbs as [|[mb c] mbs IH];
    intros so_far abs fcs calls mbs' fcs' calls' Hbind.
  - injection Hbind as <- <- <-. split; [reflexivity|]. left. auto.
  - cbn [tx_bind_chan] in Hbind.
    destruct (_ <? _)%nat.
    + apply bind_Ok_inv in Hbind as ([c1 fcs1] & Hclear & Hbind).
      apply bind_Ok_inv in Hbind as (c2 & Hpolicy & Hbind).
      apply bind_Ok_inv in Hbind as (c3 & Hweak & [= <- <- <-]).
      assert (Hshape1 : board_shape (mb, c1) = board_shape (mb, c)
                ∧ if has_key (args stream_args) "noclear" then fcs1 = fcs
                  else ∃ fc_mon,
                         fcs !! (abs + (chan + tx_chan_occ c
                                        - (so_far + tx_chan_occ c)))%nat
                         = Some fc_mon
                         ∧ fcs1 = <[(abs + (chan + tx_chan_occ c
                                            - (so_far + tx_chan_occ c)))%nat
                                    := clear fc_mon]> fcs).
      { destruct (has_key (args stream_args) "noclear"); cbn in Hclear.
        - injection Hclear as <- <-. auto.
        - apply bind_Ok_inv in Hclear as (c1' & Hdo & Hclear).
          apply bind_Ok_inv in Hclear as (fc_mon & Hmon & [= <- <-]).
          split; [eapply tx_dsp_do_shape; eassumption|].
          exists fc_mon. split; [apply at_index_Ok_inv; assumption|reflexivity]. }
      destruct Hshape1 as [Hshape1 Hfcs].
      assert (Hshape2 : board_shape (mb, c2) = board_shape (mb, c1)).
      { destruct (has_key (args stream_args) "underflow_policy").
        - apply bind_Ok_inv in Hpolicy as (policy & _ & Hdo).
          eapply tx_dsp_do_shape; eassumption.
        - injection Hpolicy as <-. reflexivity. }
      split.
      * cbn [fmap list_fmap].
        rewrite (set_tx_streamer_shape _ _ _ _ mb Hweak), Hshape2, Hshape1.
        reflexivity.
      * right. eexists. split; [reflexivity|exact Hfcs].
    + apply bind_Ok_inv in Hbind as ([[rest1 fcs1] calls1] & Hrest & [= <- <- <-]).
      apply IH in Hrest as [Hshape Hcases]. split.
      * cbn [fmap list_fmap]. f_equal. exact Hshape.
      * destruct Hcases as [(-> & -> & ->)|Hbound]; [left; auto|right; exact Hbound].
Qed.

Lemma rx_bind_chan_outcome stream_args spp sc8_scalar streamer chan_i chan
    mbs : ∀ num_chan_so_far calls mbs' calls',
  rx_bind_chan stream_args spp sc8_scalar streamer chan_i chan
    num_chan_so_far mbs calls = Ok (mbs', calls') →
  board_shape <$> mbs' = board_shape <$> mbs.
Proof.
  induction mbs as [|[mb c] mbs IH]; intros so_far calls mbs' calls' Hbind.
  - injection Hbind as <- <-. reflexivity.
  - cbn [rx_bind_chan] in Hbind.
    destruct (_ <? _)%nat.
    + apply bind_Ok_inv in Hbind as (c1 & H1 & Hbind).
      apply bind_Ok_inv in Hbind as (c2 & H2 & Hbind).
      apply bind_Ok_inv in Hbind as (c3 & H3 & Hbind).
      apply bind_Ok_inv in Hbind as (x & _ & Hbind).
      apply bind_Ok_inv in Hbind as (c4 & H4 & [= <- <-]).
      cbn [fmap list_fmap].
      rewrite (set_rx_streamer_shape _ _ _ _ mb H4),
        (rx_dsp_do_shape _ _ _ _ mb H3).
      assert (Hshape2 : board_shape (mb, c2) = board_shape (mb, c1)).
      { destruct (negb _); [eapply rx_dsp_do_shape; eassumption|].
        injection H2 as <-. reflexivity. }
      rewrite Hshape2, (rx_dsp_do_shape _ _ _ _ mb H1). reflexivity.
    + apply bind_Ok_inv in Hbind as ([rest1 calls1] & Hrest & [= <- <-]).
      cbn [fmap list_fmap]. f_equal. eapply IH. eassumption.
Qed.

Lemma rx_bind_chans_shape stream_args spp sc8_scalar streamer chans :
  ∀ chan_i mbs calls mbs' calls',
  rx_bind_chans stream_args spp sc8_scalar streamer chan_i chans mbs calls
  = Ok (mbs', calls') →
  board_shape <$> mbs' = board_shape <$> mbs.
Proof.
  induction chans as [|chan chans IH]; intros chan_i mbs calls mbs' calls' Hb.
  - injection Hb as <- <-. reflexivity.
  - cbn [rx_bind_chans] in Hb.
    apply bind_Ok_inv in Hb as ([mbs1 calls1] & Hone & Hrest).
    apply rx_bind_chan_outcome in Hone. apply IH in Hrest. congruence.
Qed.

(** What the loop over the requested channels can have done to the
    monitors and to the streamer when it returns. *)
Lemma tx_bind_chans_outcome stream_args streamer chans :
  ∀ chan_i mbs fcs calls mbs' fcs' calls',
  tx_bind_chans stream_args streamer chan_i chans mbs fcs calls
  = Ok (mbs', fcs', calls') →
  board_shape <$> mbs' = board_shape <$> mbs
  ∧ (∀ i m, fcs !! i = Some m →
       ∃ m', fcs' !! i = Some m' ∧ (m' = m ∨ m' = clear m))
  ∧ length fcs' = length fcs
  ∧ (has_key (args stream_args) "noclear" = true → fcs' = fcs)
  ∧ ∃ new,
      calls' = calls ++ new
      ∧ (has_key (args stream_args) "noclear" = false →
         ∀ call, call ∈ new →
           ∃ position index m,
             call = tx_set_xport_chan_get_buff position index
             ∧ fcs' !! index = Some m ∧ cleared m).
Proof.
  induction chans as [|chan chans IH];
    intros chan_i mbs fcs calls mbs' fcs' calls' Hb.
  - injection Hb as <- <- <-. split; [reflexivity|].
    split; [intros i m Hm; exists m; auto|]. split; [reflexivity|].
    split; [reflexivity|]. exists []. rewrite app_nil_r. split; [reflexivity|].
    intros _ call Hin. apply elem_of_nil in Hin. contradiction.
  - cbn [tx_bind_chans] in Hb.
    apply bind_Ok_inv in Hb as ([[mbs1 fcs1] calls1] & Hone & Hrest).
    apply tx_bind_chan_outcome in Hone as [Hshape1 Hone].
    apply IH in Hrest as (Hshape2 & Hmons2 & Hlen2 & Hsame2 & new2 & -> & Hnew2).
    split; [congruence|].
    destruct Hone as [(-> & -> & ->)|(index & -> & Hfcs)].
    + split; [exact Hmons2|]. split; [exact Hlen2|]. split; [exact Hsame2|].
      exists new2. split; [reflexivity|exact Hnew2].
    + destruct (has_key (args stream_args) "noclear") eqn:Hkey.
      * subst fcs1. split; [exact Hmons2|]. split; [exact Hlen2|].
        split; [exact Hsame2|]. eexists. rewrite <- app_assoc.
        split; [reflexivity|discriminate].
      * destruct Hfcs as (fc_mon & Hmon & ->).
        assert (Hidx : (index < length fcs)%nat)
          by (apply lookup_lt_is_Some; eauto).
        split; [|split; [|split; [discriminate|]]].
        -- intros i m Hm. destruct (decide (i = index)) as [->|Hne].
           ++ destruct (Hmons2 index (clear fc_mon)) as (m' & Hm' & Hor).
              { apply list_lookup_insert_eq. assumption. }
              exists m'. split; [assumption|]. right.
              assert (m = fc_mon) as -> by congruence.
              destruct Hor as [->| ->]; reflexivity.
           ++ apply Hmons2. rewrite list_lookup_insert_ne by congruence.
              assumption.
        -- rewrite Hlen2. apply length_insert.
        -- eexists. rewrite <- app_assoc. split; [reflexivity|].
           intros _ call Hin. apply elem_of_cons in Hin as [->|Hin].
           ++ destruct (Hmons2 index (clear fc_mon)) as (m' & Hm' & Hor).
              { apply list_lookup_insert_eq. assumption. }
              exists chan_i, index, m'. split; [reflexivity|].
              split; [assumption|].
              destruct Hor as [->| ->]; split; reflexivity.
           ++ apply Hnew2; [reflexivity|assumption].
Qed.

Lemma tick_rate_calls_all {call} (P : call → Prop) streamer told table :
  P told → Forall P (tick_rate_calls streamer told table).
Proof.
  intros Htold. unfold tick_rate_calls.
  induction table as [|weak table IH]; [constructor|].
  cbn. destruct (decide (weak = Some streamer)); cbn; [constructor|];
    assumption.
Qed.

Lemma for_each_dsp_all {call} (P : call → Prop) update dsps :
  (∀ dsp calls, update dsp = Ok calls → Forall P calls) →
  ∀ calls, for_each_dsp update dsps = Ok calls → Forall P (calls : list call).
Proof.
  intros Hupdate. induction dsps as [|dsp dsps IH]; intros calls Hall.
  - injection Hall as <-. constructor.
  - cbn [for_each_dsp] in Hall.
    apply bind_Ok_inv in Hall as (calls1 & Hone & Hall).
    apply bind_Ok_inv in Hall as (calls2 & Hmore & [= <-]).
    apply Forall_app. split; [eapply Hupdate; eassumption|apply IH; assumption].
Qed.

Lemma update_rx_samp_rate_calls mb c streamer dsp calls :
  update_rx_samp_rate mb c streamer dsp = Ok calls →
  Forall is_rx_rate_call calls.
Proof.
  unfold update_rx_samp_rate. intros (weak & _ & Hcalls)%bind_Ok_inv.
  destruct (decide (weak = Some streamer)).
  - apply bind_Ok_inv in Hcalls as (core & _ & [= <-]).
    repeat constructor.
  - injection Hcalls as <-. constructor.
Qed.

Lemma update_tx_samp_rate_calls mb c streamer dsp calls :
  update_tx_samp_rate mb c streamer dsp = Ok calls →
  Forall is_tx_rate_call calls.
Proof.
  unfold update_tx_samp_rate. intros (weak & _ & Hcalls)%bind_Ok_inv.
  destruct (decide (weak = Some streamer)); injection Hcalls as <-;
    repeat constructor.
Qed.

(** What [update_rates] leaves behind: the boards, the transports, the
    monitors and the fifo as they were, the tick rate of the last board as
    [tick_rate], and nothing but rate calls on the streamer. *)
Lemma update_rates_from_outcome mbs : ∀ streamer self rx_rates tx_rates self',
  update_rates_from mbs streamer self = Ok (rx_rates, tx_rates, self') →
  _mbc self' = _mbc self
  ∧ streamers_made self' = streamers_made self
  ∧ tx_xports (_io_impl self') = tx_xports (_io_impl self)
  ∧ fc_mons (_io_impl self') = fc_mons (_io_impl self)
  ∧ async_msg_fifo (_io_impl self') = async_msg_fifo (_io_impl self)
  ∧ tick_rate (_io_impl self')
    = from_option tree_tick_rate (tick_rate (_io_impl self)) (last mbs.*1)
  ∧ Forall is_rx_rate_call rx_rates
  ∧ Forall is_tx_rate_call tx_rates.
Proof.
  induction mbs as [|[mb c] mbs IH];
    intros streamer self rx_rates tx_rates self' Hrates.
  - injection Hrates as <- <- <-. repeat split; constructor.
  - cbn [update_rates_from] in Hrates. unfold update_tick_rate in Hrates.
    apply bind_Ok_inv in Hrates as (rx_rate & Hrx & Hrates).
    apply bind_Ok_inv in Hrates as (tx_rate & Htx & Hrates).
    apply bind_Ok_inv in Hrates as ([[rx_more tx_more] self2] & Hmore & Hrates).
    injection Hrates as <- <- <-.
    apply IH in Hmore
      as (Hmbc & Hmade & Hxports & Hmons & Hfifo & Htick & Hrxs & Htxs).
    cbn in Hmbc, Hmade, Hxports, Hmons, Hfifo, Htick.
    split; [assumption|]. split; [assumption|]. split; [assumption|].
    split; [assumption|]. split; [assumption|]. split.
    + rewrite Htick. cbn [fmap list_fmap fst]. rewrite last_cons.
      destruct (last mbs.*1); reflexivity.
    + split; repeat (apply Forall_app; split); try assumption.
      * clear. induction (_mbc self) as [|entry mbs IH]; [constructor|].
        cbn. apply Forall_app. split; [|exact IH].
        apply tick_rate_calls_all. exact I.
      * eapply for_each_dsp_all; [|exact Hrx].
        intros dsp calls. apply update_rx_samp_rate_calls.
      * clear. induction (_mbc self) as [|entry mbs IH]; [constructor|].
        cbn. apply Forall_app. split; [|exact IH].
        apply tick_rate_calls_all. exact I.
      * eapply for_each_dsp_all; [|exact Htx].
        intros dsp calls. apply update_tx_samp_rate_calls.
Qed.

Lemma get_tx_stream_Ok_inv args_ self my_streamer self' :
  get_tx_stream args_ self = (Ok my_streamer, self') →
  otw_format (with_defaults args_) = "sc16"
  ∧ ∃ mb0 xport0 spp mbs1 fcs1 calls1 rx_rates tx_rates,
      front_mb self = Ok mb0
      ∧ tx_dsp_xports mb0 !! 0%nat = Some xport0
      ∧ size_t_div
          (size_t (Z.of_nat (get_send_frame_size xport0) - tx_hdr_size))
          (get_bytes_per_item "sc16") = Ok spp
      ∧ tx_bind_chans (with_defaults args_) (streamers_made self) 0
          (channels (with_defaults args_)) (_mbc self)
          (fc_mons (_io_impl self))
          [tx_resize (length (channels (with_defaults args_)));
           tx_set_vrt_packer vrt_send_header_offset_words32;
           tx_set_converter
             {| input_format := cpu_format (with_defaults args_);
                num_inputs := 1;
                output_format := "sc16_item32_be";
                num_outputs := 1 |}]
        = Ok (mbs1, fcs1, calls1)
      ∧ update_rates (streamers_made self)
          {| _mbc := mbs1;
             _io_impl := set_fc_mons fcs1 (_io_impl self);
             streamers_made := S (streamers_made self) |}
        = Ok (rx_rates, tx_rates, self')
      ∧ tx_calls my_streamer = calls1 ++ tx_rates
      ∧ tx_streamer_id my_streamer = streamers_made self
      ∧ tx_samps_per_packet my_streamer = spp.
Proof.
  unfold get_tx_stream.
  destruct (bool_decide (otw_format (with_defaults args_) ≠ "sc16"))
    eqn:Hfmt; [discriminate|].
  apply bool_decide_eq_false in Hfmt.
  assert (Hsc16 : otw_format (with_defaults args_) = "sc16").
  { destruct (decide (otw_format (with_defaults args_) = "sc16"));
      [assumption|contradiction]. }
  rewrite Hsc16. clear Hfmt. intros Hmade. split; [reflexivity|].
  destruct (front_mb self) as [mb0| |] eqn:Hfront; try discriminate.
  cbn [mbind outcome_bind] in Hmade.
  destruct (at_index (tx_dsp_xports mb0) 0) as [xport0| |] eqn:Hx;
    try discriminate.
  cbn [mbind outcome_bind] in Hmade.
  destruct (size_t_div _ _) as [spp| |] eqn:Hspp; try discriminate.
  cbn [mbind outcome_bind] in Hmade.
  destruct (tx_bind_chans _ _ _ _ _ _ _) as [[[mbs1 fcs1] calls1]| |] eqn:Hb;
    try discriminate.
  cbn [mbind outcome_bind] in Hmade.
  destruct (update_rates _ _) as [[[rx_rates tx_rates] self1]| |] eqn:Hrates;
    try discriminate.
  cbn in Hmade. injection Hmade as <- <-.
  exists mb0, xport0, spp, mbs1, fcs1, calls1, rx_rates, tx_rates.
  split; [reflexivity|]. split; [apply at_index_Ok_inv; assumption|].
  repeat split; assumption.
Qed.

Lemma rx_chans_shape mbs mbs' :
  board_shape <$> mbs' = board_shape <$> mbs →
  rx_chans mbs' = rx_chans mbs ∧ tx_chans mbs' = tx_chans mbs
  ∧ mbs'.*1 = mbs.*1.
Proof.
  revert mbs'. induction mbs as [|[mb c] mbs IH]; intros [|[mb' c'] mbs'] Hs;
    try discriminate; [repeat split|].
  injection Hs as Hmb Hrx Htx _ _ _ _ _ _ Hrest.
  destruct (IH mbs' Hrest) as (Hr & Ht & Hk).
  unfold rx_chans, tx_chans in *. cbn in *. repeat split; congruence.
Qed.

Lemma get_rx_stream_Ok_inv args_ self my_streamer self' :
  get_rx_stream args_ self = (Ok my_streamer, self') →
  ∃ mb0 xport0 mbs1 calls1 rx_rates tx_rates,
    front_mb self = Ok mb0
    ∧ rx_dsp_xports mb0 !! 0%nat = Some xport0
    ∧ size_t_div
        (size_t (Z.of_nat (get_recv_frame_size xport0) - rx_hdr_size))
        (get_bytes_per_item (otw_format (with_defaults args_)))
      = Ok (rx_samps_per_packet my_streamer)
    ∧ rx_bind_chans (with_defaults args_) (rx_samps_per_packet my_streamer)
        (sc8_scalar_of (args (with_defaults args_))) (streamers_made self) 0
        (channels (with_defaults args_)) (_mbc self)
        [rx_resize (length (channels (with_defaults args_)));
         rx_set_vrt_unpacker;
         rx_set_converter
           {| input_format :=
                otw_format (with_defaults args_) +:+ "_item32_be";
              num_inputs := 1;
              output_format := cpu_format (with_defaults args_);
              num_outputs := 1 |}]
      = Ok (mbs1, calls1)
    ∧ update_rates (streamers_made self)
        {| _mbc := mbs1;
           _io_impl := _io_impl self;
           streamers_made := S (streamers_made self) |}
      = Ok (rx_rates, tx_rates, self')
    ∧ rx_calls my_streamer
      = calls1
        ++ [rx_set_alignment_failure_threshold
              (packets_per_sock_buff_of (get_recv_frame_size xport0))]
        ++ rx_rates
    ∧ rx_streamer_id my_streamer = streamers_made self.
Proof.
  unfold get_rx_stream. intros Hmade.
  destruct (front_mb self) as [mb0| |] eqn:Hfront; try discriminate.
  cbn [mbind outcome_bind] in Hmade.
  destruct (at_index (rx_dsp_xports mb0) 0) as [xport0| |] eqn:Hx;
    try discriminate.
  cbn [mbind outcome_bind] in Hmade.
  destruct (size_t_div _ _) as [spp| |] eqn:Hspp; try discriminate.
  cbn [mbind outcome_bind] in Hmade.
  destruct (rx_bind_chans _ _ _ _ _ _ _ _) as [[mbs1 calls1]| |] eqn:Hb;
    try discriminate.
  cbn [mbind outcome_bind] in Hmade.
  destruct (update_rates _ _) as [[[rx_rates tx_rates] self1]| |] eqn:Hrates;
    try discriminate.
  cbn in Hmade. injection Hmade as <- <-.
  exists mb0, xport0, mbs1, calls1, rx_rates, tx_rates.
  split; [reflexivity|]. split; [apply at_index_Ok_inv; assumption|].
  repeat split; assumption.
Qed.

Lemma front_mb_last self mb0 :
  front_mb self = Ok mb0 → ∃ mb, last (_mbc self).*1 = Some mb.
Proof.
  unfold front_mb. destruct (_mbc self) as [|entry mbs] eqn:Hmbs;
    [discriminate|].
  intros _. destruct (last ((entry :: mbs).*1)) as [mb|] eqn:Hlast; [eauto|].
  apply last_None in Hlast. discriminate.
Qed.

(** X8.  A receive streamer that [get_rx_stream] returns has left every
    board with its key, its channel occupancies and the sizes of all its
    tables, so the logical channel numbering is what it was.  Of the io
    implementation the transports, the flow control monitors and the async
    fifo are untouched, while [tick_rate] has been set by the closing
    [update_rates]: it is the tick rate of the board registered last.
    The streamer carries the next unused id and the count of streamers
    goes up by one. *)
Theorem get_rx_stream_keeps_boards (args_ : stream_args_t)
    (self self' : umtrx_impl) (my_streamer : recv_packet_streamer)
    (Hmade : get_rx_stream args_ self = (Ok my_streamer, self')) :
  board_shape <$> _mbc self' = board_shape <$> _mbc self
  ∧ rx_chans (_mbc self') = rx_chans (_mbc self)
  ∧ tx_chans (_mbc self') = tx_chans (_mbc self)
  ∧ tx_xports (_io_impl self') = tx_xports (_io_impl self)
  ∧ fc_mons (_io_impl self') = fc_mons (_io_impl self)
  ∧ async_msg_fifo (_io_impl self') = async_msg_fifo (_io_impl self)
  ∧ (∃ mb, last (_mbc self).*1 = Some mb
           ∧ tick_rate (_io_impl self') = tree_tick_rate mb)
  ∧ rx_streamer_id my_streamer = streamers_made self
  ∧ streamers_made self' = S (streamers_made self).
Proof.
  apply get_rx_stream_Ok_inv in Hmade
    as (mb0 & xport0 & mbs1 & calls1 & rx_rates & tx_rates
        & Hfront & _ & _ & Hb & Hrates & _ & Hid).
  apply rx_bind_chans_shape in Hb.
  apply update_rates_from_outcome in Hrates
    as (Hmbc & Hmade & Hxports & Hmons & Hfifo & Htick & _).
  cbn in Hmbc, Hmade, Hxports, Hmons, Hfifo, Htick.
  destruct (rx_chans_shape _ _ Hb) as (Hrx & Htx & Hkeys).
  destruct (front_mb_last self mb0 Hfront) as [mb Hlast].
  rewrite Hmbc.
  split; [assumption|]. split; [assumption|]. split; [assumption|].
  split; [assumption|]. split; [assumption|]. split; [assumption|].
  split; [|split; assumption].
  exists mb. split; [assumption|]. rewrite Htick, Hkeys, Hlast. reflexivity.
Qed.

(** X9.  A transmit streamer that [get_tx_stream] returns has left every
    board with its key, occupancies and table sizes, and the transports
    and the async fifo as they were.  There are as many flow control
    monitors as before and each is either unchanged or cleared, so no
    window moves; with "noclear" among the arguments no monitor changes at
    all.  [tick_rate] has been set by the closing [update_rates]: it is
    the tick rate of the board registered last.  The streamer carries the
    next unused id. *)
Theorem get_tx_stream_keeps_engine (args_ : stream_args_t)
    (self self' : umtrx_impl) (my_streamer : send_packet_streamer)
    (Hmade : get_tx_stream args_ self = (Ok my_streamer, self')) :
  board_shape <$> _mbc self' = board_shape <$> _mbc self
  ∧ tx_chans (_mbc self') = tx_chans (_mbc self)
  ∧ tx_xports (_io_impl self') = tx_xports (_io_impl self)
  ∧ async_msg_fifo (_io_impl self') = async_msg_fifo (_io_impl self)
  ∧ (∃ mb, last (_mbc self).*1 = Some mb
           ∧ tick_rate (_io_impl self') = tree_tick_rate mb)
  ∧ length (fc_mons (_io_impl self')) = length (fc_mons (_io_impl self))
  ∧ (∀ i m, fc_mons (_io_impl self) !! i = Some m →
       ∃ m', fc_mons (_io_impl self') !! i = Some m'
             ∧ (m' = m ∨ m' = clear m))
  ∧ (has_key (args args_) "noclear" = true →
     fc_mons (_io_impl self') = fc_mons (_io_impl self))
  ∧ tx_streamer_id my_streamer = streamers_made self
  ∧ streamers_made self' = S (streamers_made self).
Proof.
  apply get_tx_stream_Ok_inv in Hmade
    as (_ & mb0 & xport0 & spp & mbs1 & fcs1 & calls1 & rx_rates & tx_rates
        & Hfront & _ & _ & Hb & Hrates & _ & Hid & _).
  apply tx_bind_chans_outcome in Hb
    as (Hshape & Hmons & Hlen & Hsame & _).
  apply update_rates_from_outcome in Hrates
    as (Hmbc & Hmade & Hxports & Hfcs & Hfifo & Htick & _).
  cbn in Hmbc, Hmade, Hxports, Hfcs, Hfifo, Htick.
  destruct (rx_chans_shape _ _ Hshape) as (_ & Htx & Hkeys).
  destruct (front_mb_last self mb0 Hfront) as [mb Hlast].
  rewrite Hmbc, Hfcs.
  split; [assumption|]. split; [assumption|]. split; [assumption|].
  split; [assumption|]. split.
  { exists mb. split; [assumption|]. rewrite Htick, Hkeys, Hlast.
    reflexivity. }
  repeat split; assumption.
Qed.

(** X10.  Unless "noclear" is among the arguments, every channel that a
    new transmit streamer is bound to starts over: the flow control
    monitor behind each [set_xport_chan_get_buff] call is the old one
    cleared.  If its window is not 0 and its transport exists, the first
    [get_send_buff] on it hands out the transport's buffer at once, with
    sequence number 0 in word 0. *)
Theorem new_tx_streamer_starts_at_zero (args_ : stream_args_t)
    (self self' : umtrx_impl) (my_streamer : send_packet_streamer)
    (position index : nat)
    (Hclear : has_key (args args_) "noclear" = false)
    (Hmade : get_tx_stream args_ self = (Ok my_streamer, self'))
    (Hbound : tx_set_xport_chan_get_buff position index
              ∈ tx_calls my_streamer) :
  ∃ fc_mon,
    fc_mons (_io_impl self) !! index = Some fc_mon
    ∧ fc_mons (_io_impl self') !! index = Some (clear fc_mon)
    ∧ ∀ events word0 payload,
        (0 < _max_seqs_out fc_mon)%Z →
        is_Some (tx_xports (_io_impl self) !! index) →
        ∃ io',
          get_send_buff index events (Some (word0 :: payload))
            (_io_impl self')
          = Ok (Some (htonx 0 :: payload), io').
Proof.
  apply get_tx_stream_Ok_inv in Hmade
    as (_ & mb0 & xport0 & spp & mbs1 & fcs1 & calls1 & rx_rates & tx_rates
        & _ & _ & _ & Hb & Hrates & Htx_calls & _ & _).
  apply tx_bind_chans_outcome in Hb
    as (_ & Hmons & Hlen & _ & new & Hcalls & Hnew).
  apply update_rates_from_outcome in Hrates
    as (_ & _ & Hxports & Hfcs & _ & _ & _ & Hrate_calls).
  cbn in Hxports, Hfcs.
  rewrite Htx_calls, Hcalls in Hbound.
  apply elem_of_app in Hbound as [Hbound|Hrate];
    [|rewrite Forall_forall in Hrate_calls;
      destruct (Hrate_calls _ Hrate)].
  apply elem_of_app in Hbound as [Hinit|Hbound].
  { repeat (apply elem_of_cons in Hinit as [Hinit|Hinit];
            [discriminate|]).
    apply elem_of_nil in Hinit. contradiction. }
  destruct (Hnew Hclear _ Hbound) as (p & i & m' & [= <- <-] & Hm' & Hout & Hack).
  assert (Hlt : (index < length (fc_mons (_io_impl self)))%nat)
    by (rewrite <- Hlen; apply lookup_lt_is_Some; eauto).
  destruct (lookup_lt_is_Some_2 _ _ Hlt) as [fc_mon Hmon].
  destruct (Hmons index fc_mon Hmon) as (m'' & Hm'' & Hor).
  assert (m'' = m') as -> by congruence.
  assert (Hcl : m' = clear fc_mon).
  { destruct Hor as [->| ->]; [|reflexivity].
    destruct fc_mon as [out ack max]. cbn in Hout, Hack. subst.
    reflexivity. }
  subst m'. rewrite <- Hfcs in Hm'.
  exists fc_mon. split; [assumption|]. split; [assumption|].
  intros events word0 payload Hwin [xport Hxport].
  assert (Hready : ready (clear fc_mon) = true).
  { unfold ready. cbn. apply Z.ltb_lt. assumption. }
  rewrite <- Hxports in Hxport.
  eexists. unfold get_send_buff.
  rewrite (at_index_Some _ _ _ Hm'). cbn [mbind outcome_bind].
  unfold check_fc_condition. rewrite Hready. cbn.
  rewrite (at_index_Some _ _ _ Hxport). cbn. reflexivity.
Qed.

Lemma has_key_dict_get d key :
  has_key d key = true → ∃ value, dict_get d key = Ok value.
Proof.
  unfold has_key. intros Hin%bool_decide_eq_true.
  induction d as [|[k v] d IH]; [apply elem_of_nil in Hin; contradiction|].
  cbn. destruct (decide (k = key)) as [->|Hne]; [eauto|].
  apply IH. cbn in Hin. apply elem_of_cons in Hin as [->|Hin];
    [contradiction|assumption].
Qed.

Lemma tx_bind_chan_skips stream_args streamer chan_i chan pre :
  ∀ num_chan_so_far abs mbs fcs calls,
  (num_chan_so_far + tx_chans pre ≤ chan)%nat →
  tx_bind_chan stream_args streamer chan_i chan num_chan_so_far abs
    (pre ++ mbs) fcs calls
  = '(mbs1, fcs1, calls1) ←
      tx_bind_chan stream_args streamer chan_i chan
        (num_chan_so_far + tx_chans pre) (abs + 2 * length pre) mbs fcs
        calls;
    Ok (pre ++ mbs1, fcs1, calls1).
Proof.
  induction pre as [|[mb c] pre IH]; intros so_far abs mbs fcs calls Hle.
  - cbn. rewrite !Nat.add_0_r.
    destruct (tx_bind_chan _ _ _ _ _ _ _ _ _) as [[[? ?] ?]| |]; reflexivity.
  - rewrite tx_chans_cons in Hle. cbn [tx_bind_chan app].
    rewrite (proj2 (Nat.ltb_ge _ _)) by lia.
    rewrite IH by lia. rewrite tx_chans_cons. cbn [length].
    replace (so_far + tx_chan_occ c + tx_chans pre)%nat
      with (so_far + (tx_chan_occ c + tx_chans pre))%nat by lia.
    replace (abs + 2 + 2 * length pre)%nat
      with (abs + 2 * S (length pre))%nat by lia.
    destruct (tx_bind_chan _ _ _ _ _ _ _ _ _) as [[[? ?] ?]| |]; reflexivity.
Qed.

Lemma tx_dsp_do_Ok dsp call c core :
  tx_dsps c !! dsp = Some core →
  tx_dsp_do dsp call c
  = Ok {| rx_dsp_xports := rx_dsp_xports c;
          tx_dsp_xports := tx_dsp_xports c;
          rx_dsps := rx_dsps c;
          tx_dsps := <[dsp := core ++ [call]]> (tx_dsps c);
          rx_streamers := rx_streamers c;
          tx_streamers := tx_streamers c;
          rx_chan_occ := rx_chan_occ c;
          tx_chan_occ := tx_chan_occ c |}.
Proof.
  intros Hcore. unfold tx_dsp_do. rewrite (at_index_Some _ _ _ Hcore).
  reflexivity.
Qed.

Lemma tx_bind_chan_here stream_args streamer chan_i chan num_chan_so_far abs
    mb c post fcs calls core fc_mon :
  (num_chan_so_far ≤ chan)%nat →
  (chan < num_chan_so_far + tx_chan_occ c)%nat →
  tx_dsps c !! (chan - num_chan_so_far)%nat = Some core →
  (chan - num_chan_so_far < length (tx_streamers c))%nat →
  fcs !! (abs + (chan - num_chan_so_far))%nat = Some fc_mon →
  tx_bind_chan stream_args streamer chan_i chan num_chan_so_far abs
    ((mb, c) :: post) fcs calls
  = Ok ((mb, tx_bound stream_args streamer (chan - num_chan_so_far) core c)
          :: post,
        (if has_key (args stream_args) "noclear" then fcs
         else <[(abs + (chan - num_chan_so_far))%nat := clear fc_mon]> fcs),
        calls ++ [tx_set_xport_chan_get_buff chan_i
                    (abs + (chan - num_chan_so_far))]).
Proof.
  intros Hlo Hhi Hcore Hs Hmon.
  assert (Hd : (chan - num_chan_so_far < length (tx_dsps c))%nat)
    by (apply lookup_lt_is_Some; eauto).
  cbn [tx_bind_chan].
  rewrite (proj2 (Nat.ltb_lt _ _)) by lia.
  replace (chan + tx_chan_occ c - (num_chan_so_far + tx_chan_occ c))%nat
    with (chan - num_chan_so_far)%nat by lia.
  set (dsp := (chan - num_chan_so_far)%nat) in *.
  destruct (lookup_lt_is_Some_2 _ _ Hs) as [weak Hweak].
  unfold tx_bound, tx_policy_calls.
  destruct (has_key (args stream_args) "noclear"); cbn [negb];
    destruct (has_key (args stream_args) "underflow_policy") eqn:Hpol.
  - destruct (has_key_dict_get _ _ Hpol) as [policy ->].
    cbn [mbind outcome_bind].
    rewrite (tx_dsp_do_Ok _ _ _ core Hcore). cbn [mbind outcome_bind].
    unfold set_tx_streamer. cbn [tx_streamers].
    rewrite (at_index_Some _ _ _ Hweak). reflexivity.
  - cbn [mbind outcome_bind]. unfold set_tx_streamer.
    rewrite (at_index_Some _ _ _ Hweak). cbn.
    rewrite app_nil_r, (list_insert_id _ _ _ Hcore). reflexivity.
  - rewrite (tx_dsp_do_Ok _ _ _ core Hcore). cbn [mbind outcome_bind].
    rewrite (at_index_Some _ _ _ Hmon). cbn [mbind outcome_bind].
    destruct (has_key_dict_get _ _ Hpol) as [policy ->].
    cbn [mbind outcome_bind].
    erewrite tx_dsp_do_Ok
      by (cbn [tx_dsps]; apply list_lookup_insert_eq; assumption).
    cbn [mbind outcome_bind]. unfold set_tx_streamer. cbn [tx_streamers].
    rewrite (at_index_Some _ _ _ Hweak). cbn.
    rewrite list_insert_insert_eq, <- app_assoc. reflexivity.
  - rewrite (tx_dsp_do_Ok _ _ _ core Hcore). cbn [mbind outcome_bind].
    rewrite (at_index_Some _ _ _ Hmon). cbn [mbind outcome_bind].
    unfold set_tx_streamer. cbn [tx_streamers].
    rewrite (at_index_Some _ _ _ Hweak). cbn. reflexivity.
Qed.

(** X11.  In [get_tx_stream] the walk over the boards passes over the
    boards registered before [mb] untouched and binds position [chan_i]
    to the send buffers of flow control monitor [2 * length pre + dsp],
    where [dsp] is the offset of [chan] within board [mb]: two monitors
    are counted for every earlier board whatever its occupancy.  The
    board's DSP core is cleared and that monitor with it unless "noclear"
    is given, the underflow policy is passed on when present, no other
    monitor changes, and the board's weak pointer for the slot names the
    new streamer. *)
Theorem tx_bind_chan_resolves
    (stream_args : stream_args_t) (streamer chan_i chan : nat)
    (pre post : list (string * mb_container)) (mb : string)
    (c : mb_container) (fcs : list t) (calls : list tx_streamer_call)
    (core : list tx_dsp_call) (fc_mon : t)
    (Hlo : (tx_chans pre ≤ chan)%nat)
    (Hhi : (chan < tx_chans pre + tx_chan_occ c)%nat)
    (Hcore : tx_dsps c !! (chan - tx_chans pre)%nat = Some core)
    (Hweak : (chan - tx_chans pre < length (tx_streamers c))%nat)
    (Hmon : fcs !! (2 * length pre + (chan - tx_chans pre))%nat
            = Some fc_mon) :
  let dsp := (chan + tx_chan_occ c - (tx_chans pre + tx_chan_occ c))%nat in
  let index := (2 * length pre + dsp)%nat in
  dsp = (chan - tx_chans pre)%nat
  ∧ tx_bind_chan stream_args streamer chan_i chan 0 0
      (pre ++ (mb, c) :: post) fcs calls
    = Ok (pre ++ (mb, tx_bound stream_args streamer dsp core c) :: post,
          (if has_key (args stream_args) "noclear" then fcs
           else <[index := clear fc_mon]> fcs),
          calls ++ [tx_set_xport_chan_get_buff chan_i index])
  ∧ tx_streamers (tx_bound stream_args streamer dsp core c) !! dsp
    = Some (Some streamer).
Proof.
  intros dsp index.
  assert (Hdsp : dsp = (chan - tx_chans pre)%nat) by (subst dsp; lia).
  subst index. rewrite Hdsp. split; [reflexivity|]. split.
  - rewrite tx_bind_chan_skips by lia. cbn [Nat.add].
    rewrite (tx_bind_chan_here _ _ _ _ _ _ _ _ _ _ _ core fc_mon)
      by (assumption || lia).
    reflexivity.
  - cbn. apply list_lookup_insert_eq. assumption.
Qed.

Lemma size_t_range x : (0 ≤ size_t x < 2 ^ 64)%Z.
Proof. unfold size_t. apply Z.mod_pos_bound. reflexivity. Qed.

(** X12.  The samples per packet of a transmit streamer are sized to the
    first board's first transmit transport.  When that frame holds at
    least the header, the header and the samples fit in the frame and one
    more sample would not.  When the frame is smaller than the header the
    subtraction wraps in [size_t] and the count is computed from
    [2^64 + frame - header] instead: no error is raised. *)
Theorem tx_samps_per_packet_fits (args_ : stream_args_t)
    (self self' : umtrx_impl) (my_streamer : send_packet_streamer)
    (mb : string) (c : mb_container) (rest : list (string * mb_container))
    (xport0 : zero_copy_if)
    (Hfront : _mbc self = (mb, c) :: rest)
    (Hxport : tx_dsp_xports c !! 0%nat = Some xport0)
    (Hframe : (Z.of_nat (get_send_frame_size xport0) < 2 ^ 64)%Z)
    (Hitem : (0 < get_bytes_per_item "sc16")%Z)
    (Hmade : get_tx_stream args_ self = (Ok my_streamer, self')) :
  let frame := Z.of_nat (get_send_frame_size xport0) in
  let spp := tx_samps_per_packet my_streamer in
  let item := get_bytes_per_item "sc16" in
  ((tx_hdr_size ≤ frame)%Z →
   (0 ≤ spp)%Z
   ∧ (tx_hdr_size + spp * item ≤ frame)%Z
   ∧ (frame < tx_hdr_size + (spp + 1) * item)%Z)
  ∧ ((frame < tx_hdr_size)%Z →
     spp = ((2 ^ 64 + frame - tx_hdr_size) / item)%Z).
Proof.
  intros frame spp item.
  apply get_tx_stream_Ok_inv in Hmade
    as (_ & mb0 & x0 & spp0 & mbs1 & fcs1 & calls1 & rx_rates & tx_rates
        & Hf & Hx & Hdiv & _ & _ & _ & _ & Hspp).
  unfold front_mb in Hf. rewrite Hfront in Hf. injection Hf as <-.
  assert (x0 = xport0) as -> by congruence.
  unfold size_t_div in Hdiv.
  destruct (get_bytes_per_item "sc16" =? 0)%Z; [discriminate|].
  injection Hdiv as Hdiv. subst spp. rewrite Hspp, <- Hdiv. fold frame item.
  pose proof (size_t_range (0 + max_if_hdr_words32 * 4
                            + vrt_send_header_offset_words32 * 4
                            - sizeof_cid)) as Hhdr.
  fold tx_hdr_size in Hhdr.
  assert (Hframe' : (frame < 2 ^ 64)%Z) by exact Hframe.
  assert (Hitem' : (0 < item)%Z) by exact Hitem.
  assert (Hframe0 : (0 ≤ frame)%Z) by (subst frame; lia).
  clearbody frame item.
  split.
  - intros Hle. unfold size_t. rewrite Z.mod_small by lia.
    pose proof (Z.div_mod (frame - tx_hdr_size) item ltac:(lia)) as Hdm.
    pose proof (Z.mod_pos_bound (frame - tx_hdr_size) item Hitem') as Hmod.
    assert (0 ≤ (frame - tx_hdr_size) / item)%Z
      by (apply Z.div_pos; lia).
    split; [assumption|]. split; nia.
  - intros Hlt. unfold size_t at 1. f_equal.
    rewrite <- (Z.mod_small (2 ^ 64 + frame - tx_hdr_size) (2 ^ 64)) by lia.
    replace (2 ^ 64 + frame - tx_hdr_size)%Z
      with (frame - tx_hdr_size + 1 * 2 ^ 64)%Z by lia.
    rewrite Z.mod_add by lia. reflexivity.
Qed.

End streamers.

(** * Properties of the device bring-up helpers *)

Section bring_up.

Local Open Scope Z_scope.

Lemma command_layout_all :
  forallb (λ addr, forallb (command_layout_ok addr) (seqZ 0 256))
    (seqZ 0 128) = true.
Proof. vm_compute. reflexivity. Qed.

Lemma command_layout addr data :
  0 ≤ addr < 128 → 0 ≤ data < 256 → command_layout_ok addr data = true.
Proof.
  intros Haddr Hdata. pose proof command_layout_all as Hall.
  rewrite forallb_forall in Hall.
  specialize (Hall addr). rewrite forallb_forall in Hall.
  apply Hall; apply list_elem_of_In, elem_of_seqZ; lia.
Qed.

Lemma write_addr_logs lms addr data rise mbs :
  write_addr lms addr data rise mbs
  = if addr <? 128 then
      (λ entry : string * spi_iface,
         (entry.1,
          {| spi_log := spi_log entry.2
                        ++ [{| which_slave := lms;
                               edge := if rise then EDGE_RISE else EDGE_FALL;
                               data := write_command addr data;
                               num_bits := 16; readback := false |}];
             spi_device := spi_device entry.2 |})) <$> mbs
    else mbs.
Proof. reflexivity. Qed.

(** X13.  For an address below 128 and a data byte, [write_addr] sends
    every board one 16-bit word without readback: bit 15 set, the address
    in bits 14 to 8 and the data in bits 7 to 0, so address and data can
    be read back out of the word.  The word [read_addr] sends for the same
    address has bit 15 clear and the same address bits. *)
Theorem write_addr_command_layout (lms addr data : Z) (rise : bool)
    (mbs : list (string * spi_iface))
    (Haddr : 0 ≤ addr < 128) (Hdata : 0 ≤ data < 256) :
  let word := 32768 + 256 * addr + data in
  (spi_log <$> (write_addr lms addr data rise mbs).*2)
  = (λ iface, spi_log iface
              ++ [{| which_slave := lms;
                     edge := if rise then EDGE_RISE else EDGE_FALL;
                     data := word; num_bits := 16; readback := false |}])
      <$> mbs.*2
  ∧ Z.testbit word 15 = true
  ∧ Z.land (Z.shiftr word 8) 127 = addr
  ∧ Z.land word 255 = data
  ∧ Z.testbit (Z.shiftl addr 8) 15 = false
  ∧ Z.shiftr (Z.shiftl addr 8) 8 = addr.
Proof.
  intros word. pose proof (command_layout addr data Haddr Hdata) as Hok.
  unfold command_layout_ok in Hok.
  repeat (apply andb_prop in Hok as [Hok ?]).
  apply Z.eqb_eq in Hok.
  assert (Hword : write_command addr data = word) by exact Hok.
  rewrite Hword in *.
  split.
  { rewrite write_addr_logs, (proj2 (Z.ltb_lt _ _)) by lia. rewrite Hword.
    rewrite <- !list_fmap_compose. reflexivity. }
  split; [assumption|].
  split; [apply Z.eqb_eq; assumption|].
  split; [apply Z.eqb_eq; assumption|].
  split; [apply negb_true_iff; assumption|].
  apply Z.eqb_eq. assumption.
Qed.

(** X14.  [write_addr] reaches every board, [read_addr] only the first: a
    read adds one readback transaction to the first board's interface,
    returns what that device answers and leaves the later boards alone.
    An address above 127 makes [read_addr] return 0 and [write_addr] do
    nothing, with no SPI traffic at all, and so does [read_addr] on a
    device without boards. *)
Theorem read_addr_first_board_only (lms addr : Z) (rise : bool)
    (mb : string) (iface : spi_iface) (rest : list (string * spi_iface))
    (data : Z) (Haddr : 0 ≤ addr ≤ 127) :
  let request := {| which_slave := lms;
                    edge := if rise then EDGE_RISE else EDGE_FALL;
                    data := Z.shiftl addr 8; num_bits := 16;
                    readback := true |} in
  read_addr lms addr rise ((mb, iface) :: rest)
  = (spi_device iface (spi_log iface ++ [request]),
     (mb, {| spi_log := spi_log iface ++ [request];
             spi_device := spi_device iface |}) :: rest)
  ∧ read_addr lms addr rise [] = (0, [])
  ∧ (∀ high mbs, 127 < high →
       read_addr lms high rise mbs = (0, mbs)
       ∧ write_addr lms high data rise mbs = mbs)
  ∧ length (write_addr lms addr data rise ((mb, iface) :: rest))
    = S (length rest).
Proof.
  intros request. unfold read_addr.
  rewrite (proj2 (Z.ltb_ge _ _)) by lia.
  split; [destruct rise; reflexivity|].
  split; [destruct rise; reflexivity|].
  split.
  - intros high mbs Hhigh. unfold write_addr.
    rewrite (proj2 (Z.ltb_lt 127 high)), (proj2 (Z.ltb_ge high 128)) by lia.
    split; reflexivity.
  - unfold write_addr. rewrite (proj2 (Z.ltb_lt _ _)) by lia.
    cbn. rewrite length_fmap. reflexivity.
Qed.

(** X15.  [write_n_check] on a valid address writes the command word to
    every board and then reads from the first one only: its result is what
    the first board's device answers to the read that follows the write,
    and the other boards have seen the write and nothing else. *)
Theorem write_n_check_reads_back_first (lms addr data : Z) (rise : bool)
    (mb : string) (iface : spi_iface) (rest : list (string * spi_iface))
    (Haddr : 0 ≤ addr < 128) :
  let config := if rise then EDGE_RISE else EDGE_FALL in
  let written := {| which_slave := lms; edge := config;
                    data := write_command addr data; num_bits := 16;
                    readback := false |} in
  let request := {| which_slave := lms; edge := config;
                    data := Z.shiftl addr 8; num_bits := 16;
                    readback := true |} in
  write_n_check lms addr data rise ((mb, iface) :: rest)
  = (spi_device iface (spi_log iface ++ [written; request]),
     (mb, {| spi_log := spi_log iface ++ [written; request];
             spi_device := spi_device iface |})
     :: write_addr lms addr data rise rest)
  ∧ (spi_log <$> (write_addr lms addr data rise rest).*2)
    = (λ other, spi_log other ++ [written]) <$> rest.*2.
Proof.
  intros config written request. unfold write_n_check.
  split.
  - rewrite !write_addr_logs, (proj2 (Z.ltb_lt _ _)) by lia.
    cbn [fmap list_fmap fst snd]. unfold read_addr.
    rewrite (proj2 (Z.ltb_ge _ _)) by lia.
    subst config written request.
    destruct rise; cbn; rewrite <- !app_assoc; reflexivity.
  - rewrite write_addr_logs, (proj2 (Z.ltb_lt _ _)) by lia.
    rewrite <- !list_fmap_compose. reflexivity.
Qed.

Lemma fpga_version_split fpga_compat_num :
  0 ≤ fpga_compat_num < 2 ^ 32 →
  fpga_version fpga_compat_num
  = if fpga_compat_num / 65536 =? 0 then (fpga_compat_num, 0)
    else (fpga_compat_num / 65536, fpga_compat_num mod 65536).
Proof.
  intros Hrange. unfold fpga_version, uint16.
  rewrite Z.shiftr_div_pow2 by lia.
  change 65535 with (Z.ones 16). rewrite Z.land_ones by lia.
  change (2 ^ 16) with 65536.
  assert (0 ≤ fpga_compat_num / 65536 < 65536)
    by (split; [apply Z.div_pos; lia|apply Z.div_lt_upper_bound; lia]).
  rewrite (Z.mod_small (fpga_compat_num / 65536)) by lia.
  rewrite Z.mod_mod by lia.
  destruct (Z.eqb_spec (fpga_compat_num / 65536) 0) as [Hz|Hnz];
    [|reflexivity].
  f_equal. apply Z.mod_small.
  pose proof (Z.div_mod fpga_compat_num 65536 ltac:(lia)).
  pose proof (Z.mod_pos_bound fpga_compat_num 65536 ltac:(lia)). lia.
Qed.

(** X16.  The constructor's FPGA check, for an expected number between 1
    and 65535 and any 32-bit register value: it passes exactly when the
    register holds the expected number itself (the old scheme, published
    as minor 0) or has it in its upper half (published with the lower half
    as minor); any other value throws, reporting the upper half, or the
    whole register when the upper half is zero. *)
Theorem fpga_compat_accepts (expected fpga_compat_num : Z)
    (Hexpected : 0 < expected < 65536)
    (Hregister : 0 ≤ fpga_compat_num < 2 ^ 32) :
  (fpga_compat_num = expected →
   check_fpga_compat expected fpga_compat_num = fpga_compatible expected 0)
  ∧ (expected * 65536 ≤ fpga_compat_num < (expected + 1) * 65536 →
     check_fpga_compat expected fpga_compat_num
     = fpga_compatible expected (fpga_compat_num - expected * 65536))
  ∧ (fpga_compat_num ≠ expected →
     ¬ (expected * 65536 ≤ fpga_compat_num < (expected + 1) * 65536) →
     check_fpga_compat expected fpga_compat_num
     = fpga_runtime_error expected
         (if fpga_compat_num <? 65536 then fpga_compat_num
          else fpga_compat_num / 65536)).
Proof.
  unfold check_fpga_compat. rewrite fpga_version_split by assumption.
  pose proof (Z.div_mod fpga_compat_num 65536 ltac:(lia)) as Hdm.
  pose proof (Z.mod_pos_bound fpga_compat_num 65536 ltac:(lia)) as Hmod.
  assert (Hdiv : 0 ≤ fpga_compat_num / 65536) by (apply Z.div_pos; lia).
  split; [|split].
  - intros ->. rewrite (Z.div_small expected) by lia. cbn.
    rewrite bool_decide_eq_false_2 by (intros Hne; apply Hne; reflexivity).
    reflexivity.
  - intros Hin.
    assert (Hq : fpga_compat_num / 65536 = expected) by nia.
    rewrite Hq. rewrite (proj2 (Z.eqb_neq _ _)) by lia.
    rewrite bool_decide_eq_false_2 by (intros Hne; apply Hne; reflexivity).
    f_equal. lia.
  - intros Hne Hout.
    destruct (Z.eqb_spec (fpga_compat_num / 65536) 0) as [Hz|Hnz].
    + rewrite bool_decide_eq_true_2 by assumption.
      rewrite (proj2 (Z.ltb_lt _ _)) by lia. reflexivity.
    + rewrite bool_decide_eq_true_2 by nia.
      rewrite (proj2 (Z.ltb_ge _ _)) by lia. reflexivity.
Qed.

Lemma dict_set_keys key value d k :
  k ∈ (dict_set key value d).*1 ↔ k = key ∨ k ∈ d.*1.
Proof.
  induction d as [|[k0 v0] d IH]; cbn.
  - rewrite elem_of_cons, elem_of_nil. tauto.
  - destruct (decide (k0 = key)) as [->|Hne]; cbn.
    + rewrite !elem_of_cons. tauto.
    + rewrite !elem_of_cons, IH. tauto.
Qed.

Lemma dict_get_set key value d k :
  dict_get (dict_set key value d) k
  = if decide (key = k) then Ok value else dict_get d k.
Proof.
  induction d as [|[k0 v0] d IH]; cbn.
  - destruct (decide (key = k)); reflexivity.
  - destruct (decide (k0 = key)) as [->|Hne]; cbn.
    + destruct (decide (key = k)); reflexivity.
    + rewrite IH. destruct (decide (k0 = k)) as [->|]; [|reflexivity].
      destruct (decide (key = k)); [congruence|reflexivity].
Qed.

Lemma dict_get_elem_of d key :
  key ∈ d.*1 → ∃ value, dict_get d key = Ok value.
Proof.
  intros Hin. apply has_key_dict_get. unfold has_key.
  apply bool_decide_eq_true. assumption.
Qed.

Lemma copy_hints_spec hints filter keys : ∀ filtered,
  (∀ key, key ∈ keys → key ∈ hints.*1) →
  ∃ copied,
    copy_hints keys hints filter filtered = Ok copied
    ∧ ∀ key,
        (key ∈ copied.*1
         ↔ key ∈ filtered.*1
           ∨ (key ∈ keys ∧ String.index 0 filter key ≠ None))
        ∧ (key ∈ keys → String.index 0 filter key ≠ None →
           dict_get copied key = dict_get hints key)
        ∧ (¬ (key ∈ keys ∧ String.index 0 filter key ≠ None) →
           dict_get copied key = dict_get filtered key).
Proof.
  induction keys as [|key0 keys IH]; intros filtered Hsub.
  - exists filtered. split; [reflexivity|]. intros key.
    split; [|split].
    + rewrite elem_of_nil. tauto.
    + intros Hin. apply elem_of_nil in Hin. contradiction.
    + reflexivity.
  - cbn [copy_hints].
    assert (Hsub' : ∀ key, key ∈ keys → key ∈ hints.*1)
      by (intros key Hin; apply Hsub; apply elem_of_cons; auto).
    destruct (String.index 0 filter key0) as [pos|] eqn:Hfind.
    + destruct (dict_get_elem_of hints key0) as [value Hvalue].
      { apply Hsub. apply elem_of_cons. auto. }
      rewrite Hvalue. cbn [mbind outcome_bind].
      destruct (IH (dict_set key0 value filtered) Hsub')
        as (copied & -> & Hspec).
      exists copied. split; [reflexivity|]. intros key.
      destruct (Hspec key) as (Hkeys & Hget & Hkeep).
      split; [|split].
      * rewrite Hkeys, dict_set_keys, elem_of_cons.
        split.
        -- intros [[->|Hin]|[Hin Hpass]]; [|auto|auto].
           right. split; [auto|congruence].
        -- intros [Hin|[[->|Hin] Hpass]]; auto.
      * intros Hin Hpass.
        destruct (decide (key ∈ keys)) as [Hk|Hk]; [auto|].
        apply elem_of_cons in Hin as [->|Hin]; [|contradiction].
        rewrite Hkeep by tauto. rewrite dict_get_set.
        destruct (decide (key0 = key0)); [congruence|contradiction].
      * intros Hnot. rewrite Hkeep.
        -- rewrite dict_get_set.
           destruct (decide (key0 = key)) as [->|Hne]; [|reflexivity].
           exfalso. apply Hnot. split; [apply elem_of_cons; auto|congruence].
        -- intros [Hin Hpass]. apply Hnot.
           split; [apply elem_of_cons; auto|assumption].
    + destruct (IH filtered Hsub') as (copied & -> & Hspec).
      exists copied. split; [reflexivity|]. intros key.
      destruct (Hspec key) as (Hkeys & Hget & Hkeep).
      split; [|split].
      * rewrite Hkeys, elem_of_cons. split.
        -- intros [Hin|[Hin Hpass]]; auto.
        -- intros [Hin|[[->|Hin] Hpass]]; auto. congruence.
      * intros Hin Hpass. apply elem_of_cons in Hin as [->|Hin];
          [congruence|auto].
      * intros Hnot. apply Hkeep. intros [Hin Hpass]. apply Hnot.
        split; [apply elem_of_cons; auto|assumption].
Qed.

(** X17.  The hint filter of [make_xport] always succeeds, and the
    transport gets exactly the hints whose key contains the filter word,
    each with the value it had: a key is among the filtered hints if and
    only if it is among the hints and the word occurs in it, and then both
    dictionaries give the same value for it. *)
Theorem filter_hints_keeps_matching (hints : list (string * string))
    (filter : string) :
  ∃ filtered_hints,
    filter_hints hints filter = Ok filtered_hints
    ∧ ∀ key,
        (has_key filtered_hints key = true
         ↔ has_key hints key = true ∧ String.index 0 filter key ≠ None)
        ∧ (has_key filtered_hints key = true →
           dict_get filtered_hints key = dict_get hints key).
Proof.
  destruct (copy_hints_spec hints filter hints.*1 [] (λ _ Hin, Hin))
    as (copied & Hcopy & Hspec).
  exists copied. split; [exact Hcopy|]. intros key.
  destruct (Hspec key) as (Hkeys & Hget & _).
  unfold has_key. rewrite !bool_decide_eq_true.
  assert (Hiff : key ∈ copied.*1
                 ↔ key ∈ hints.*1 ∧ String.index 0 filter key ≠ None).
  { rewrite Hkeys. cbn. rewrite elem_of_nil. tauto. }
  split; [exact Hiff|].
  intros Hin. apply Hiff in Hin as [Hin Hpass]. auto.
Qed.

Lemma mtu_fold_spec others : ∀ mtu,
  match foldl (λ acc found, mtu ← acc; mtu_i ← found;
                            Some (mtu_min mtu mtu_i))
          (Some mtu) others with
  | Some least =>
      Forall (λ found, ∃ mtu_i, found = Some mtu_i
                                ∧ recv_mtu least ≤ recv_mtu mtu_i
                                ∧ send_mtu least ≤ send_mtu mtu_i) others
      ∧ recv_mtu least ≤ recv_mtu mtu ∧ send_mtu least ≤ send_mtu mtu
      ∧ (∃ at_recv, Some at_recv ∈ Some mtu :: others
                    ∧ recv_mtu least = recv_mtu at_recv)
      ∧ (∃ at_send, Some at_send ∈ Some mtu :: others
                    ∧ send_mtu least = send_mtu at_send)
  | None => None ∈ others
  end.
Proof.
  induction others as [|found others IH]; intros mtu.
  - cbn. split; [constructor|]. split; [lia|]. split; [lia|].
    split; exists mtu; split; try reflexivity; apply list_elem_of_here.
  - cbn [foldl mbind option_bind]. destruct found as [mtu_i|].
    + cbn [mbind option_bind]. specialize (IH (mtu_min mtu mtu_i)).
      destruct (foldl _ _ others) as [least|].
      * destruct IH as (Hall & Hr & Hs & (ar & Har & Hare) & (as_ & Has & Hase)).
        cbn in Hr, Hs.
        split; [constructor; [exists mtu_i; split; [reflexivity|lia]|exact Hall]|].
        split; [lia|]. split; [lia|]. split.
        -- apply elem_of_cons in Har as [Har|Har].
           ++ injection Har as ->. cbn in Hare.
              destruct (Z.min_spec (recv_mtu mtu) (recv_mtu mtu_i))
                as [[_ Hm]|[_ Hm]]; rewrite Hm in Hare.
              ** exists mtu. split; [apply list_elem_of_here|assumption].
              ** exists mtu_i. split; [|assumption].
                 apply list_elem_of_further, list_elem_of_here.
           ++ exists ar. split; [|assumption].
              do 2 apply list_elem_of_further. assumption.
        -- apply elem_of_cons in Has as [Has|Has].
           ++ injection Has as ->. cbn in Hase.
              destruct (Z.min_spec (send_mtu mtu) (send_mtu mtu_i))
                as [[_ Hm]|[_ Hm]]; rewrite Hm in Hase.
              ** exists mtu. split; [apply list_elem_of_here|assumption].
              ** exists mtu_i. split; [|assumption].
                 apply list_elem_of_further, list_elem_of_here.
           ++ exists as_. split; [|assumption].
              do 2 apply list_elem_of_further. assumption.
      * apply list_elem_of_further. exact IH.
    + cbn [mbind option_bind].
      assert (Hnone : foldl (λ acc found, mtu ← acc; mtu_i ← found;
                                          Some (mtu_min mtu mtu_i))
                        None others = None).
      { clear. induction others as [|f others IH]; [reflexivity|].
        cbn. exact IH. }
      rewrite Hnone. apply list_elem_of_here.
Qed.

(** X18.  Frame size negotiation in the constructor, on at least one
    device.  If [determine_mtu] works for every device, the frame sizes
    taken are, in each direction, no larger than any device's and equal to
    some device's: the smallest.  If it is not implemented on some device,
    the block is left and no frame size is taken. *)
Theorem negotiate_mtu_takes_smallest (first : option mtu_result_t)
    (others : list (option mtu_result_t)) :
  ∃ negotiated,
    negotiate_mtu (first :: others) = Ok negotiated
    ∧ match negotiated with
      | Some least =>
          Forall (λ found, ∃ mtu_i, found = Some mtu_i
                                    ∧ recv_mtu least ≤ recv_mtu mtu_i
                                    ∧ send_mtu least ≤ send_mtu mtu_i)
            (first :: others)
          ∧ (∃ at_recv, Some at_recv ∈ first :: others
                        ∧ recv_mtu least = recv_mtu at_recv)
          ∧ (∃ at_send, Some at_send ∈ first :: others
                        ∧ send_mtu least = send_mtu at_send)
      | None => None ∈ first :: others
      end.
Proof.
  eexists. split; [reflexivity|].
  destruct first as [mtu|]; cbn [mbind option_bind];
    [|apply list_elem_of_here].
  pose proof (mtu_fold_spec others mtu) as Hfold.
  destruct (foldl _ _ others) as [least|].
  - destruct Hfold as (Hall & Hr & Hs & Hrecv & Hsend).
    split; [|split; assumption].
    constructor; [|exact Hall]. exists mtu. split; [reflexivity|lia].
  - apply list_elem_of_further. exact Hfold.
Qed.

End bring_up.

(** * Stream creation on well-formed boards *)

Section well_formed.

Import flow_control_monitor.
Context `{!externals}.

Lemma board_tables_ok_shape entry entry' :
  board_shape entry' = board_shape entry →
  board_tables_ok entry.2 → board_tables_ok entry'.2.
Proof.
  unfold board_shape, board_tables_ok.
  intros [= _ Hrx Htx Hrd Htd Hrxp _ Hrs Hts].
  rewrite Hrx, Htx, Hrd, Htd, Hrxp, Hrs, Hts. tauto.
Qed.

Lemma Forall_tables_ok_shape mbs : ∀ mbs',
  board_shape <$> mbs' = board_shape <$> mbs →
  Forall (λ entry, board_tables_ok entry.2) mbs →
  Forall (λ entry, board_tables_ok entry.2) mbs'.
Proof.
  induction mbs as [|entry mbs IH]; intros [|entry' mbs'] Hshape Hok;
    try discriminate; [constructor|].
  injection Hshape as Hhead Htail. apply Forall_cons in Hok as [Hok Hrest].
  constructor; [|apply IH; assumption].
  eapply board_tables_ok_shape; [|exact Hok].
  unfold board_shape. congruence.
Qed.

Lemma rx_bind_chan_total stream_args spp sc8_scalar streamer chan_i chan
    mbs : ∀ num_chan_so_far calls,
  Forall (λ entry, board_tables_ok entry.2) mbs →
  (num_chan_so_far ≤ chan)%nat →
  (chan < num_chan_so_far + rx_chans mbs)%nat →
  ∃ mbs' mb dsp,
    rx_bind_chan stream_args spp sc8_scalar streamer chan_i chan
      num_chan_so_far mbs calls
    = Ok (mbs', calls ++ [rx_set_xport_chan_get_buff chan_i mb dsp true])
    ∧ mb ∈ mbs.*1.
Proof.
  induction mbs as [|[mb c] mbs IH]; intros so_far calls Hok Hlo Hhi.
  - cbn in Hhi. lia.
  - apply Forall_cons in Hok as [(Hd & Hx & Hs & _) Hok]. cbn [snd] in *.
    rewrite rx_chans_cons in Hhi.
    destruct (decide (chan < so_far + rx_chan_occ c)%nat) as [Hhere|Hlater].
    + destruct (lookup_lt_is_Some_2 (rx_dsps c) (chan - so_far)%nat
                  ltac:(lia)) as [core Hcore].
      eexists _, mb, _. split.
      * apply (rx_bind_chan_here _ _ _ _ _ _ _ _ _ _ _ core);
          (assumption || lia).
      * cbn. apply list_elem_of_here.
    + cbn [rx_bind_chan]. rewrite (proj2 (Nat.ltb_ge _ _)) by lia.
      destruct (IH (so_far + rx_chan_occ c)%nat calls Hok ltac:(lia)
                  ltac:(lia)) as (mbs' & mb' & dsp & -> & Hin).
      eexists _, mb', dsp. split; [reflexivity|].
      cbn. apply list_elem_of_further. assumption.
Qed.

(** X19.  On boards whose DSP cores, transports and streamer tables cover
    their occupancy, the walk of [get_rx_stream] never reads out of range:
    it always returns, it binds the position to a slot of one of the
    boards exactly when the channel index is below the number of channels
    the boards expose, and otherwise changes nothing. *)
Theorem rx_bind_chan_binds_iff_in_range
    (stream_args : stream_args_t) (spp sc8_scalar : Z)
    (streamer chan_i chan : nat) (mbs : list (string * mb_container))
    (calls : list rx_streamer_call)
    (Hok : Forall (λ entry, board_tables_ok entry.2) mbs) :
  ∃ mbs' calls',
    rx_bind_chan stream_args spp sc8_scalar streamer chan_i chan 0 mbs calls
    = Ok (mbs', calls')
    ∧ board_shape <$> mbs' = board_shape <$> mbs
    ∧ ((chan < rx_chans mbs)%nat →
       ∃ mb dsp,
         calls' = calls ++ [rx_set_xport_chan_get_buff chan_i mb dsp true]
         ∧ mb ∈ mbs.*1)
    ∧ ((rx_chans mbs ≤ chan)%nat → mbs' = mbs ∧ calls' = calls).
Proof.
  destruct (decide (chan < rx_chans mbs)%nat) as [Hin|Hout].
  - destruct (rx_bind_chan_total stream_args spp sc8_scalar streamer chan_i
                chan mbs 0 calls Hok ltac:(lia) ltac:(lia))
      as (mbs' & mb & dsp & Hbind & Hmb).
    eexists _, _. split; [exact Hbind|].
    split; [eapply rx_bind_chan_outcome; exact Hbind|].
    split; [intros _; eauto|lia].
  - eexists _, _. split; [apply rx_bind_chan_unresolved; lia|].
    split; [reflexivity|]. split; [lia|auto].
Qed.

Lemma tx_bind_chan_total stream_args streamer chan_i chan mbs :
  ∀ num_chan_so_far abs fcs calls,
  Forall (λ entry, board_tables_ok entry.2) mbs →
  (abs + 2 * length mbs ≤ length fcs)%nat →
  (num_chan_so_far ≤ chan)%nat →
  ∃ result,
    tx_bind_chan stream_args streamer chan_i chan num_chan_so_far abs mbs
      fcs calls = Ok result.
Proof.
  induction mbs as [|[mb c] mbs IH]; intros so_far abs fcs calls Hok Hlen Hlo.
  - eexists. reflexivity.
  - apply Forall_cons in Hok as [(_ & _ & _ & Hd & Hs & Htwo) Hok].
    cbn [snd length] in *.
    destruct (decide (chan < so_far + tx_chan_occ c)%nat) as [Hhere|Hlater].
    + destruct (lookup_lt_is_Some_2 (tx_dsps c) (chan - so_far)%nat
                  ltac:(lia)) as [core Hcore].
      destruct (lookup_lt_is_Some_2 fcs (abs + (chan - so_far))%nat
                  ltac:(lia)) as [fc_mon Hmon].
      eexists.
      apply (tx_bind_chan_here _ _ _ _ _ _ _ _ _ _ _ core fc_mon);
        (assumption || lia).
    + cbn [tx_bind_chan]. rewrite (proj2 (Nat.ltb_ge _ _)) by lia.
      destruct (IH (so_far + tx_chan_occ c)%nat (abs + 2)%nat fcs calls Hok
                  ltac:(lia) ltac:(lia)) as ([[mbs' fcs'] calls'] & ->).
      eexists. reflexivity.
Qed.

Lemma tx_bind_chans_total stream_args streamer chans :
  ∀ chan_i mbs fcs calls,
  Forall (λ entry, board_tables_ok entry.2) mbs →
  (2 * length mbs ≤ length fcs)%nat →
  ∃ result,
    tx_bind_chans stream_args streamer chan_i chans mbs fcs calls
    = Ok result.
Proof.
  induction chans as [|chan chans IH]; intros chan_i mbs fcs calls Hok Hlen.
  - eexists. reflexivity.
  - cbn [tx_bind_chans].
    destruct (tx_bind_chan_total stream_args streamer chan_i chan mbs 0 0
                fcs calls Hok ltac:(lia) ltac:(lia))
      as ([[mbs1 fcs1] calls1] & Hone).
    rewrite Hone. cbn [mbind outcome_bind].
    pose proof (tx_bind_chan_outcome _ _ _ _ _ _ _ _ _ _ _ _ Hone)
      as [Hshape Hcases].
    apply IH.
    + eapply Forall_tables_ok_shape; eassumption.
    + assert (Hl : length mbs1 = length mbs).
      { rewrite <- (length_fmap board_shape mbs1), Hshape, length_fmap.
        reflexivity. }
      assert (Hf : length fcs1 = length fcs).
      { destruct Hcases as [(_ & -> & _)|(index & _ & Hfcs)]; [reflexivity|].
        destruct (has_key _ _); [subst; reflexivity|].
        destruct Hfcs as (m & _ & ->). apply length_insert. }
      lia.
Qed.

Lemma streamer_slots_ok_shape mbs : ∀ mbs',
  board_shape <$> mbs' = board_shape <$> mbs →
  Forall (λ entry, streamer_slots_ok entry.2) mbs →
  Forall (λ entry, streamer_slots_ok entry.2) mbs'.
Proof.
  induction mbs as [|entry mbs IH]; intros [|entry' mbs'] Hshape Hok;
    try discriminate; [constructor|].
  injection Hshape as _ _ _ Hrd Htd _ _ Hrs Hts Htail.
  apply Forall_cons in Hok as [[Hrx Htx] Hrest].
  constructor; [|apply IH; assumption].
  unfold streamer_slots_ok. rewrite Hrd, Htd, Hrs, Hts. auto.
Qed.

Lemma for_each_dsp_total {call} (update : nat → outcome (list call)) dsps :
  (∀ dsp, dsp ∈ dsps → ∃ calls, update dsp = Ok calls) →
  ∃ calls, for_each_dsp update dsps = Ok calls.
Proof.
  induction dsps as [|dsp dsps IH]; intros Hupdate; [eexists; reflexivity|].
  destruct (Hupdate dsp ltac:(apply list_elem_of_here)) as [calls Hone].
  destruct IH as [calls_more Hmore].
  { intros other Hin. apply Hupdate, list_elem_of_further, Hin. }
  cbn [for_each_dsp]. rewrite Hone. cbn [mbind outcome_bind].
  rewrite Hmore. eexists. reflexivity.
Qed.

(** With a weak pointer slot for every DSP core, [update_rates] reads no
    table out of range. *)
Lemma update_rates_from_total mbs : ∀ streamer self,
  Forall (λ entry, streamer_slots_ok entry.2) mbs →
  ∃ result, update_rates_from mbs streamer self = Ok result.
Proof.
  induction mbs as [|[mb c] mbs IH]; intros streamer self Hok;
    [eexists; reflexivity|].
  apply Forall_cons in Hok as [[Hrx Htx] Hok]. cbn [snd] in Hrx, Htx.
  cbn [update_rates_from]. unfold update_tick_rate.
  destruct (for_each_dsp_total (update_rx_samp_rate mb c streamer)
              (seq 0 (length (rx_dsps c)))) as [rx_rate ->].
  { intros dsp Hin%elem_of_seq. unfold update_rx_samp_rate.
    destruct (at_index_lt (rx_streamers c) dsp ltac:(lia)) as [weak ->].
    cbn [mbind outcome_bind].
    destruct (decide (weak = Some streamer)); [|eexists; reflexivity].
    destruct (at_index_lt (rx_dsps c) dsp ltac:(lia)) as [core ->].
    eexists. reflexivity. }
  destruct (for_each_dsp_total (update_tx_samp_rate mb c streamer)
              (seq 0 (length (tx_dsps c)))) as [tx_rate ->].
  { intros dsp Hin%elem_of_seq. unfold update_tx_samp_rate.
    destruct (at_index_lt (tx_streamers c) dsp ltac:(lia)) as [weak ->].
    cbn [mbind outcome_bind].
    destruct (decide (weak = Some streamer)); eexists; reflexivity. }
  cbn [mbind outcome_bind].
  edestruct IH as [[[rx_more tx_more] self2] ->]; [exact Hok|].
  eexists. reflexivity.
Qed.

Lemma io_init_ok sram tick_rate0 self :
  Forall (λ entry, tx_pair_ok entry.2) (_mbc self) →
  ∃ self1 tasks,
    io_init sram tick_rate0 self = Ok (self1, tasks)
    ∧ length (fc_mons (_io_impl self1)) = (2 * length (_mbc self))%nat
    ∧ _mbc self1 = (prod_map id init_streamer_tables <$> _mbc self).
Proof.
  intros Hpairs.
  assert (Hpairs' : Forall (λ entry, tx_pair_ok entry.2)
                      (prod_map id init_streamer_tables <$> _mbc self)).
  { apply Forall_fmap. eapply Forall_impl; [exact Hpairs|].
    intros [mb c] Hc. exact Hc. }
  eexists _, _. split.
  { unfold io_init. rewrite init_tx_channels_ok by assumption.
    cbn [mbind outcome_bind].
    rewrite spawn_pirates_ok by assumption. cbn. reflexivity. }
  cbn. rewrite length_fmap. split; [|reflexivity].
  apply tx_pairs_length. assumption.
Qed.

(** X20.  [io_init] makes the engine that [get_tx_stream] needs.  On a
    device with at least one board, each board with two transmit
    transports of non-zero frame size, at most two transmit channels in
    use and a DSP core for each, a request in the "sc16" wire format (or
    with none given) gets its streamer after [io_init], whatever channels
    it names: no table or monitor is read out of range. *)
Theorem get_tx_stream_after_io_init (sram : Z) (tick_rate0 : double)
    (self : umtrx_impl) (args_ : stream_args_t)
    (Hboard : _mbc self ≠ [])
    (Hpairs : Forall (λ entry, tx_pair_ok entry.2) (_mbc self))
    (Hocc : Forall (λ entry,
              (tx_chan_occ entry.2 ≤ 2)%nat
              ∧ (tx_chan_occ entry.2 ≤ length (tx_dsps entry.2))%nat
              ∧ (rx_chan_occ entry.2 ≤ length (rx_dsps entry.2))%nat
              ∧ (rx_chan_occ entry.2 ≤ length (rx_dsp_xports entry.2))%nat)
            (_mbc self))
    (Hitem : get_bytes_per_item "sc16" ≠ 0%Z)
    (Hformat : otw_format args_ = "" ∨ otw_format args_ = "sc16") :
  ∃ self1 tasks my_streamer self2,
    io_init sram tick_rate0 self = Ok (self1, tasks)
    ∧ get_tx_stream args_ self1 = (Ok my_streamer, self2).
Proof.
  destruct (io_init_ok sram tick_rate0 self Hpairs)
    as (self1 & tasks & Hinit & Hfcs & Hmbc).
  exists self1, tasks. rewrite Hinit.
  assert (Hok : Forall (λ entry, board_tables_ok entry.2) (_mbc self1)).
  { rewrite Hmbc. apply Forall_fmap. eapply Forall_impl; [exact Hocc|].
    intros [mb c] (Htwo & Htd & Hrd & Hrx). cbn in *.
    unfold board_tables_ok, init_streamer_tables, resize_weak. cbn.
    rewrite !length_app, !length_take, !length_replicate. lia. }
  assert (Hslots : Forall (λ entry, streamer_slots_ok entry.2) (_mbc self1)).
  { rewrite Hmbc. apply Forall_fmap, Forall_true. intros [mb c].
    unfold streamer_slots_ok, init_streamer_tables, resize_weak. cbn.
    rewrite !length_app, !length_take, !length_replicate. lia. }
  assert (Hsc16 : otw_format (with_defaults args_) = "sc16").
  { unfold with_defaults. cbn. destruct Hformat as [-> | ->]; reflexivity. }
  destruct (_mbc self) as [|[mb c] rest] eqn:Hself; [contradiction|].
  apply Forall_cons in Hpairs as [(x0 & x1 & H0 & _ & Hs0 & _) _].
  cbn [snd] in H0.
  destruct (tx_bind_chans_total (with_defaults args_) (streamers_made self1)
              (channels (with_defaults args_)) 0 (_mbc self1)
              (fc_mons (_io_impl self1))
              [tx_resize (length (channels (with_defaults args_)));
               tx_set_vrt_packer vrt_send_header_offset_words32;
               tx_set_converter
                 {| input_format := cpu_format (with_defaults args_);
                    num_inputs := 1;
                    output_format := "sc16" +:+ "_item32_be";
                    num_outputs := 1 |}] Hok)
    as ([[mbs2 fcs2] calls2] & Hbind).
  { rewrite Hfcs, Hmbc, length_fmap. lia. }
  destruct (update_rates_from_total mbs2 (streamers_made self1)
              {| _mbc := mbs2;
                 _io_impl := set_fc_mons fcs2 (_io_impl self1);
                 streamers_made := S (streamers_made self1) |})
    as ([[rx_rates tx_rates] self2] & Hrates).
  { eapply streamer_slots_ok_shape; [|exact Hslots].
    eapply tx_bind_chans_outcome. exact Hbind. }
  eexists _, _. split; [reflexivity|].
  unfold get_tx_stream. rewrite Hsc16.
  rewrite bool_decide_eq_false_2
    by (intros Hne; apply Hne; reflexivity).
  unfold front_mb. rewrite Hmbc. cbn [fmap list_fmap prod_map fst snd id].
  cbn [mbind outcome_bind init_streamer_tables tx_dsp_xports].
  rewrite (at_index_Some _ _ _ H0). cbn [mbind outcome_bind].
  unfold size_t_div. rewrite (proj2 (Z.eqb_neq _ _) Hitem).
  cbn [mbind outcome_bind].
  rewrite Hmbc in Hbind. cbn [fmap list_fmap prod_map fst snd id] in Hbind.
  rewrite Hbind. cbn [mbind outcome_bind]. unfold update_rates.
  cbn [_mbc]. rewrite Hrates. reflexivity.
Qed.

End well_formed.

(** * Channel resolution in [get_rx_stream] *)

Section resolution.

Context `{!externals}.

Lemma rx_resolve_shape mbs : ∀ mbs' chan,
  board_shape <$> mbs' = board_shape <$> mbs →
  rx_resolve mbs' chan = rx_resolve mbs chan.
Proof.
  induction mbs as [|[mb c] mbs IH]; intros [|[mb' c'] mbs'] chan Hshape;
    try discriminate; [reflexivity|].
  injection Hshape as Hmb Hocc _ _ _ _ _ _ _ Htail. cbn in Hmb, Hocc.
  cbn [rx_resolve]. rewrite Hmb, Hocc, (IH mbs' _ Htail). reflexivity.
Qed.

Lemma rx_bindings_shape mbs mbs' chans : ∀ chan_i,
  board_shape <$> mbs' = board_shape <$> mbs →
  rx_bindings mbs' chan_i chans = rx_bindings mbs chan_i chans.
Proof.
  induction chans as [|chan chans IH]; intros chan_i Hshape; [reflexivity|].
  cbn [rx_bindings]. unfold rx_binding.
  rewrite (rx_resolve_shape mbs mbs' chan Hshape), (IH _ Hshape).
  reflexivity.
Qed.

Lemma rx_resolve_in_board pre mb c post : ∀ chan,
  (rx_chans pre ≤ chan)%nat →
  (chan < rx_chans pre + rx_chan_occ c)%nat →
  rx_resolve (pre ++ (mb, c) :: post) chan = Some (mb, (chan - rx_chans pre)%nat).
Proof.
  induction pre as [|[mb' c'] pre IH]; intros chan Hlo Hhi.
  - change (rx_chans []) with 0%nat in *. cbn [app rx_resolve].
    rewrite (proj2 (Nat.ltb_lt _ _)) by lia.
    rewrite Nat.sub_0_r. reflexivity.
  - rewrite rx_chans_cons in Hlo, Hhi. cbn [app rx_resolve].
    rewrite (proj2 (Nat.ltb_ge _ _)) by lia.
    rewrite IH by lia. rewrite rx_chans_cons. do 2 f_equal. lia.
Qed.

Lemma rx_resolve_past_end mbs : ∀ chan,
  (rx_chans mbs ≤ chan)%nat → rx_resolve mbs chan = None.
Proof.
  induction mbs as [|[mb c] mbs IH]; intros chan Hle; [reflexivity|].
  rewrite rx_chans_cons in Hle. cbn [rx_resolve].
  rewrite (proj2 (Nat.ltb_ge _ _)) by lia. apply IH. lia.
Qed.

(** The walk of the source, which adds up the occupancies and compares,
    binds what the layout of the specification resolves. *)
Lemma rx_bind_chan_resolved stream_args spp sc8_scalar streamer chan_i chan
    mbs : ∀ num_chan_so_far calls,
  Forall (λ entry, board_tables_ok entry.2) mbs →
  (num_chan_so_far ≤ chan)%nat →
  ∃ mbs',
    rx_bind_chan stream_args spp sc8_scalar streamer chan_i chan
      num_chan_so_far mbs calls
    = Ok (mbs', calls ++ rx_binding mbs chan_i (chan - num_chan_so_far)).
Proof.
  induction mbs as [|[mb c] mbs IH]; intros so_far calls Hok Hlo.
  - eexists. cbn. rewrite app_nil_r. reflexivity.
  - apply Forall_cons in Hok as [(Hd & Hx & Hs & _) Hok]. cbn [snd] in *.
    unfold rx_binding. cbn [rx_resolve].
    destruct (decide (chan < so_far + rx_chan_occ c)%nat) as [Hhere|Hlater].
    + rewrite (proj2 (Nat.ltb_lt _ _)) by lia.
      destruct (lookup_lt_is_Some_2 (rx_dsps c) (chan - so_far)%nat
                  ltac:(lia)) as [core Hcore].
      eexists.
      apply (rx_bind_chan_here _ _ _ _ _ _ _ _ _ _ _ core);
        (assumption || lia).
    + rewrite (proj2 (Nat.ltb_ge (chan - so_far) _)) by lia.
      cbn [rx_bind_chan]. rewrite (proj2 (Nat.ltb_ge _ _)) by lia.
      destruct (IH (so_far + rx_chan_occ c)%nat calls Hok ltac:(lia))
        as (mbs' & ->).
      eexists. cbn [mbind outcome_bind]. unfold rx_binding.
      replace (chan - so_far - rx_chan_occ c)%nat
        with (chan - (so_far + rx_chan_occ c))%nat by lia.
      reflexivity.
Qed.

Lemma rx_bind_chans_resolved stream_args spp sc8_scalar streamer chans :
  ∀ chan_i mbs calls,
  Forall (λ entry, board_tables_ok entry.2) mbs →
  ∃ mbs',
    rx_bind_chans stream_args spp sc8_scalar streamer chan_i chans mbs calls
    = Ok (mbs', calls ++ rx_bindings mbs chan_i chans).
Proof.
  induction chans as [|chan chans IH]; intros chan_i mbs calls Hok.
  - eexists. cbn. rewrite app_nil_r. reflexivity.
  - cbn [rx_bind_chans rx_bindings].
    destruct (rx_bind_chan_resolved stream_args spp sc8_scalar streamer
                chan_i chan mbs 0 calls Hok ltac:(lia)) as (mbs1 & Hone).
    rewrite Hone. cbn [mbind outcome_bind].
    pose proof (rx_bind_chan_outcome _ _ _ _ _ _ _ _ _ _ _ Hone) as Hshape.
    destruct (IH (S chan_i) mbs1
                (calls ++ rx_binding mbs chan_i (chan - 0))
                (Forall_tables_ok_shape _ _ Hshape Hok)) as (mbs' & ->).
    eexists. rewrite (rx_bindings_shape mbs mbs1 _ _ Hshape), Nat.sub_0_r.
    rewrite <- app_assoc. reflexivity.
Qed.

Lemma rx_bindings_lookup mbs chans : ∀ chan_i i chan mb dsp,
  chans !! i = Some chan →
  rx_resolve mbs chan = Some (mb, dsp) →
  rx_set_xport_chan_get_buff (chan_i + i) mb dsp true
  ∈ rx_bindings mbs chan_i chans.
Proof.
  induction chans as [|first chans IH]; intros chan_i i chan mb dsp Hi Hres;
    [discriminate|].
  cbn [rx_bindings]. apply elem_of_app. destruct i as [|i].
  - injection Hi as ->. left. unfold rx_binding. rewrite Hres.
    rewrite Nat.add_0_r. apply list_elem_of_here.
  - right. replace (chan_i + S i)%nat with (S chan_i + i)%nat by lia.
    eapply IH; eassumption.
Qed.

(** The weak pointers of the receive tables: a walk only ever writes the
    streamer it binds. *)
Lemma rx_dsp_do_weak dsp call c c' :
  rx_dsp_do dsp call c = Ok c' → rx_streamers c' = rx_streamers c.
Proof.
  unfold rx_dsp_do. intros (core & _ & [= <-])%bind_Ok_inv. reflexivity.
Qed.

Lemma rx_bind_chan_weak stream_args spp sc8_scalar streamer chan_i chan mbs :
  ∀ num_chan_so_far calls mbs' calls',
  rx_bind_chan stream_args spp sc8_scalar streamer chan_i chan
    num_chan_so_far mbs calls = Ok (mbs', calls') →
  Forall2 (λ entry entry',
             entry'.1 = entry.1
             ∧ (rx_streamers entry'.2 = rx_streamers entry.2
                ∨ ∃ dsp, rx_streamers entry'.2
                         = <[dsp := Some streamer]> (rx_streamers entry.2)))
    mbs mbs'.
Proof.
  induction mbs as [|[mb c] mbs IH]; intros so_far calls mbs' calls' Hbind.
  - injection Hbind as <- <-. constructor.
  - cbn [rx_bind_chan] in Hbind.
    destruct (_ <? _)%nat.
    + apply bind_Ok_inv in Hbind as (c1 & H1 & Hbind).
      apply bind_Ok_inv in Hbind as (c2 & H2 & Hbind).
      apply bind_Ok_inv in Hbind as (c3 & H3 & Hbind).
      apply bind_Ok_inv in Hbind as (x & _ & Hbind).
      apply bind_Ok_inv in Hbind as (c4 & H4 & [= <- <-]).
      assert (Hweak2 : rx_streamers c2 = rx_streamers c1).
      { destruct (negb _); [eapply rx_dsp_do_weak; eassumption|].
        injection H2 as <-. reflexivity. }
      apply rx_dsp_do_weak in H1, H3.
      unfold set_rx_streamer in H4.
      apply bind_Ok_inv in H4 as (weak & _ & [= <-]).
      constructor.
      * split; [reflexivity|]. right. eexists. cbn.
        rewrite H3, Hweak2, H1. reflexivity.
      * apply Forall2_same_length_lookup. split; [reflexivity|].
        intros k e e' He He'. assert (e' = e) as -> by congruence. auto.
    + apply bind_Ok_inv in Hbind as ([rest1 calls1] & Hrest & [= <- <-]).
      constructor; [auto|]. eapply IH. eassumption.
Qed.

(** Board number [k] is [mb], and its weak pointer for slot [dsp] refers
    to [streamer]. *)
Lemma rx_bind_chan_keeps_weak stream_args spp sc8_scalar streamer chan_i
    chan mbs num_chan_so_far calls mbs' calls' k mb c dsp :
  rx_bind_chan stream_args spp sc8_scalar streamer chan_i chan
    num_chan_so_far mbs calls = Ok (mbs', calls') →
  mbs !! k = Some (mb, c) →
  rx_streamers c !! dsp = Some (Some streamer) →
  ∃ c', mbs' !! k = Some (mb, c')
        ∧ rx_streamers c' !! dsp = Some (Some streamer).
Proof.
  intros Hbind Hk Hdsp. apply rx_bind_chan_weak in Hbind.
  destruct (Forall2_lookup_l _ _ _ _ _ Hbind Hk)
    as ([mb' c'] & Hk' & Hmb & Hweak).
  cbn in Hmb, Hweak. subst mb'. exists c'. split; [assumption|].
  destruct Hweak as [->|[d ->]]; [assumption|].
  destruct (decide (d = dsp)) as [->|Hne].
  - apply list_lookup_insert_eq. apply lookup_lt_is_Some. eauto.
  - rewrite list_lookup_insert_ne by assumption. assumption.
Qed.

Lemma rx_bind_chans_keeps_weak stream_args spp sc8_scalar streamer chans :
  ∀ chan_i mbs calls mbs' calls' k mb c dsp,
  rx_bind_chans stream_args spp sc8_scalar streamer chan_i chans mbs calls
  = Ok (mbs', calls') →
  mbs !! k = Some (mb, c) →
  rx_streamers c !! dsp = Some (Some streamer) →
  ∃ c', mbs' !! k = Some (mb, c')
        ∧ rx_streamers c' !! dsp = Some (Some streamer).
Proof.
  induction chans as [|chan chans IH];
    intros chan_i mbs calls mbs' calls' k mb c dsp Hb Hk Hdsp.
  - injection Hb as <- <-. eauto.
  - cbn [rx_bind_chans] in Hb.
    apply bind_Ok_inv in Hb as ([mbs1 calls1] & Hone & Hrest).
    destruct (rx_bind_chan_keeps_weak _ _ _ _ _ _ _ _ _ _ _ _ _ _ _
                Hone Hk Hdsp) as (c1 & Hk1 & Hdsp1).
    eapply IH; eassumption.
Qed.

Lemma board_shape_split mbs' pre mb c post :
  board_shape <$> mbs' = board_shape <$> (pre ++ (mb, c) :: post) →
  ∃ pre' c' post',
    mbs' = pre' ++ (mb, c') :: post'
    ∧ board_shape <$> pre' = board_shape <$> pre
    ∧ board_shape (mb, c') = board_shape (mb, c).
Proof.
  revert mbs'. induction pre as [|entry pre IH]; intros [|entry' mbs'] Hshape;
    try discriminate.
  - cbn [app fmap list_fmap] in Hshape.
    apply (inj2 cons) in Hshape as [Hhead Htail].
    destruct entry' as [mb' c'].
    assert (mb' = mb) as -> by (apply (f_equal (λ s, s.1.1)) in Hhead;
                                exact Hhead).
    exists [], c', mbs'. auto.
  - cbn [app fmap list_fmap] in Hshape.
    apply (inj2 cons) in Hshape as [Hhead Htail].
    destruct (IH mbs' Htail) as (pre' & c' & post' & -> & Hpre & Hc).
    exists (entry' :: pre'), c', post'. split; [reflexivity|].
    split; [|assumption]. cbn [fmap list_fmap]. congruence.
Qed.

(** Every requested channel that falls on a board leaves that board's weak
    pointer for its slot referring to the streamer. *)
Lemma rx_bind_chans_sets_weak stream_args spp sc8_scalar streamer chans :
  ∀ chan_i mbs calls mbs' calls' i chan pre mb c post,
  Forall (λ entry, board_tables_ok entry.2) mbs →
  rx_bind_chans stream_args spp sc8_scalar streamer chan_i chans mbs calls
  = Ok (mbs', calls') →
  chans !! i = Some chan →
  mbs = pre ++ (mb, c) :: post →
  (rx_chans pre ≤ chan)%nat →
  (chan < rx_chans pre + rx_chan_occ c)%nat →
  ∃ c', mbs' !! length pre = Some (mb, c')
        ∧ rx_streamers c' !! (chan - rx_chans pre)%nat
          = Some (Some streamer).
Proof.
  induction chans as [|first chans IH];
    intros chan_i mbs calls mbs' calls' i chan pre mb c post Hok Hb Hi Hmbs
      Hlo Hhi; [discriminate|].
  cbn [rx_bind_chans] in Hb.
  apply bind_Ok_inv in Hb as ([mbs1 calls1] & Hone & Hrest).
  pose proof (rx_bind_chan_outcome _ _ _ _ _ _ _ _ _ _ _ Hone) as Hshape.
  destruct i as [|i].
  - injection Hi as ->. subst mbs.
    apply Forall_app in Hok as [_ Hok].
    apply Forall_cons in Hok as [(Hd & Hx & Hs & _) _]. cbn [snd] in *.
    destruct (lookup_lt_is_Some_2 (rx_dsps c) (chan - rx_chans pre)%nat
                ltac:(lia)) as [core Hcore].
    rewrite rx_bind_chan_skips in Hone by lia. cbn [Nat.add] in Hone.
    rewrite (rx_bind_chan_here _ _ _ _ _ _ _ _ _ _ _ core) in Hone
      by (assumption || lia).
    cbn [mbind outcome_bind] in Hone. injection Hone as <- <-.
    eapply rx_bind_chans_keeps_weak; [exact Hrest| |].
    + apply list_lookup_middle. reflexivity.
    + cbn [rx_bound rx_streamers]. apply list_lookup_insert_eq. lia.
  - subst mbs.
    destruct (board_shape_split _ _ _ _ _ Hshape)
      as (pre1 & c1 & post1 & -> & Hpre & Hc).
    destruct (rx_chans_shape _ _ Hpre) as (Hchans & _ & _).
    assert (Hocc : rx_chan_occ c1 = rx_chan_occ c)
      by (unfold board_shape in Hc; cbn in Hc; congruence).
    assert (Hlen : length pre1 = length pre).
    { rewrite <- (length_fmap board_shape pre1), Hpre, length_fmap.
      reflexivity. }
    rewrite <- Hlen, <- Hchans.
    eapply (IH (S chan_i) _ calls1 mbs' calls' i chan pre1 mb c1 post1);
      [|exact Hrest|exact Hi|reflexivity|lia|lia].
    eapply Forall_tables_ok_shape; eassumption.
Qed.

(** C8.  [get_rx_stream] on boards whose tables cover their channels
    returns a streamer, and the channels it binds are those that the layout
    of the specification resolves: the boards are taken in registration
    order, the channels of the first board are the lowest logical indices,
    and position [chan_i] of the request is bound to the board on which
    its channel falls, at the channel's offset within that board; a channel
    past the last board is bound to nothing.  The bindings come in request
    order, after the streamer's set-up calls and before the alignment
    threshold and the rate updates.  The slot is the [dsp] that the source
    computes, [chan + rx_chan_occ - num_chan_so_far] with the channels
    counted up to and including the board, and that board's weak pointer
    for the slot refers to the new streamer. *)
Theorem get_rx_stream_resolves_channels
    (args_ : stream_args_t) (self : umtrx_impl)
    (mb0 : string) (c0 : mb_container) (rest : list (string * mb_container))
    (xport0 : zero_copy_if)
    (Hfront : _mbc self = (mb0, c0) :: rest)
    (Hxport : rx_dsp_xports c0 !! 0%nat = Some xport0)
    (Hitem : get_bytes_per_item (otw_format (with_defaults args_)) ≠ 0%Z)
    (Htables : Forall (λ entry, board_tables_ok entry.2) (_mbc self))
    (Hslots : Forall (λ entry, streamer_slots_ok entry.2) (_mbc self)) :
  let stream_args := with_defaults args_ in
  ∃ my_streamer self' rates,
    get_rx_stream args_ self = (Ok my_streamer, self')
    ∧ rx_calls my_streamer
      = [rx_resize (length (channels stream_args));
         rx_set_vrt_unpacker;
         rx_set_converter
           {| input_format := otw_format stream_args +:+ "_item32_be";
              num_inputs := 1;
              output_format := cpu_format stream_args;
              num_outputs := 1 |}]
        ++ rx_bindings (_mbc self) 0 (channels stream_args)
        ++ [rx_set_alignment_failure_threshold
              (packets_per_sock_buff_of (get_recv_frame_size xport0))]
        ++ rates
    ∧ Forall is_rx_rate_call rates
    ∧ (∀ chan_i chan pre mb c post,
         channels stream_args !! chan_i = Some chan →
         _mbc self = pre ++ (mb, c) :: post →
         (rx_chans pre ≤ chan)%nat →
         (chan < rx_chans pre + rx_chan_occ c)%nat →
         let num_chan_so_far := (rx_chans pre + rx_chan_occ c)%nat in
         let dsp := (chan + rx_chan_occ c - num_chan_so_far)%nat in
         dsp = (chan - rx_chans pre)%nat
         ∧ (dsp < rx_chan_occ c)%nat
         ∧ rx_resolve (_mbc self) chan = Some (mb, dsp)
         ∧ rx_set_xport_chan_get_buff chan_i mb dsp true
           ∈ rx_calls my_streamer
         ∧ ∃ c', _mbc self' !! length pre = Some (mb, c')
                 ∧ rx_streamers c' !! dsp
                   = Some (Some (rx_streamer_id my_streamer)))
    ∧ (∀ chan, (rx_chans (_mbc self) ≤ chan)%nat →
         rx_resolve (_mbc self) chan = None).
Proof.
  intros stream_args.
  set (spp := (size_t (Z.of_nat (get_recv_frame_size xport0) - rx_hdr_size)
               / get_bytes_per_item (otw_format stream_args))%Z).
  set (calls := [rx_resize (length (channels stream_args));
                 rx_set_vrt_unpacker;
                 rx_set_converter
                   {| input_format := otw_format stream_args +:+ "_item32_be";
                      num_inputs := 1;
                      output_format := cpu_format stream_args;
                      num_outputs := 1 |}]).
  destruct (rx_bind_chans_resolved stream_args spp
              (sc8_scalar_of (args stream_args)) (streamers_made self)
              (channels stream_args) 0 (_mbc self) calls Htables)
    as (mbs1 & Hbind).
  pose proof (rx_bind_chans_shape _ _ _ _ _ _ _ _ _ _ Hbind) as Hshape.
  destruct (update_rates_from_total mbs1 (streamers_made self)
              {| _mbc := mbs1;
                 _io_impl := _io_impl self;
                 streamers_made := S (streamers_made self) |}
              (streamer_slots_ok_shape _ _ Hshape Hslots))
    as ([[rx_rates tx_rates] self1] & Hrates).
  assert (Hmade : get_rx_stream args_ self
                  = (Ok {| rx_streamer_id := streamers_made self;
                           rx_samps_per_packet := spp;
                           rx_calls :=
                             (calls ++ rx_bindings (_mbc self) 0
                                         (channels stream_args))
                             ++ [rx_set_alignment_failure_threshold
                                   (packets_per_sock_buff_of
                                      (get_recv_frame_size xport0))]
                             ++ rx_rates |},
                     self1)).
  { subst spp calls stream_args.
    unfold get_rx_stream, front_mb. rewrite Hfront.
    cbn [mbind outcome_bind]. rewrite (at_index_Some _ _ _ Hxport).
    cbn [mbind outcome_bind]. unfold size_t_div.
    rewrite (proj2 (Z.eqb_neq _ _) Hitem).
    cbn [mbind outcome_bind]. rewrite <- Hfront, Hbind.
    cbn [mbind outcome_bind]. unfold update_rates. cbn [_mbc].
    rewrite Hrates. reflexivity. }
  apply update_rates_from_outcome in Hrates
    as (Hmbc & _ & _ & _ & _ & _ & Hrate_calls & _).
  cbn [_mbc] in Hmbc.
  eexists _, self1, rx_rates. split; [exact Hmade|].
  cbn [rx_calls rx_streamer_id].
  split; [rewrite <- app_assoc; reflexivity|]. split; [assumption|].
  split; [|apply rx_resolve_past_end].
  intros chan_i chan pre mb c post Hchan Hmbs Hlo Hhi.
  set (dsp := (chan + rx_chan_occ c - (rx_chans pre + rx_chan_occ c))%nat).
  assert (Hdsp : dsp = (chan - rx_chans pre)%nat) by (subst dsp; lia).
  assert (Hres : rx_resolve (_mbc self) chan = Some (mb, dsp)).
  { rewrite Hmbs, Hdsp. apply rx_resolve_in_board; assumption. }
  split; [exact Hdsp|]. split; [lia|]. split; [exact Hres|]. split.
  - apply elem_of_app. left. apply elem_of_app. right.
    apply (rx_bindings_lookup (_mbc self) (channels stream_args) 0 chan_i
             chan mb dsp Hchan Hres).
  - rewrite Hmbc, Hdsp.
    eapply rx_bind_chans_sets_weak; eassumption.
Qed.

End resolution.

(** * Worked examples for the further properties *)

(** X1 on a fresh monitor of window 4: the fifth send is blocked. *)
Lemma window_admits_exactly_witness :
  let m := flow_control_monitor.make 4 in
  flow_control_monitor._last_seq_ack m = flow_control_monitor._last_seq_out m
  ∧ (Z.of_nat 4 < 2 ^ 32)%Z
  ∧ flow_control_monitor.ready
      (flow_control_monitor.run
         (replicate 4 flow_control_monitor.call_get_curr_seq_out) m)
    = false.
Proof.
  intros m.
  assert (Hidle : flow_control_monitor._last_seq_ack m
                  = flow_control_monitor._last_seq_out m) by reflexivity.
  assert (Hn : (Z.of_nat 4 < 2 ^ 32)%Z) by (vm_compute; reflexivity).
  split; [exact Hidle|]. split; [exact Hn|].
  exact (window_admits_exactly m 4 Hidle Hn).
Defined.

(** X2 on an acknowledgement, a null buffer and an underflow report. *)
Lemma recv_pirate_loop_keeps_witness :
  let io := sample_io 4 in
  let receptions := [Some (sample_status_frame 0 7); None;
                     Some (sample_status_frame 2 0)] in
  (0 < bounded_buffer.capacity (async_msg_fifo io))%nat
  ∧ (bounded_buffer.size (async_msg_fifo io)
     ≤ bounded_buffer.capacity (async_msg_fifo io))%nat
  ∧ ∃ io' effects,
      recv_pirate_loop 0 receptions io = Ok (io', effects)
      ∧ pirate_keeps 0 io io'
      ∧ (bounded_buffer.size (async_msg_fifo io')
         ≤ bounded_buffer.capacity (async_msg_fifo io'))%nat.
Proof.
  intros io receptions.
  assert (Hcap : (0 < bounded_buffer.capacity (async_msg_fifo io))%nat)
    by (cbn; lia).
  assert (Hsize : (bounded_buffer.size (async_msg_fifo io)
                   ≤ bounded_buffer.capacity (async_msg_fifo io))%nat)
    by (cbn; lia).
  split; [exact Hcap|]. split; [exact Hsize|].
  pose proof (recv_pirate_loop_keeps 0 receptions io Hcap Hsize) as Hkeeps.
  destruct (recv_pirate_loop 0 receptions io) as [[io' effects]| |] eqn:Hloop;
    [|discriminate Hloop|discriminate Hloop].
  exists io', effects. split; [reflexivity|exact Hkeeps].
Defined.

(** X3 on a status frame of stream id 5. *)
Lemma recv_pirate_turn_drops_silently_witness :
  let buff := [byteswap32 (Z.lor (Z.shiftl 2 29) 4); byteswap32 5;
               0%Z; 0%Z] in
  let io := sample_io 4 in
  let info := {| packet_type := PACKET_TYPE_CONTEXT;
                 num_header_words32 := 2; num_packet_words32 := 4;
                 sid := 5; has_tsi := false; tsi := 0;
                 has_tsf := false; tsf := 0 |} in
  fc_mons io !! 0%nat = Some (flow_control_monitor.make 4)
  ∧ @if_hdr_unpack_be sample_host buff (length buff) = Ok info
  ∧ ((sid info ≠ (@USRP2_TX_ASYNC_SID_BASE sample_host + 0)%Z
      ∧ sid info ≠ (@USRP2_TX_ASYNC_SID_BASE sample_host + 1)%Z)
     ∨ packet_type info = PACKET_TYPE_DATA)
  ∧ recv_pirate_turn 0 (Some buff) io = Ok (io, []).
Proof.
  intros buff io info.
  assert (Hmon : fc_mons io !! 0%nat = Some (flow_control_monitor.make 4))
    by reflexivity.
  assert (Hunpack : @if_hdr_unpack_be sample_host buff (length buff) = Ok info)
    by reflexivity.
  assert (Hother : (sid info ≠ (@USRP2_TX_ASYNC_SID_BASE sample_host + 0)%Z
                    ∧ sid info ≠ (@USRP2_TX_ASYNC_SID_BASE sample_host + 1)%Z)
                   ∨ packet_type info = PACKET_TYPE_DATA)
    by (left; split; discriminate).
  split; [exact Hmon|]. split; [exact Hunpack|]. split; [exact Hother|].
  exact (proj1 (recv_pirate_turn_drops_silently 0 buff io _ info
                  Hmon Hunpack Hother)).
Defined.

(** An acknowledgement of three words has no credit word: the read of
    the word after the context code leaves the buffer. *)
Example recv_pirate_loop_truncated_ack :
  recv_pirate_loop 0
    [Some [byteswap32 (Z.lor (Z.shiftl 2 29) 3); byteswap32 2; byteswap32 0]]
    (sample_io 4)
  = Undefined.
Proof. reflexivity. Qed.

(** X4 on an empty buffer, which the sample codec refuses. *)
Lemma recv_pirate_loop_survives_bad_frame_witness :
  let io := sample_io 4 in
  let e := value_error "bad vrt header or packet fragment" in
  @if_hdr_unpack_be sample_host [] 0 = Throw e
  ∧ is_std_exception e = true
  ∧ recv_pirate_loop 0 [Some []; Some (sample_status_frame 0 7)] io
    = Ok (set_fc_mon 0
            (flow_control_monitor.update_fc_condition 7
               (flow_control_monitor.make 4)) io,
          [did_msg_error; did_update_fc_condition 0 7]).
Proof.
  intros io e.
  assert (Hunpack : @if_hdr_unpack_be sample_host [] (length ([] : list Z))
                    = Throw e) by reflexivity.
  split; [exact Hunpack|]. split; [reflexivity|].
  exact (proj1 (recv_pirate_loop_survives_bad_frame 0 [] e
                  [Some (sample_status_frame 0 7)] io Hunpack) eq_refl).
Defined.

(** X5 on the two sample boards with an SRAM of one megabyte. *)
Lemma io_init_builds_channels_witness :
  Forall (λ entry, tx_pair_ok entry.2) (_mbc sample_device)
  ∧ ∃ self' tasks,
      io_init 1048576 (0%Z : @double sample_host) sample_device
      = Ok (self', tasks)
      ∧ length (fc_mons (_io_impl self')) = 4%nat
      ∧ fc_mons (_io_impl self')
        = replicate 4 (flow_control_monitor.make 712).
Proof.
  assert (Hboards : Forall (λ entry, tx_pair_ok entry.2) (_mbc sample_device)).
  { repeat constructor; eexists _, _;
      (split; [reflexivity|split; [reflexivity|split; discriminate]]). }
  split; [exact Hboards|].
  destruct (io_init_builds_channels 1048576 (0%Z : @double sample_host)
              sample_device Hboards)
    as (self' & tasks & Hinit & _ & Hfcs & Hlen & _).
  exists self', tasks. split; [exact Hinit|]. split; [exact Hlen|exact Hfcs].
Defined.

(** X6 on three calls, the second of which gets no buffer. *)
Lemma get_send_buffs_number_consecutively_witness :
  let io := sample_io 4 in
  let calls := [([], Some [9; 1]%Z); ([], None); ([], Some [9; 2]%Z)] in
  fc_mons io !! 0%nat = Some (flow_control_monitor.make 4)
  ∧ is_seq (flow_control_monitor._last_seq_out (flow_control_monitor.make 4))
  ∧ match get_send_buffs 0 calls io with
    | Ok (buffs, io') =>
        ∃ fc_mon',
          fc_mons io' !! 0%nat = Some fc_mon'
          ∧ flow_control_monitor._last_seq_out fc_mon'
            = seq_type (0 + Z.of_nat (length (first_words buffs)))
          ∧ first_words buffs
            = (λ k, byteswap32 (seq_type (0 + Z.of_nat k)))
                <$> seq 0 (length (first_words buffs))
    | Throw _ => False
    | Undefined => True
    end.
Proof.
  intros io calls.
  assert (Hmon : fc_mons io !! 0%nat = Some (flow_control_monitor.make 4))
    by reflexivity.
  assert (Hseq : is_seq (flow_control_monitor._last_seq_out
                           (flow_control_monitor.make 4)))
    by (unfold is_seq; cbn; split; [lia|reflexivity]).
  split; [exact Hmon|]. split; [exact Hseq|].
  exact (get_send_buffs_number_consecutively 0 calls io _ Hmon Hseq).
Defined.

(** X7 with an SRAM of 1000 bytes and frames of 1472. *)
Lemma oversized_frame_blocks_channel_witness :
  let xport := {| get_send_frame_size := 1472; get_recv_frame_size := 1472 |} in
  let io := sample_io 0 in
  (0 ≤ 1000 < 2 ^ 64)%Z
  ∧ (1000 < Z.of_nat (get_send_frame_size xport))%Z
  ∧ fc_mons io !! 0%nat
    = Some (flow_control_monitor.make (window_of 1000 xport))
  ∧ get_send_buff 0 [flow_control_monitor.ack_arrives 5]
      (Some [9; 1]%Z) io
    = Ok (None,
          set_fc_mon 0
            (flow_control_monitor.update_fc_condition 5
               (flow_control_monitor.make 0)) io).
Proof.
  intros xport io.
  assert (Hsram : (0 ≤ 1000 < 2 ^ 64)%Z) by (split; [lia|reflexivity]).
  assert (Hframe : (1000 < Z.of_nat (get_send_frame_size xport))%Z)
    by (cbn; lia).
  assert (Hmon : fc_mons io !! 0%nat
                 = Some (flow_control_monitor.make (window_of 1000 xport)))
    by reflexivity.
  split; [exact Hsram|]. split; [exact Hframe|]. split; [exact Hmon|].
  exact (proj2 (oversized_frame_blocks_channel 1000 xport 0
                  [flow_control_monitor.ack_arrives 5] (Some [9; 1]%Z) io
                  Hsram Hframe Hmon)).
Defined.

(** X8 on a request for logical channel 2 of the sample device, before
    any tick rate has reached the io implementation. *)
Lemma get_rx_stream_keeps_boards_witness :
  let request := sample_request 2 in
  let my_streamer :=
    {| rx_streamer_id := 0;
       rx_samps_per_packet := 362;
       rx_calls :=
         [rx_resize 1; rx_set_vrt_unpacker;
          rx_set_converter
            {| input_format := "sc16_item32_be"; num_inputs := 1;
               output_format := "fc32"; num_outputs := 1 |};
          rx_set_xport_chan_get_buff 0 "B" 0 true;
          rx_set_alignment_failure_threshold 33967;
          rx_set_tick_rate "A"; rx_set_tick_rate "B";
          rx_set_samp_rate "B" 0; rx_set_scale_factor "B" 0] |} in
  let self' :=
    {| _mbc := [("A", sample_board 2);
                ("B", rx_bound request 362 1024 0 0 [] (sample_board 2))];
       _io_impl := _io_impl sample_device;
       streamers_made := 1 |} in
  get_rx_stream request sample_device_untold = (Ok my_streamer, self')
  ∧ rx_chans (_mbc self') = rx_chans (_mbc sample_device_untold)
  ∧ fc_mons (_io_impl self') = fc_mons (_io_impl sample_device_untold)
  ∧ ∃ mb, last (_mbc sample_device_untold).*1 = Some mb
          ∧ tick_rate (_io_impl self') = @tree_tick_rate sample_host mb.
Proof.
  intros request my_streamer self'.
  assert (Hmade : get_rx_stream request sample_device_untold
                  = (Ok my_streamer, self')) by reflexivity.
  split; [exact Hmade|].
  destruct (get_rx_stream_keeps_boards request sample_device_untold self'
              my_streamer Hmade) as (_ & Hrx & _ & _ & Hmons & _ & Htick & _).
  split; [exact Hrx|]. split; [exact Hmons|exact Htick].
Defined.

(** X9 on a request for logical channel 2 of the same device. *)
Lemma get_tx_stream_keeps_engine_witness :
  let request := sample_request 2 in
  let my_streamer :=
    {| tx_streamer_id := 0;
       tx_samps_per_packet := 362;
       tx_calls :=
         [tx_resize 1; tx_set_vrt_packer 1;
          tx_set_converter
            {| input_format := "fc32"; num_inputs := 1;
               output_format := "sc16_item32_be"; num_outputs := 1 |};
          tx_set_xport_chan_get_buff 0 2;
          tx_set_tick_rate "A"; tx_set_tick_rate "B";
          tx_set_samp_rate "B" 0] |} in
  let self' :=
    {| _mbc := [("A", sample_board 2);
                ("B", tx_bound request 0 0 [] (sample_board 2))];
       _io_impl :=
         set_fc_mon 2 (flow_control_monitor.make 712)
           (_io_impl sample_device);
       streamers_made := 1 |} in
  get_tx_stream request sample_device_untold = (Ok my_streamer, self')
  ∧ tx_chans (_mbc self') = tx_chans (_mbc sample_device_untold)
  ∧ length (fc_mons (_io_impl self')) = 4%nat
  ∧ ∃ mb, last (_mbc sample_device_untold).*1 = Some mb
          ∧ tick_rate (_io_impl self') = @tree_tick_rate sample_host mb.
Proof.
  intros request my_streamer self'.
  assert (Hmade : get_tx_stream request sample_device_untold
                  = (Ok my_streamer, self')) by reflexivity.
  split; [exact Hmade|].
  destruct (get_tx_stream_keeps_engine request sample_device_untold self'
              my_streamer Hmade) as (_ & Htx & _ & _ & Htick & Hlen & _).
  split; [exact Htx|]. split; [exact Hlen|exact Htick].
Defined.

(** X10 on the same request: monitor 2 is left cleared. *)
Lemma new_tx_streamer_starts_at_zero_witness :
  let request := sample_request 2 in
  let my_streamer :=
    {| tx_streamer_id := 0;
       tx_samps_per_packet := 362;
       tx_calls :=
         [tx_resize 1; tx_set_vrt_packer 1;
          tx_set_converter
            {| input_format := "fc32"; num_inputs := 1;
               output_format := "sc16_item32_be"; num_outputs := 1 |};
          tx_set_xport_chan_get_buff 0 2;
          tx_set_tick_rate "A"; tx_set_tick_rate "B";
          tx_set_samp_rate "B" 0] |} in
  let self' :=
    {| _mbc := [("A", sample_board 2);
                ("B", tx_bound request 0 0 [] (sample_board 2))];
       _io_impl := _io_impl sample_device;
       streamers_made := 1 |} in
  has_key (args request) "noclear" = false
  ∧ get_tx_stream request sample_device = (Ok my_streamer, self')
  ∧ tx_set_xport_chan_get_buff 0 2 ∈ tx_calls my_streamer
  ∧ ∃ fc_mon,
      fc_mons (_io_impl sample_device) !! 2%nat = Some fc_mon
      ∧ fc_mons (_io_impl self') !! 2%nat
        = Some (flow_control_monitor.clear fc_mon).
Proof.
  intros request my_streamer self'.
  assert (Hclear : has_key (args request) "noclear" = false) by reflexivity.
  assert (Hmade : get_tx_stream request sample_device
                  = (Ok my_streamer, self')) by reflexivity.
  assert (Hbound : tx_set_xport_chan_get_buff 0 2 ∈ tx_calls my_streamer)
    by (do 3 apply list_elem_of_further; apply list_elem_of_here).
  split; [exact Hclear|]. split; [exact Hmade|]. split; [exact Hbound|].
  destruct (new_tx_streamer_starts_at_zero request sample_device self'
              my_streamer 0 2 Hclear Hmade Hbound)
    as (fc_mon & Hold & Hnew & _).
  exists fc_mon. split; [exact Hold|exact Hnew].
Defined.

(** X11 on boards "A" and "B" of two channels each: logical channel 3 is
    slot 1 of board "B" and flow control monitor 3. *)
Lemma tx_bind_chan_resolves_witness :
  let request := sample_request 3 in
  let pre := [("A", sample_board 2)] in
  let c := sample_board 2 in
  let fcs := replicate 4 (flow_control_monitor.make 712) in
  (tx_chans pre ≤ 3)%nat
  ∧ (3 < tx_chans pre + tx_chan_occ c)%nat
  ∧ tx_dsps c !! (3 - tx_chans pre)%nat = Some []
  ∧ (3 - tx_chans pre < length (tx_streamers c))%nat
  ∧ fcs !! (2 * length pre + (3 - tx_chans pre))%nat
    = Some (flow_control_monitor.make 712)
  ∧ tx_bind_chan request 7 0 3 0 0 (pre ++ [("B", c)]) fcs []
    = Ok (pre ++ [("B", tx_bound request 7 1 [] c)],
          <[3%nat := flow_control_monitor.clear
                       (flow_control_monitor.make 712)]> fcs,
          [tx_set_xport_chan_get_buff 0 3]).
Proof.
  intros request pre c fcs.
  assert (Hlo : (tx_chans pre ≤ 3)%nat) by (cbn; lia).
  assert (Hhi : (3 < tx_chans pre + tx_chan_occ c)%nat) by (cbn; lia).
  assert (Hcore : tx_dsps c !! (3 - tx_chans pre)%nat = Some [])
    by reflexivity.
  assert (Hweak : (3 - tx_chans pre < length (tx_streamers c))%nat)
    by (cbn; lia).
  assert (Hmon : fcs !! (2 * length pre + (3 - tx_chans pre))%nat
                 = Some (flow_control_monitor.make 712)) by reflexivity.
  repeat (split; [assumption|]).
  destruct (tx_bind_chan_resolves request 7 0 3 pre [] "B" c fcs [] [] _
              Hlo Hhi Hcore Hweak Hmon) as (_ & Hbind & _).
  exact Hbind.
Defined.

(** X12 on the sample device: 1472-byte frames, a 24-byte header and
    4-byte items give 362 samples per packet. *)
Lemma tx_samps_per_packet_fits_witness :
  let request := sample_request 4 in
  let my_streamer :=
    {| tx_streamer_id := 0;
       tx_samps_per_packet := 362;
       tx_calls :=
         [tx_resize 1; tx_set_vrt_packer 1;
          tx_set_converter
            {| input_format := "fc32"; num_inputs := 1;
               output_format := "sc16_item32_be"; num_outputs := 1 |}] |} in
  let self' :=
    {| _mbc := _mbc sample_device;
       _io_impl := _io_impl sample_device;
       streamers_made := 1 |} in
  let xport0 := {| get_send_frame_size := 1472;
                   get_recv_frame_size := 1472 |} in
  _mbc sample_device = ("A", sample_board 2) :: [("B", sample_board 2)]
  ∧ tx_dsp_xports (sample_board 2) !! 0%nat = Some xport0
  ∧ (Z.of_nat (get_send_frame_size xport0) < 2 ^ 64)%Z
  ∧ (0 < @get_bytes_per_item sample_host "sc16")%Z
  ∧ get_tx_stream request sample_device = (Ok my_streamer, self')
  ∧ (@tx_hdr_size sample_host + 362 * 4 ≤ 1472)%Z
  ∧ (1472 < @tx_hdr_size sample_host + (362 + 1) * 4)%Z.
Proof.
  intros request my_streamer self' xport0.
  assert (Hfront : _mbc sample_device
                   = ("A", sample_board 2) :: [("B", sample_board 2)])
    by reflexivity.
  assert (Hxport : tx_dsp_xports (sample_board 2) !! 0%nat = Some xport0)
    by reflexivity.
  assert (Hframe : (Z.of_nat (get_send_frame_size xport0) < 2 ^ 64)%Z)
    by reflexivity.
  assert (Hitem : (0 < @get_bytes_per_item sample_host "sc16")%Z)
    by reflexivity.
  assert (Hmade : get_tx_stream request sample_device
                  = (Ok my_streamer, self')) by reflexivity.
  repeat (split; [assumption|]).
  destruct (tx_samps_per_packet_fits request sample_device self' my_streamer
              "A" (sample_board 2) [("B", sample_board 2)] xport0
              Hfront Hxport Hframe Hitem Hmade) as [Hfits _].
  destruct (Hfits ltac:(vm_compute; discriminate)) as (_ & Hlow & Hhigh).
  split; [exact Hlow|exact Hhigh].
Defined.

(** X13 on register 5 and data byte 7: the word is 0x8507. *)
Lemma write_addr_command_layout_witness :
  (0 ≤ 5 < 128)%Z
  ∧ (0 ≤ 7 < 256)%Z
  ∧ (spi_log <$> (write_addr 1 5 7 true [("0", sample_spi)]).*2)
    = [[{| which_slave := 1; edge := EDGE_RISE; data := 34055;
           num_bits := 16; readback := false |}]].
Proof.
  assert (Haddr : (0 ≤ 5 < 128)%Z) by lia.
  assert (Hdata : (0 ≤ 7 < 256)%Z) by lia.
  split; [exact Haddr|]. split; [exact Hdata|].
  exact (proj1 (write_addr_command_layout 1 5 7 true [("0", sample_spi)]
                  Haddr Hdata)).
Defined.

(** X14 on two boards: only board "0" sees the read. *)
Lemma read_addr_first_board_only_witness :
  (0 ≤ 5 ≤ 127)%Z
  ∧ read_addr 1 5 false [("0", sample_spi); ("1", sample_spi)]
    = (1%Z,
       [("0", {| spi_log := [{| which_slave := 1; edge := EDGE_FALL;
                                data := 1280; num_bits := 16;
                                readback := true |}];
                 spi_device := spi_device sample_spi |});
        ("1", sample_spi)]).
Proof.
  assert (Haddr : (0 ≤ 5 ≤ 127)%Z) by lia.
  split; [exact Haddr|].
  exact (proj1 (read_addr_first_board_only 1 5 false "0" sample_spi
                  [("1", sample_spi)] 0 Haddr)).
Defined.

(** X15 on two boards: the answer is that of board "0" to its second
    transaction. *)
Lemma write_n_check_reads_back_first_witness :
  (0 ≤ 5 < 128)%Z
  ∧ (write_n_check 1 5 7 true [("0", sample_spi); ("1", sample_spi)]).1
    = 2%Z.
Proof.
  assert (Haddr : (0 ≤ 5 < 128)%Z) by lia.
  split; [exact Haddr|].
  exact (f_equal fst
           (proj1 (write_n_check_reads_back_first 1 5 7 true "0" sample_spi
                     [("1", sample_spi)] Haddr))).
Defined.

(** X16 with expected number 9: register 0x00090003 passes as 9.3. *)
Lemma fpga_compat_accepts_witness :
  (0 < 9 < 65536)%Z
  ∧ (0 ≤ 589827 < 2 ^ 32)%Z
  ∧ check_fpga_compat 9 589827 = fpga_compatible 9 3.
Proof.
  assert (Hexpected : (0 < 9 < 65536)%Z) by lia.
  assert (Hregister : (0 ≤ 589827 < 2 ^ 32)%Z) by (split; [lia|reflexivity]).
  split; [exact Hexpected|]. split; [exact Hregister|].
  destruct (fpga_compat_accepts 9 589827 Hexpected Hregister)
    as (_ & Hnew & _).
  exact (Hnew ltac:(lia)).
Defined.

(** X19 on the sample device. *)
Lemma rx_bind_chan_binds_iff_in_range_witness :
  let mbs := _mbc sample_device in
  Forall (λ entry, board_tables_ok entry.2) mbs
  ∧ ∃ mbs' calls',
      rx_bind_chan (sample_request 3) 362 1024 0 0 3 0 mbs [] = Ok (mbs', calls')
      ∧ ∃ mb dsp, calls' = [rx_set_xport_chan_get_buff 0 mb dsp true].
Proof.
  intros mbs.
  assert (Hok : Forall (λ entry, board_tables_ok entry.2) mbs)
    by (repeat constructor; cbn; lia).
  split; [exact Hok|].
  destruct (rx_bind_chan_binds_iff_in_range (sample_request 3) 362 1024 0 0 3
              mbs [] Hok) as (mbs' & calls' & Hbind & _ & Hin & _).
  exists mbs', calls'. split; [exact Hbind|].
  destruct (Hin ltac:(cbn; lia)) as (mb & dsp & Hcalls & _).
  exists mb, dsp. exact Hcalls.
Defined.

(** X20 on the sample device. *)
Lemma get_tx_stream_after_io_init_witness :
  let request := sample_request 1 in
  _mbc sample_device ≠ []
  ∧ Forall (λ entry, tx_pair_ok entry.2) (_mbc sample_device)
  ∧ @get_bytes_per_item sample_host "sc16" ≠ 0%Z
  ∧ (otw_format request = "" ∨ otw_format request = "sc16")
  ∧ ∃ self1 tasks my_streamer self2,
      io_init 1048576 (0%Z : @double sample_host) sample_device
      = Ok (self1, tasks)
      ∧ get_tx_stream request self1 = (Ok my_streamer, self2).
Proof.
  intros request.
  assert (Hboard : _mbc sample_device ≠ []) by discriminate.
  assert (Hpairs : Forall (λ entry, tx_pair_ok entry.2) (_mbc sample_device)).
  { repeat constructor; eexists _, _;
      (split; [reflexivity|split; [reflexivity|split; discriminate]]). }
  assert (Hocc : Forall (λ entry,
              (tx_chan_occ entry.2 ≤ 2)%nat
              ∧ (tx_chan_occ entry.2 ≤ length (tx_dsps entry.2))%nat
              ∧ (rx_chan_occ entry.2 ≤ length (rx_dsps entry.2))%nat
              ∧ (rx_chan_occ entry.2 ≤ length (rx_dsp_xports entry.2))%nat)
            (_mbc sample_device))
    by (repeat constructor; cbn; lia).
  assert (Hitem : @get_bytes_per_item sample_host "sc16" ≠ 0%Z)
    by discriminate.
  assert (Hformat : otw_format request = "" ∨ otw_format request = "sc16")
    by (right; reflexivity).
  split; [exact Hboard|]. split; [exact Hpairs|]. split; [exact Hitem|].
  split; [exact Hformat|].
  exact (get_tx_stream_after_io_init 1048576 (0%Z : @double sample_host)
           sample_device request Hboard Hpairs Hocc Hitem Hformat).
Defined.

(** C8 on the scenario of the specification: boards "A" and "B" expose two
    channels each, and a request for logical channel 2 is bound to slot 0
    of board "B". *)
Lemma get_rx_stream_resolves_channels_witness :
  let request := sample_request 2 in
  let xport0 := {| get_send_frame_size := 1472;
                   get_recv_frame_size := 1472 |} in
  _mbc sample_device = ("A", sample_board 2) :: [("B", sample_board 2)]
  ∧ rx_dsp_xports (sample_board 2) !! 0%nat = Some xport0
  ∧ @get_bytes_per_item sample_host (otw_format (with_defaults request))
    ≠ 0%Z
  ∧ Forall (λ entry, board_tables_ok entry.2) (_mbc sample_device)
  ∧ Forall (λ entry, streamer_slots_ok entry.2) (_mbc sample_device)
  ∧ ∃ my_streamer self',
      get_rx_stream request sample_device = (Ok my_streamer, self')
      ∧ rx_resolve (_mbc sample_device) 2 = Some ("B", 0%nat)
      ∧ rx_set_xport_chan_get_buff 0 "B" 0 true ∈ rx_calls my_streamer
      ∧ ∃ c', _mbc self' !! 1%nat = Some ("B", c')
              ∧ rx_streamers c' !! 0%nat
                = Some (Some (rx_streamer_id my_streamer)).
Proof.
  intros request xport0.
  assert (Hfront : _mbc sample_device
                   = ("A", sample_board 2) :: [("B", sample_board 2)])
    by reflexivity.
  assert (Hxport : rx_dsp_xports (sample_board 2) !! 0%nat = Some xport0)
    by reflexivity.
  assert (Hitem : @get_bytes_per_item sample_host
                    (otw_format (with_defaults request)) ≠ 0%Z)
    by discriminate.
  assert (Htables : Forall (λ entry, board_tables_ok entry.2)
                      (_mbc sample_device))
    by (repeat constructor; cbn; lia).
  assert (Hslots : Forall (λ entry, streamer_slots_ok entry.2)
                     (_mbc sample_device))
    by (repeat constructor; cbn; lia).
  split; [exact Hfront|]. split; [exact Hxport|]. split; [exact Hitem|].
  split; [exact Htables|]. split; [exact Hslots|].
  destruct (get_rx_stream_resolves_channels request sample_device
              "A" (sample_board 2) [("B", sample_board 2)] xport0
              Hfront Hxport Hitem Htables Hslots)
    as (my_streamer & self' & rates & Hmade & _ & _ & Hbound & _).
  exists my_streamer, self'. split; [exact Hmade|].
  destruct (Hbound 0%nat 2%nat [("A", sample_board 2)] "B" (sample_board 2) []
              eq_refl eq_refl ltac:(cbn; lia) ltac:(cbn; lia))
    as (_ & _ & Hres & Hcall & Hweak).
  split; [exact Hres|]. split; [exact Hcall|exact Hweak].
Defined.
